(** * SFC schools heatmap builder: data pipeline and county aggregation

    A shallow embedding of [build_sfc_schools_heatmap.py]: the bundle
    extraction loop, the postcode geocoder with its on-disk cache, the
    engagement metric and the region-to-county aggregation, followed by the
    properties established about them.

    Python values are modelled as the interpreter has them: [int] is an
    unbounded [Z]; [float] is an IEEE-754 binary64 value, taken from the
    standard library's executable specification [spec_float] with
    [prec = 53] and [emax = 1024]; [str] is [string], one [ascii] per
    character, and the string methods are those of ASCII text; a [dict]
    used for lookup is a [gmap], a [dict] that is iterated is an
    association list in insertion order. *)

From Stdlib Require Import ZArith QArith Qpower Qabs Qminmax String Ascii List Bool.
From Stdlib Require Import Lia Lqa.
From Stdlib Require Import Floats.SpecFloat.
From stdpp Require Import gmap strings list fin_maps pretty sorting.

Local Open Scope string_scope.
Local Open Scope list_scope.
Local Open Scope Z_scope.

(* ===================================================================== *)
(** * Part I. Definitions                                                 *)
(* ===================================================================== *)

(** ** Exceptions *)

Inductive py_exn : Type :=
  | OverflowError
  | ZeroDivisionError
  | JSONDecodeError
  | RuntimeError
  | ValueError.

Inductive res (A : Type) : Type :=
  | Ok (a : A)
  | Raise (e : py_exn).
Arguments Ok {A} a.
Arguments Raise {A} e.

#[global] Instance res_ret : MRet res := fun A a => Ok a.
#[global] Instance res_bind : MBind res := fun A B f c =>
  match c with
  | Ok a => f a
  | Raise e => Raise e
  end.
#[global] Instance res_fmap : FMap res := fun A B f c =>
  match c with
  | Ok a => Ok (f a)
  | Raise e => Raise e
  end.

(** [for x in l: f x] where the body may raise: results in list order. *)
Fixpoint for_each {A B : Type} (f : A -> res B) (l : list A) : res (list B) :=
  match l with
  | [] => Ok []
  | x :: l' =>
      match f x with
      | Raise e => Raise e
      | Ok y =>
          match for_each f l' with
          | Raise e => Raise e
          | Ok ys => Ok (y :: ys)
          end
      end
  end.

(** [for x in l: acc = f(acc, x)] where the body may raise. *)
Fixpoint fold_res {A B : Type} (f : A -> B -> res A) (l : list B) (a : A) : res A :=
  match l with
  | [] => Ok a
  | x :: l' =>
      match f a x with
      | Raise e => Raise e
      | Ok a' => fold_res f l' a'
      end
  end.

(** ** Python numbers *)

Definition prec : Z := 53.
Definition emax : Z := 1024.

Inductive pynum : Type :=
  | PyInt (z : Z)
  | PyFloat (f : spec_float).

(** An [int] as a (not normalised) binary float of the same value. *)
Definition int_exact (z : Z) : spec_float :=
  match z with
  | Z0 => S754_zero false
  | Zpos p => S754_finite false p 0
  | Zneg p => S754_finite true p 0
  end.

(** [float(z)]: the nearest binary64. *)
Definition float_of_int (z : Z) : spec_float :=
  binary_normalize prec emax z 0 false.

(** [a / b] on two ints: the correctly rounded quotient. *)
Definition int_truediv (a b : Z) : res spec_float :=
  if b =? 0 then Raise ZeroDivisionError
  else
    match SFdiv prec emax (int_exact a) (int_exact b) with
    | S754_infinity _ => Raise OverflowError
    | q => Ok q
    end.

(** [x * n] with [x] a float and [n] an int. *)
Definition float_mul_int (x : spec_float) (n : Z) : spec_float :=
  SFmul prec emax x (float_of_int n).

(** The exact value of a float, when it has one. *)
Definition float_value (x : spec_float) : option Q :=
  match x with
  | S754_zero _ => Some 0%Q
  | S754_finite s m e =>
      let v := cond_Zopp s (Zpos m) in
      Some (if 0 <=? e then inject_Z (v * 2 ^ e)
            else Qmake v (Z.to_pos (2 ^ (- e))))
  | _ => None
  end.

Definition pynum_value (v : pynum) : option Q :=
  match v with
  | PyInt z => Some (inject_Z z)
  | PyFloat x => float_value x
  end.

(** [n < x] with [n] an int and [x] a float: Python compares the exact
    values. *)
Definition int_lt_float (n : Z) (x : spec_float) : bool :=
  match x with
  | S754_nan => false
  | S754_infinity s => negb s
  | S754_zero _ => n <? 0
  | S754_finite s m e =>
      let v := cond_Zopp s (Zpos m) in
      if 0 <=? e then n <? v * 2 ^ e else n * 2 ^ (- e) <? v
  end.

Definition float_lt_int (x : spec_float) (n : Z) : bool :=
  match x with
  | S754_nan => false
  | S754_infinity s => s
  | S754_zero _ => 0 <? n
  | S754_finite s m e =>
      let v := cond_Zopp s (Zpos m) in
      if 0 <=? e then v * 2 ^ e <? n else v <? n * 2 ^ (- e)
  end.

Definition py_lt (a b : pynum) : bool :=
  match a, b with
  | PyInt x, PyInt y => x <? y
  | PyInt x, PyFloat y => int_lt_float x y
  | PyFloat x, PyInt y => float_lt_int x y
  | PyFloat x, PyFloat y => SFltb x y
  end.

(** [min(a, b)]: the first argument unless the second is strictly less. *)
Definition py_min (a b : pynum) : pynum :=
  if py_lt b a then b else a.

(** [a != 0.0]. *)
Definition py_ne_zero (a : pynum) : bool :=
  match a with
  | PyInt z => negb (z =? 0)
  | PyFloat x => negb (SFeqb x (S754_zero false))
  end.

(** [bool(a)]. *)
Definition py_truthy (a : pynum) : bool :=
  match a with
  | PyInt z => negb (z =? 0)
  | PyFloat (S754_zero _) => false
  | PyFloat _ => true
  end.

(** The integer nearest to [num / den], ties to the even one
    ([num >= 0], [den > 0]). *)
Definition div_half_even (num den : Z) : Z :=
  let q := num / den in
  let r := num mod den in
  match 2 * r ?= den with
  | Lt => q
  | Gt => q + 1
  | Eq => if Z.even q then q else q + 1
  end.

(** [round(x, ndigits)] on a float, [ndigits >= 0]: the decimal with
    [ndigits] places nearest to the exact value of [x] (ties to even),
    converted back to the nearest binary64; beyond 323 places, and for an
    infinity or a NaN, [x] is returned as it is. *)
Definition float_round (x : spec_float) (ndigits : nat) : spec_float :=
  match x with
  | S754_finite s m e =>
      if (323 <? ndigits)%nat then x
      else
        let p := 10 ^ Z.of_nat ndigits in
        let n := if 0 <=? e then Zpos m * 2 ^ e * p
                 else div_half_even (Zpos m * p) (2 ^ (- e)) in
        match n with
        | Zpos k => SFdiv prec emax (S754_finite s k 0) (int_exact p)
        | _ => S754_zero s
        end
  | _ => x
  end.

(** [round(v, ndigits)] with [ndigits >= 0]: an int is returned as it is. *)
Definition py_round (v : pynum) (ndigits : nat) : pynum :=
  match v with
  | PyInt z => PyInt z
  | PyFloat x => PyFloat (float_round x ndigits)
  end.

(** ** Python strings

    A text is modelled by the string of its characters, one [ascii] per
    character.  The three methods below are those of [str] on ASCII text
    ([is_ascii]): outside ASCII [str.upper] also maps letters such as
    U+00E9, and [str.strip] also removes white space such as U+0085 and
    U+00A0, which the definitions leave alone.  UK postcodes, the only
    texts they are applied to, are ASCII. *)

(** Every character is below 128. *)
Fixpoint is_ascii (s : string) : bool :=
  match s with
  | EmptyString => true
  | String c s' => (nat_of_ascii c <? 128)%nat && is_ascii s'
  end.

Definition ascii_upper (c : ascii) : ascii :=
  let n := nat_of_ascii c in
  if ((97 <=? n) && (n <=? 122))%nat then ascii_of_nat (n - 32) else c.

(** [s.upper()] on ASCII text. *)
Fixpoint py_upper (s : string) : string :=
  match s with
  | EmptyString => EmptyString
  | String c s' => String (ascii_upper c) (py_upper s')
  end.

(** The ASCII characters for which [str.isspace] holds. *)
Definition is_space (c : ascii) : bool :=
  let n := nat_of_ascii c in
  (((9 <=? n) && (n <=? 13)) || ((28 <=? n) && (n <=? 32)))%nat.

Fixpoint lstrip (s : string) : string :=
  match s with
  | EmptyString => EmptyString
  | String c s' => if is_space c then lstrip s' else s
  end.

Fixpoint rstrip (s : string) : string :=
  match s with
  | EmptyString => EmptyString
  | String c s' =>
      match rstrip s' with
      | EmptyString => if is_space c then EmptyString else String c EmptyString
      | t => String c t
      end
  end.

(** [s.strip()] on ASCII text. *)
Definition py_strip (s : string) : string := rstrip (lstrip s).

(** [s.replace(" ", "")]. *)
Fixpoint remove_spaces (s : string) : string :=
  match s with
  | EmptyString => EmptyString
  | String c s' =>
      if Ascii.eqb c " "%char then remove_spaces s' else String c (remove_spaces s')
  end.

(** [s.replace(old, new)] for a non-empty [old]: the occurrences are found
    from the left and do not overlap; [skip] counts the characters of a
    match still to be passed over. *)
Fixpoint replace_from (old new : string) (skip : nat) (s : string) : string :=
  match s with
  | EmptyString => EmptyString
  | String c s' =>
      match skip with
      | S k => replace_from old new k s'
      | O =>
          if String.prefix old s
          then new +:+ replace_from old new (String.length old - 1) s'
          else String c (replace_from old new 0 s')
      end
  end.

Definition py_replace (old new s : string) : string := replace_from old new 0 s.

(** [sep.join(parts)]. *)
Fixpoint py_join (sep : string) (parts : list string) : string :=
  match parts with
  | [] => EmptyString
  | [p] => p
  | p :: rest => p +:+ sep +:+ py_join sep rest
  end.

Definition digit_val (c : ascii) : Z := Z.of_nat (nat_of_ascii c) - 48.

Definition is_digit (c : ascii) : bool :=
  let n := nat_of_ascii c in ((48 <=? n) && (n <=? 57))%nat.

Fixpoint all_digits (s : string) : bool :=
  match s with
  | EmptyString => true
  | String c s' => is_digit c && all_digits s'
  end.

Fixpoint int_of_digits (acc : Z) (s : string) : Z :=
  match s with
  | EmptyString => acc
  | String c s' => int_of_digits (10 * acc + digit_val c) s'
  end.

(** The interpreter's default limit on the number of digits of a string
    that [int] converts, and of an int that is written in decimal. *)
Definition int_max_str_digits : nat := 4300.

(** [int(s)] on a group captured by [\d+]: the value of a string of decimal
    digits, and [ValueError] when it has more than 4300 of them.  The empty
    string and a string with another character are a [ValueError] too; the
    forms with a sign, blanks or underscores, which [int] accepts as well,
    cannot be captured and are left out.  The digits are the ASCII ones:
    [\d] also matches the decimal digits of other scripts, which [int]
    converts as well; a bundle with such a group is outside the model, and
    the statements about the conversions are made for groups of ASCII
    digits ([all_digits]). *)
Definition py_int (s : string) : res Z :=
  match s with
  | EmptyString => Raise ValueError
  | _ =>
      if all_digits s && (String.length s <=? int_max_str_digits)%nat
      then Ok (int_of_digits 0 s)
      else Raise ValueError
  end.

(** An int that can be written in decimal, as [f"{n:,}"] and [str(n)] do:
    one of at most 4300 digits. *)
Definition int_printable (n : Z) : bool :=
  Z.abs n <? 10 ^ Z.of_nat int_max_str_digits.

(** Puts a comma before every fourth digit of a reversed digit list. *)
Fixpoint group3 (rev_digits : list ascii) (i : nat) : list ascii :=
  match rev_digits with
  | [] => []
  | c :: rest =>
      if (i =? 3)%nat then ","%char :: c :: group3 rest 1
      else c :: group3 rest (S i)
  end.

(** The format [{n:,}]: decimal with thousands separators. *)
Definition format_thousands (n : Z) : string :=
  let digits := list_ascii_of_string (pretty (Z.abs n)) in
  let grouped := string_of_list_ascii (rev (group3 (rev digits) 0)) in
  if n <? 0 then "-" +:+ grouped else grouped.

Fixpoint zsum (l : list Z) : Z :=
  match l with
  | [] => 0
  | x :: l' => x + zsum l'
  end.

(** ** The county mapping tables *)

(** Multiple SFC regions that merge into one GeoJSON county. *)
Definition MERGE_MAP : list (string * list string) :=
  [ ("Greater London",
      [ "London, Bromley"; "London, Central"; "London, East";
        "London, North West"; "London, North"; "London, South East";
        "London, South West"; "London, West" ]);
    ("Greater Manchester", [ "Greater Manchester"; "Manchester" ]);
    ("Somerset", [ "Somerset"; "Somerset, Bath" ]);
    ("Durham", [ "County Durham"; "Tees Valley" ]) ].

(** SFC regions with a single national total mapped to multiple GeoJSON
    sub-features. *)
Definition NATIONAL_REGIONS : list (string * list string) :=
  [ ("Scotland",
      [ "Central"; "Dumfries and Galloway"; "Eilean Siar"; "Fife";
        "Grampian"; "Highland"; "Lothian"; "Orkney Islands";
        "Scottish Borders"; "Shetland Islands"; "Strathclyde"; "Tayside" ]);
    ("Wales",
      [ "Clwyd"; "Dyfed"; "Gwent"; "Gwynedd"; "Mid Glamorgan";
        "Powys"; "South Glamorgan"; "West Glamorgan" ]);
    ("Northern Ireland",
      [ "Antrim"; "Armagh"; "Down"; "Fermanagh"; "Londonderry"; "Tyrone" ]) ].

(** Direct rename: SFC name -> GeoJSON name. *)
Definition RENAME_MAP : list (string * string) :=
  [ ("County Durham", "Durham") ].

(** Regions with no GeoJSON boundary (omitted from map). *)
Definition OMITTED : list string :=
  [ "Channel Islands"; "Isle of Man"; "National (UK)" ].

(** ** Dictionaries that are iterated: association lists in insertion order *)

Fixpoint al_lookup {V : Type} (k : string) (l : list (string * V)) : option V :=
  match l with
  | [] => None
  | (k', v) :: l' => if String.eqb k k' then Some v else al_lookup k l'
  end.

(** [d[k] = f(d[k])] on a [defaultdict]: an absent key is first inserted,
    at the end, with the default [dflt]. *)
Fixpoint al_update {V : Type} (dflt : V) (f : V -> V) (k : string)
    (l : list (string * V)) : list (string * V) :=
  match l with
  | [] => [(k, f dflt)]
  | (k', v) :: l' =>
      if String.eqb k k' then (k', f v) :: l'
      else (k', v) :: al_update dflt f k l'
  end.

(** ** Step 1: the extraction loop of [extract_school_data] *)

Record school : Type := mkSchool {
  s_id : string;
  s_name : string;
  s_pacts : Z;
  s_pupils : Z;
  s_postcode : string;
  s_address : string;
  s_high_age : Z;
  s_low_age : Z;
  s_lat : pynum;
  s_lng : pynum;
  s_region : string;
  s_pact_pct : option pynum   (* absent until [calculate_metrics] *)
}.

(** The groups of one match of the school pattern, in pattern order. *)
Record school_match : Type := mkMatch {
  g_address : string;
  g_high_age : string;
  g_low_age : string;
  g_pacts : string;
  g_postcode : string;
  g_pupils : string;
  g_school_id : string;
  g_school_name : string
}.

(** One region header match: groups 1 and 4, and the school matches that
    [re.findall] returns on the text between this header and the next. *)
Record region_span : Type := mkSpan {
  rs_name : string;
  rs_pacts : string;
  rs_matches : list school_match
}.

(** An entry of [region_data]. *)
Record region_info : Type := mkInfo {
  ri_pacts : Z;          (* the total declared in the header *)
  ri_school_pacts : Z;
  ri_pupils : Z;
  ri_school_count : Z
}.

Definition float_zero : pynum := PyFloat (S754_zero false).

Definition unescape (s : string) : string :=
  py_replace "\'" "'" (py_replace "\u0027" "'" s).

(** The body of the loop over the matches: the four conversions, in the
    order of the source, and the school appended. *)
Definition school_of_match (region_name : string) (m : school_match) : res school :=
  p ← (if String.eqb (g_pupils m) "" then Ok 0 else py_int (g_pupils m));
  pc ← py_int (g_pacts m);
  high_age ← py_int (g_high_age m);
  low_age ← py_int (g_low_age m);
  mret {| s_id := g_school_id m;
          s_name := unescape (g_school_name m);
          s_pacts := pc;
          s_pupils := p;
          s_postcode := g_postcode m;
          s_address := unescape (g_address m);
          s_high_age := high_age;
          s_low_age := low_age;
          s_lat := float_zero;
          s_lng := float_zero;
          s_region := region_name;
          s_pact_pct := None |}.

(** The inner loop over the matches of one span: the schools appended and
    the three running totals. *)
Fixpoint span_loop (region_name : string) (ms : list school_match)
    (acc : list school * (Z * Z * Z)) : res (list school * (Z * Z * Z)) :=
  match ms with
  | [] => Ok acc
  | m :: ms' =>
      let '(schools, (count, pacts, pupils)) := acc in
      match school_of_match region_name m with
      | Raise e => Raise e
      | Ok s =>
          span_loop region_name ms'
            (schools ++ [s], (count + 1, pacts + s_pacts s, pupils + s_pupils s))
      end
  end.

(** An entry of [region_spans]: the name, the declared total as an int,
    and the school matches of the span. *)
Definition region_span_of (sp : region_span)
    : res (string * Z * list school_match) :=
  region_pacts ← py_int (rs_pacts sp);
  mret (rs_name sp, region_pacts, rs_matches sp).

Definition extract_step (acc : list school * gmap string region_info)
    (span : string * Z * list school_match)
    : res (list school * gmap string region_info) :=
  let '(schools, region_data) := acc in
  let '(region_name, region_pacts, ms) := span in
  '(schools', (count, pacts, pupils)) ←
    span_loop region_name ms (schools, (0, 0, 0));
  mret (schools',
        <[region_name := {| ri_pacts := region_pacts;
                            ri_school_pacts := pacts;
                            ri_pupils := pupils;
                            ri_school_count := count |}]> region_data).

(** [sum(rd["pacts"] for rd in region_data.values())]. *)
Definition total_region_pacts (region_data : gmap string region_info) : Z :=
  map_fold (fun _ info acc => ri_pacts info + acc) 0 region_data.

(** [extract_school_data], from the region header matches on: the spans
    with their declared totals, the loop over the spans, and the two totals
    that are printed with thousands separators. *)
Definition extract_school_data (spans : list region_span)
    : res (list school * gmap string region_info) :=
  match spans with
  | [] => Raise RuntimeError
  | _ =>
      region_spans ← for_each region_span_of spans;
      '(schools, region_data) ← fold_res extract_step region_spans ([], ∅);
      if int_printable (zsum (map s_pacts schools))
         && int_printable (total_region_pacts region_data)
      then mret (schools, region_data)
      else Raise ValueError
  end.

(** ** Step 2: [geocode_postcodes] *)

(** The geocode cache: normalised postcode -> [lat, lng]. *)
Abbreviation cache := (gmap string (pynum * pynum)).

(** The [result] object of one item of a postcodes.io answer. *)
Record api_coords : Type := mkCoords {
  latitude : option pynum;
  longitude : option pynum
}.

Record api_item : Type := mkItem {
  query : option string;
  result : option api_coords
}.

(** What one bulk request comes to: a complete answer, or an exception
    (network error, malformed response) raised after the given items had
    been handled. *)
Inductive batch_outcome : Type :=
  | Answered (items : list api_item)
  | Failed (items_before : list api_item).

Definition outcome_items (o : batch_outcome) : list api_item :=
  match o with
  | Answered items => items
  | Failed items => items
  end.

(** [s["postcode"].upper().strip().replace(" ", "")], for an ASCII
    postcode ([is_ascii]). *)
Definition normalize_postcode (pc : string) : string :=
  remove_spaces (py_strip (py_upper pc)).

Fixpoint sorted_insert (x : string) (l : list string) : list string :=
  match l with
  | [] => [x]
  | y :: l' =>
      match String.compare x y with
      | Lt => x :: l
      | Eq => l
      | Gt => y :: sorted_insert x l'
      end
  end.

(** [sorted(set(l))]. *)
Definition sorted_set (l : list string) : list string :=
  fold_right sorted_insert [] l.

(** [sorted(unique_postcodes)]: the normalised postcodes of the schools
    that are non-empty and not in the cache. *)
Definition new_postcodes (cached : cache) (schools : list school) : list string :=
  sorted_set
    (List.filter
       (fun pc => negb (String.eqb pc "") && bool_decide (cached !! pc = None))
       (map (fun s => normalize_postcode (s_postcode s)) schools)).

Definition batch_size : nat := 100.

(** The slices [postcodes_list[i:i + batch_size]] for
    [i in range(0, len(postcodes_list), batch_size)]. *)
Definition batches (l : list string) : list (list string) :=
  map (fun j => take batch_size (drop (j * batch_size) l))
      (seq 0 ((length l + batch_size - 1) / batch_size)).

(** The body of the loop over the items of an answer. *)
Definition apply_item (cached : cache) (item : api_item) : cache :=
  let q := remove_spaces (py_upper (default "" (query item))) in
  match result item with
  | Some r =>
      match latitude r, longitude r with
      | Some la, Some lo =>
          if py_truthy la && py_truthy lo
          then <[q := (py_round la 5, py_round lo 5)]> cached
          else cached
      | _, _ => cached
      end
  | None => cached
  end.

(** The cache file: its text, or [None] when it does not exist.  Opening
    for writing truncates; each write appends. *)
Inductive io_step : Type :=
  | OpenTruncate
  | Write (chunk : string)
  | Close.

Definition io_run1 (disk : option string) (st : io_step) : option string :=
  match st with
  | OpenTruncate => Some EmptyString
  | Write chunk => Some (default EmptyString disk +:+ chunk)
  | Close => disk
  end.

Definition io_run (steps : list io_step) (disk : option string) : option string :=
  fold_left io_run1 steps disk.

(** [with open(cache_path, "w") as f: json.dump(cached, f, ...)], given
    the chunks the encoder hands to [f.write]. *)
Definition dump_steps (chunks : list string) : list io_step :=
  OpenTruncate :: map Write chunks ++ [Close].

Definition with_coords (s : school) (la lo : pynum) : school :=
  {| s_id := s_id s; s_name := s_name s; s_pacts := s_pacts s;
     s_pupils := s_pupils s; s_postcode := s_postcode s;
     s_address := s_address s; s_high_age := s_high_age s;
     s_low_age := s_low_age s; s_lat := la; s_lng := lo;
     s_region := s_region s; s_pact_pct := s_pact_pct s |}.

(** The body of the loop that copies the cached coordinates. *)
Definition assign_coords (cached : cache) (s : school) : school :=
  match cached !! normalize_postcode (s_postcode s) with
  | Some (la, lo) => with_coords s la lo
  | None => s
  end.

Section Geocoder.
(** The JSON codec of the runtime and the remote service. *)
Variable json_load : string -> res cache.
Variable json_encode : cache -> list string.
Variable api : list string -> batch_outcome.

Definition load_cache (disk : option string) : res cache :=
  match disk with
  | None => Ok ∅
  | Some text => json_load text
  end.

(** The loop over the batches: the cache after all of them. *)
Definition resolve_batches (cached : cache) (bs : list (list string)) : cache :=
  fold_left (fun c batch => fold_left apply_item (outcome_items (api batch)) c)
            bs cached.

(** The cache as it is in memory once the batches are done. *)
Definition cache_after (cached : cache) (schools : list school) : cache :=
  resolve_batches cached (batches (new_postcodes cached schools)).

(** The file after the run: rewritten only if there was a new postcode. *)
Definition disk_after (disk : option string) (cached : cache)
    (schools : list school) : option string :=
  match new_postcodes cached schools with
  | [] => disk
  | _ => io_run (dump_steps (json_encode (cache_after cached schools))) disk
  end.

Definition geocode_postcodes (disk : option string) (schools : list school)
    : res (list school * option string) :=
  cached ← load_cache disk;
  let cached' := cache_after cached schools in
  let schools' :=
    List.filter (fun s => py_ne_zero (s_lat s))
                (map (assign_coords cached') schools) in
  mret (schools', disk_after disk cached schools).
End Geocoder.

(** ** Step 3: [calculate_metrics] *)

Definition with_pct (s : school) (p : pynum) : school :=
  {| s_id := s_id s; s_name := s_name s; s_pacts := s_pacts s;
     s_pupils := s_pupils s; s_postcode := s_postcode s;
     s_address := s_address s; s_high_age := s_high_age s;
     s_low_age := s_low_age s; s_lat := s_lat s; s_lng := s_lng s;
     s_region := s_region s; s_pact_pct := Some p |}.

(** The body of the first loop of [calculate_metrics]. *)
Definition school_metric (s : school) : res school :=
  if s_pupils s >? 0 then
    q ← int_truediv (s_pacts s) (s_pupils s);
    mret (with_pct s
            (py_round (py_min (PyFloat (float_mul_int q 100)) (PyInt 100)) 1))
  else mret (with_pct s (PyInt 0)).

Definition calculate_metrics (schools : list school) : res (list school) :=
  for_each school_metric schools.

(** ** Step 4: [build_county_data] *)

(** An entry of [region_agg]. *)
Record region_rec : Type := mkRec {
  r_pacts : Z;
  r_pupils : Z;
  r_school_count : Z;
  r_pact_pct : option pynum
}.

Definition region_default : region_rec :=
  {| r_pacts := 0; r_pupils := 0; r_school_count := 0; r_pact_pct := None |}.

Definition add_school (agg : list (string * region_rec)) (s : school)
    : list (string * region_rec) :=
  al_update region_default
    (fun r => {| r_pacts := r_pacts r + s_pacts s;
                 r_pupils := r_pupils r + s_pupils s;
                 r_school_count := r_school_count r + 1;
                 r_pact_pct := r_pact_pct r |})
    (s_region s) agg.

(** Aggregate schools by region. *)
Definition aggregate_regions (schools : list school) : list (string * region_rec) :=
  fold_left add_school schools [].

Definition region_with_pct (r : region_rec) (p : pynum) : region_rec :=
  {| r_pacts := r_pacts r; r_pupils := r_pupils r;
     r_school_count := r_school_count r; r_pact_pct := Some p |}.

(** Calculate pact_pct per region: the body of the loop. *)
Definition region_metric (item : string * region_rec) : res (string * region_rec) :=
  let '(name, r) := item in
  if r_pupils r >? 0 then
    q ← int_truediv (r_pacts r) (r_pupils r);
    mret (name,
          region_with_pct r
            (py_round (py_min (PyFloat (float_mul_int q 100)) (PyInt 100)) 1))
  else mret (name, region_with_pct r (PyInt 0)).

(** A JSON scalar, as a property of a boundary feature holds it. *)
Inductive pyval : Type :=
  | VNone
  | VBool (b : bool)
  | VNum (n : pynum)
  | VStr (s : string).

(** A GeoJSON feature: its properties (the geometry is never touched). *)
Record feature : Type := mkFeature {
  properties : gmap string pyval
}.

(** [f["properties"].get("county", f["properties"].get("name", ""))]. *)
Definition feature_county (f : feature) : pyval :=
  match properties f !! "county" with
  | Some v => v
  | None => default (VStr "") (properties f !! "name")
  end.

Definition geo_names (features : list feature) : list pyval :=
  map feature_county features.

(** [target in geo_names] for a string [target]. *)
Definition str_in (target : string) (names : list pyval) : bool :=
  existsb (fun v => match v with
                    | VStr n => String.eqb n target
                    | _ => false
                    end) names.

(** [bool(v)]. *)
Definition pyval_truthy (v : pyval) : bool :=
  match v with
  | VNone => false
  | VBool b => b
  | VNum n => py_truthy n
  | VStr s => negb (String.eqb s "")
  end.

(** [d.get(county)] on a dict whose keys are strings. *)
Definition get_county {V : Type} (d : gmap string V) (county : pyval) : option V :=
  match county with
  | VStr k => d !! k
  | _ => None
  end.

(** The four dicts and the set that the mapping steps fill. *)
Record county_state : Type := mkState {
  county_pacts : gmap string Z;
  county_pupils : gmap string Z;
  county_schools : gmap string Z;
  county_labels : gmap string string;
  already_mapped : gset string
}.

Definition empty_state : county_state :=
  {| county_pacts := ∅; county_pupils := ∅; county_schools := ∅;
     county_labels := ∅; already_mapped := ∅ |}.

(** [region_agg.get(n, {}).get(field, 0)]. *)
Definition agg_get (field : region_rec -> Z) (agg : list (string * region_rec))
    (n : string) : Z :=
  match al_lookup n agg with
  | Some r => field r
  | None => 0
  end.

Definition merge_parts (agg : list (string * region_rec)) (sfc_names : list string)
    : list string :=
  map (fun n => n +:+ ": " +:+ format_thousands (agg_get r_pacts agg n))
      (List.filter (fun n => agg_get r_pacts agg n >? 0) sfc_names).

(** 1. Handle merged regions: the body of the loop over [MERGE_MAP]. *)
Definition merge_step (agg : list (string * region_rec)) (st : county_state)
    (rule : string * list string) : county_state :=
  let '(geo_name, sfc_names) := rule in
  let total_pacts := zsum (map (agg_get r_pacts agg) sfc_names) in
  let total_pupils := zsum (map (agg_get r_pupils agg) sfc_names) in
  let total_schools := zsum (map (agg_get r_school_count agg) sfc_names) in
  let mapped := already_mapped st ∪ list_to_set sfc_names in
  if (total_pacts >? 0) || (total_schools >? 0) then
    let parts := merge_parts agg sfc_names in
    {| county_pacts := <[geo_name := total_pacts]> (county_pacts st);
       county_pupils := <[geo_name := total_pupils]> (county_pupils st);
       county_schools := <[geo_name := total_schools]> (county_schools st);
       county_labels :=
         if (1 <? length parts)%nat
         then <[geo_name := py_join " + " parts]> (county_labels st)
         else county_labels st;
       already_mapped := mapped |}
  else
    {| county_pacts := county_pacts st; county_pupils := county_pupils st;
       county_schools := county_schools st; county_labels := county_labels st;
       already_mapped := mapped |}.

Definition national_label (sfc_name : string) : string :=
  sfc_name +:+ " total (not broken down by sub-region)".

(** The inner loop [for county in geo_counties]. *)
Definition broadcast_to (sfc_name : string) (pacts pupils sc : Z)
    (st : county_state) (county : string) : county_state :=
  {| county_pacts := <[county := pacts]> (county_pacts st);
     county_pupils := <[county := pupils]> (county_pupils st);
     county_schools := <[county := sc]> (county_schools st);
     county_labels := <[county := national_label sfc_name]> (county_labels st);
     already_mapped := already_mapped st |}.

Definition claim_region (n : string) (st : county_state) : county_state :=
  {| county_pacts := county_pacts st; county_pupils := county_pupils st;
     county_schools := county_schools st; county_labels := county_labels st;
     already_mapped := already_mapped st ∪ {[ n ]} |}.

(** 2. Handle national regions: the body of the loop over
    [NATIONAL_REGIONS]. *)
Definition national_step (agg : list (string * region_rec)) (st : county_state)
    (rule : string * list string) : county_state :=
  let '(sfc_name, geo_counties) := rule in
  let pacts := agg_get r_pacts agg sfc_name in
  let pupils := agg_get r_pupils agg sfc_name in
  let sc := agg_get r_school_count agg sfc_name in
  claim_region sfc_name
    (if (pacts >? 0) || (sc >? 0)
     then fold_left (broadcast_to sfc_name pacts pupils sc) geo_counties st
     else st).

(** [already_mapped.update(OMITTED)]. *)
Definition claim_omitted (st : county_state) : county_state :=
  {| county_pacts := county_pacts st; county_pupils := county_pupils st;
     county_schools := county_schools st; county_labels := county_labels st;
     already_mapped := already_mapped st ∪ list_to_set OMITTED |}.

Definition rename_target (sfc_name : string) : string :=
  default sfc_name (al_lookup sfc_name RENAME_MAP).

Definition in_omitted (n : string) : bool :=
  existsb (String.eqb n) OMITTED.

(** 3. Handle direct matches: the body of the loop over
    [region_agg.items()]; the second component collects the names of the
    regions for which the warning is printed. *)
Definition direct_step (names : list pyval) (acc : county_state * list string)
    (item : string * region_rec) : county_state * list string :=
  let '(st, warned) := acc in
  let '(sfc_name, agg) := item in
  if bool_decide (sfc_name ∈ already_mapped st) then acc
  else
    let target := rename_target sfc_name in
    if str_in target names then
      ({| county_pacts := <[target := r_pacts agg]> (county_pacts st);
          county_pupils := <[target := r_pupils agg]> (county_pupils st);
          county_schools := <[target := r_school_count agg]> (county_schools st);
          county_labels := county_labels st;
          already_mapped := already_mapped st |}, warned)
    else if negb (in_omitted sfc_name) then (st, warned ++ [sfc_name])
    else acc.

(** The line printed for an unmatched region. *)
Definition warning_line (sfc_name : string) : string :=
  "  WARNING: SFC region '" +:+ sfc_name +:+ "' not matched to GeoJSON county".

(** The three mapping steps, in the order of the source. *)
Definition map_regions (agg : list (string * region_rec)) (names : list pyval)
    : county_state * list string :=
  let st1 := fold_left (merge_step agg) MERGE_MAP empty_state in
  let st2 := fold_left (national_step agg) NATIONAL_REGIONS st1 in
  let st3 := claim_omitted st2 in
  fold_left (direct_step names) agg (st3, []).

(** The five assignments to [feature["properties"]]. *)
Definition set_aggregates (f : feature) (pacts pupils : Z) (pct : pynum)
    (sc : Z) (label : string) : feature :=
  {| properties :=
       <["label" := VStr label]>
       (<["school_count" := VNum (PyInt sc)]>
       (<["pact_pct" := VNum pct]>
       (<["pupils" := VNum (PyInt pupils)]>
       (<["pacts" := VNum (PyInt pacts)]> (properties f))))) |}.

(** Annotate GeoJSON features: the body of the loop. *)
Definition annotate (st : county_state) (f : feature) : res feature :=
  let county := feature_county f in
  if negb (pyval_truthy county) then mret f
  else
    let pacts := default 0 (get_county (county_pacts st) county) in
    let pupils := default 0 (get_county (county_pupils st) county) in
    let sc := default 0 (get_county (county_schools st) county) in
    pct ← (if pupils >? 0 then
             q ← int_truediv pacts pupils;
             mret (py_round (py_min (PyFloat (float_mul_int q 100)) (PyInt 100)) 1)
           else mret (PyInt 0));
    mret (set_aggregates f pacts pupils pct sc
            (default "" (get_county (county_labels st) county))).

(** The parts of a merged label format a pact count with [:,], which
    raises [ValueError] on an int of more than 4300 digits; the parts are
    built for the rules that pass the test of [merge_step] only.  The other
    mapping steps convert no number, so the failure is the same wherever in
    the merge loop it occurs. *)
Definition labels_printable (agg : list (string * region_rec)) : bool :=
  forallb (fun rule : string * list string =>
             let sfc_names := snd rule in
             if (zsum (map (agg_get r_pacts agg) sfc_names) >? 0)
                || (zsum (map (agg_get r_school_count agg) sfc_names) >? 0)
             then forallb (fun n => int_printable (agg_get r_pacts agg n))
                          (List.filter (fun n => agg_get r_pacts agg n >? 0)
                                       sfc_names)
             else true)
          MERGE_MAP.

(** The first half of [build_county_data]: the region aggregates with
    their percentages, then the three mapping steps, which a merged label
    that cannot be written ends with [ValueError]. *)
Definition assign_counties (schools : list school) (geojson : list feature)
    : res (county_state * list string) :=
  region_agg ← for_each region_metric (aggregate_regions schools);
  if labels_printable region_agg
  then mret (map_regions region_agg (geo_names geojson))
  else Raise ValueError.

(** [build_county_data(schools, region_data)], given the boundary file as
    loaded; [region_data] is a parameter that the body never reads.  The
    result is the annotated features and the regions warned about. *)
Definition build_county_data (schools : list school)
    (region_data : gmap string region_info) (geojson : list feature)
    : res (list feature * list string) :=
  '(st, warned) ← assign_counties schools geojson;
  features ← for_each (annotate st) geojson;
  mret (features, warned).

(** ** The pipeline of [main], without the export and rendering steps *)

Record run_output : Type := mkOutput {
  out_schools : list school;
  out_region_data : gmap string region_info;
  out_features : list feature;
  out_warned : list string;
  out_disk : option string
}.

Definition main (json_load : string -> res cache)
    (json_encode : cache -> list string) (api : list string -> batch_outcome)
    (spans : list region_span) (disk : option string) (geojson : list feature)
    : res run_output :=
  '(schools, region_data) ← extract_school_data spans;
  '(schools, disk') ← geocode_postcodes json_load json_encode api disk schools;
  schools ← calculate_metrics schools;
  '(features, warned) ← build_county_data schools region_data geojson;
  mret {| out_schools := schools; out_region_data := region_data;
          out_features := features; out_warned := warned; out_disk := disk' |}.

(** ** Step 1, the end: the breakdown by nation *)

(** ["/" in s]. *)
Fixpoint has_slash (s : string) : bool :=
  match s with
  | EmptyString => false
  | String c s' => Ascii.eqb c "/" || has_slash s'
  end.

(** [s.split("/")[0]]: the text before the first slash. *)
Fixpoint before_slash (s : string) : string :=
  match s with
  | EmptyString => EmptyString
  | String c s' => if Ascii.eqb c "/" then EmptyString else String c (before_slash s')
  end.

(** [s["id"].split("/")[0] if "/" in s["id"] else "unknown"]. *)
Definition id_prefix (id : string) : string :=
  if has_slash id then before_slash id else "unknown".

(** [nations[prefix] += 1] on a [Counter]: an absent key counts as 0. *)
Definition count_nation (nations : gmap string Z) (s : school) : gmap string Z :=
  let prefix := id_prefix (s_id s) in
  <[prefix := default 0 (nations !! prefix) + 1]> nations.

(** The [Counter] printed at the end of [extract_school_data]. *)
Definition nation_counts (schools : list school) : gmap string Z :=
  fold_left count_nation schools ∅.

(** ** Step 3, the end: the figures printed by [calculate_metrics]

    The loops below read [s["pact_pct"]]; a school without the key makes
    them fail with a [KeyError], written [None] here. *)

(** [p <= n] with [n] an int: the exact values are compared, and a NaN is
    not below anything. *)
Definition py_le_int (p : pynum) (n : Z) : bool :=
  match p with
  | PyInt z => z <=? n
  | PyFloat S754_nan => false
  | PyFloat x => negb (int_lt_float n x)
  end.

(** [[s for s in schools if s["pact_pct"] > 0]]. *)
Fixpoint schools_with_pct (schools : list school) : option (list school) :=
  match schools with
  | [] => Some []
  | s :: rest =>
      p ← s_pact_pct s;
      l ← schools_with_pct rest;
      Some (if py_lt (PyInt 0) p then s :: l else l)
  end.

(** The chain of comparisons of the distribution loop. *)
Definition band_of (p : pynum) : string :=
  if negb (py_ne_zero p) then "0%"
  else if py_le_int p 10 then "1-10%"
  else if py_le_int p 25 then "11-25%"
  else if py_le_int p 50 then "26-50%"
  else if py_le_int p 75 then "51-75%"
  else "76-100%".

Definition empty_bands : gmap string Z :=
  <["76-100%" := 0]> (<["51-75%" := 0]> (<["26-50%" := 0]>
  (<["11-25%" := 0]> (<["1-10%" := 0]> (<["0%" := 0]> ∅))))).

(** [bands[band] += 1] for one school. *)
Definition count_band (bands : gmap string Z) (s : school) : option (gmap string Z) :=
  p ← s_pact_pct s;
  n ← bands !! band_of p;
  Some (<[band_of p := n + 1]> bands).

Fixpoint fill_bands (schools : list school) (bands : gmap string Z)
    : option (gmap string Z) :=
  match schools with
  | [] => Some bands
  | s :: rest => b ← count_band bands s; fill_bands rest b
  end.

(** The distribution printed by [calculate_metrics]. *)
Definition pct_bands (schools : list school) : option (gmap string Z) :=
  fill_bands schools empty_bands.

(** ** Step 3b: the rows of [export_csv] *)

Definition nation_map : list (string * string) :=
  [ ("england", "England"); ("scotland", "Scotland"); ("wales", "Wales");
    ("ni", "Northern Ireland") ].

(** [nation_map.get(prefix, prefix)]. *)
Definition nation_of (id : string) : string :=
  let prefix := id_prefix id in
  default prefix (al_lookup prefix nation_map).

(** A row as it is handed to [writer.writerow]. *)
Record csv_row : Type := mkRow {
  c_school_id : string;
  c_name : string;
  c_region : string;
  c_nation : string;
  c_pacts : Z;
  c_pupils : Z;
  c_pact_pct : pynum;
  c_postcode : string;
  c_address : string;
  c_lat : pynum;
  c_lng : pynum;
  c_low_age : Z;
  c_high_age : Z
}.

Definition csv_row_of (s : school) : option csv_row :=
  pct ← s_pact_pct s;
  Some {| c_school_id := s_id s; c_name := s_name s; c_region := s_region s;
          c_nation := nation_of (s_id s); c_pacts := s_pacts s;
          c_pupils := s_pupils s; c_pact_pct := pct;
          c_postcode := s_postcode s; c_address := s_address s;
          c_lat := s_lat s; c_lng := s_lng s;
          c_low_age := s_low_age s; c_high_age := s_high_age s |}.

(** The rows written by [export_csv], in order; [None] stands for the
    [KeyError] of a school without [pact_pct]. *)
Definition export_csv (schools : list school) : option (list csv_row) :=
  mapM csv_row_of schools.

(** ** Step 5: the figures that [generate_html] computes for the page *)

(** [sorted(l, key=key)]: the keys are computed first, the sort is stable
    and compares keys with [<] only.  An element is put before the first
    one that is not smaller than it, so equal keys keep their order. *)
Fixpoint insert_by_key {A K : Type} (lt : K -> K -> bool) (key : A -> K)
    (x : A) (l : list A) : list A :=
  match l with
  | [] => [x]
  | y :: l' =>
      if lt (key y) (key x) then y :: insert_by_key lt key x l' else x :: l
  end.

Definition py_sorted {A K : Type} (lt : K -> K -> bool) (key : A -> K)
    (l : list A) : list A :=
  fold_right (insert_by_key lt key) [] l.

(** [-v]. *)
Definition py_neg (v : pynum) : pynum :=
  match v with
  | PyInt z => PyInt (- z)
  | PyFloat x => PyFloat (SFopp x)
  end.

(** [sorted(schools, key=lambda s: -s["pacts"])[:20]]. *)
Definition top_by_pacts (schools : list school) : list school :=
  take 20 (py_sorted Z.ltb (fun s => - s_pacts s) schools).

(** [sorted([s for s in schools if s["pupils"] >= 10],
            key=lambda s: -s["pact_pct"])[:20]]. *)
Definition top_by_pct (schools : list school) : option (list school) :=
  keyed ← mapM (fun s => p ← s_pact_pct s; Some (py_neg p, s))
             (List.filter (fun s => 10 <=? s_pupils s) schools);
  Some (take 20 (map snd (py_sorted py_lt fst keyed))).

(* ===================================================================== *)
(** * Definitions used to state the properties                            *)
(* ===================================================================== *)

(** ** Percentages *)

(** A float that is [+0.0], positive and finite, or [+inf]. *)
Definition float_nonneg (x : spec_float) : Prop :=
  match x with
  | S754_zero false | S754_finite false _ _ | S754_infinity false => True
  | _ => False
  end.

(** The float [k / 10] has an exact value between 0 and 100. *)
Definition tenth_in_range (k : positive) : bool :=
  match float_value (SFdiv prec emax (S754_finite false k 0) (int_exact 10)) with
  | Some r => Qle_bool 0 r && Qle_bool r 100
  | None => false
  end.

(** A number with an exact value between 0 and 100. *)
Definition in_percent_range (v : pynum) : Prop :=
  exists r, pynum_value v = Some r /\ (0 <= r <= 100)%Q.

(** The expression that the three levels share, as the code evaluates it
    on binary64 floats; the proofs factor it out of [school_metric],
    [region_metric] and [annotate]. *)
Definition engagement_pct (pact_count pupil_count : Z) : res pynum :=
  if pupil_count >? 0 then
    q ← int_truediv pact_count pupil_count;
    mret (py_round (py_min (PyFloat (float_mul_int q 100)) (PyInt 100)) 1)
  else mret (PyInt 0).

(** The percentage of the contract in exact arithmetic, in the words of
    the specification: [min(pact_count / pupil_count * 100, 100)]. *)
Definition exact_pct (pact_count pupil_count : Z) : Q :=
  Qmin (inject_Z pact_count / inject_Z pupil_count * 100) 100.

(** How far the stored tenths can be from the exact percentage: half a
    tenth for the rounding to one decimal, and [10 ^ -13] for the two
    binary64 roundings before it. *)
Definition pct_tolerance : Q := ((1 # 20) + (1 # 10000000000000))%Q.

(** The distance from the exact percentage below which a tenth is sure to
    be the one stored. *)
Definition pct_margin : Q := ((1 # 20) - (1 # 10000000000000))%Q.

(** [N / D] lies at the location [l] above the integer [m]: on [m], in the
    lower half of the unit above it, on the middle, or in the upper half. *)
Definition located (m : Z) (l : location) (N D : Z) : Prop :=
  match l with
  | loc_Exact => N = m * D
  | loc_Inexact Lt => m * D < N /\ 2 * N < (2 * m + 1) * D
  | loc_Inexact Eq => 2 * N = (2 * m + 1) * D
  | loc_Inexact Gt => (2 * m + 1) * D < 2 * N /\ N < (m + 1) * D
  end.

(** [2 ^ e] as a rational. *)
Definition bpow (e : Z) : Q := ((2 # 1) ^ e)%Q.

(** The unit roundoff of binary64, [2 ^ -53]. *)
Definition u53 : Q := (1 # 9007199254740992)%Q.

(** Carries an inequality between integers over to the rationals. *)
Ltac inject_in H :=
  unfold Z.sub in H;
  repeat (rewrite inject_Z_plus in H || rewrite inject_Z_opp in H
          || rewrite inject_Z_mult in H).

(** Rounding half-up, in the words of the specification: the integer
    nearest to [num / den], a tie going to the larger one. *)
Definition div_half_up (num den : Z) : Z :=
  let q := num / den in
  let r := num mod den in
  if 2 * r <? den then q else q + 1.

Definition float_round_half_up (x : spec_float) (ndigits : nat) : spec_float :=
  match x with
  | S754_finite s m e =>
      let p := 10 ^ Z.of_nat ndigits in
      let n := if 0 <=? e then Zpos m * 2 ^ e * p
               else div_half_up (Zpos m * p) (2 ^ (- e)) in
      match n with
      | Zpos k => SFdiv prec emax (S754_finite s k 0) (int_exact p)
      | _ => S754_zero s
      end
  | _ => x
  end.

Definition py_round_half_up (v : pynum) (ndigits : nat) : pynum :=
  match v with
  | PyInt z => PyInt z
  | PyFloat x => PyFloat (float_round_half_up x ndigits)
  end.

(** The engagement percentage with half-up rounding to one decimal. *)
Definition engagement_pct_half_up (pact_count pupil_count : Z) : res pynum :=
  if pupil_count >? 0 then
    q ← int_truediv pact_count pupil_count;
    mret (py_round_half_up
            (py_min (PyFloat (float_mul_int q 100)) (PyInt 100)) 1)
  else mret (PyInt 0).

(** ** The geocoder and the cache file *)

(** The cache key that [apply_item] writes for an item. *)
Definition item_key (item : api_item) : string :=
  remove_spaces (py_upper (default "" (query item))).

(** The service answers only about the postcodes it was sent: the query of
    every item in an answer is one of the strings of the batch. *)
Definition api_echoes (api : list string -> batch_outcome) : Prop :=
  forall batch item,
    In item (outcome_items (api batch)) ->
    exists pc, In pc batch /\ query item = Some pc.

(** What the geocoder returns for one school, given the final cache: the
    school with the cached pair, unless there is none or its latitude is
    zero. *)
Definition geocoded (cached : cache) (s : school) : option school :=
  match cached !! normalize_postcode (s_postcode s) with
  | Some (la, lo) => if py_ne_zero la then Some (with_coords s la lo) else None
  | None => None
  end.

(** The text that a list of chunks writes. *)
Definition join_chunks (chunks : list string) : string :=
  fold_right String.append EmptyString chunks.

(** The states of the cache file that a crash can leave behind while the
    cache is being written: the state after each prefix of the steps. *)
Definition crash_states (disk : option string) (chunks : list string)
    : list (option string) :=
  map (fun k => io_run (take k (dump_steps chunks)) disk)
      (seq 0 (S (length (dump_steps chunks)))).

(** ** The parsed dataset and the sums over a region *)

(** The value of a string of decimal digits. *)
Definition int_value (s : string) : Z := int_of_digits 0 s.

(** The school that the extraction builds from a match, when all its
    conversions return. *)
Definition match_school (region_name : string) (m : school_match) : school :=
  {| s_id := g_school_id m;
     s_name := unescape (g_school_name m);
     s_pacts := int_value (g_pacts m);
     s_pupils := if String.eqb (g_pupils m) "" then 0 else int_value (g_pupils m);
     s_postcode := g_postcode m;
     s_address := unescape (g_address m);
     s_high_age := int_value (g_high_age m);
     s_low_age := int_value (g_low_age m);
     s_lat := float_zero;
     s_lng := float_zero;
     s_region := region_name;
     s_pact_pct := None |}.

(** The schools of one span and of the whole bundle, before geocoding. *)
Definition span_schools (sp : region_span) : list school :=
  map (match_school (rs_name sp)) (rs_matches sp).

Definition parsed_schools (spans : list region_span) : list school :=
  concat (map span_schools spans).

(** The entry of [region_data] for one span. *)
Definition span_info (sp : region_span) : region_info :=
  {| ri_pacts := int_value (rs_pacts sp);
     ri_school_pacts := zsum (map s_pacts (span_schools sp));
     ri_pupils := zsum (map s_pupils (span_schools sp));
     ri_school_count := Z.of_nat (length (rs_matches sp)) |}.

Definition in_region (r : string) (s : school) : bool :=
  String.eqb r (s_region s).

Definition region_pacts (schools : list school) (r : string) : Z :=
  zsum (map s_pacts (List.filter (in_region r) schools)).

Definition region_pupils (schools : list school) (r : string) : Z :=
  zsum (map s_pupils (List.filter (in_region r) schools)).

Definition region_count (schools : list school) (r : string) : Z :=
  Z.of_nat (length (List.filter (in_region r) schools)).

(** The counts of the schools are non-negative, as [\d+] captures them. *)
Definition counts_nonneg (schools : list school) : Prop :=
  Forall (fun s => 0 <= s_pacts s /\ 0 <= s_pupils s) schools.

(** ** The mapping steps, as seen from one county *)

Definition str_mem (k : string) (l : list string) : bool :=
  existsb (String.eqb k) l.

(** What the four dicts hold for a county. *)
Definition county_entry (st : county_state) (k : string)
    : option Z * option Z * option Z * option string :=
  (county_pacts st !! k, county_pupils st !! k, county_schools st !! k,
   county_labels st !! k).

(** The guard [pacts > 0 or sc > 0] of a national region. *)
Definition national_active (agg : list (string * region_rec)) (n : string) : bool :=
  (agg_get r_pacts agg n >? 0) || (agg_get r_school_count agg n >? 0).

(** The guard [total_pacts > 0 or total_schools > 0] of a merge rule. *)
Definition merge_active (agg : list (string * region_rec)) (names : list string)
    : bool :=
  (zsum (map (agg_get r_pacts agg) names) >? 0)
  || (zsum (map (agg_get r_school_count agg) names) >? 0).

(** The region names that the tables claim. *)
Definition merge_sources : list string := concat (map snd MERGE_MAP).
Definition national_names : list string := map fst NATIONAL_REGIONS.
Definition claimed_names : list string :=
  merge_sources ++ national_names ++ OMITTED.

(** Two aggregates that agree on names and counts (not on [pact_pct]). *)
Definition same_counts (agg agg' : list (string * region_rec)) : Prop :=
  Forall2 (fun x y => fst y = fst x /\
                      r_pacts (snd y) = r_pacts (snd x) /\
                      r_pupils (snd y) = r_pupils (snd x) /\
                      r_school_count (snd y) = r_school_count (snd x))
          agg agg'.

(** The test under which the direct-match loop prints its warning for an
    entry of [region_agg]. *)
Definition direct_warns (st : county_state) (names : list pyval)
    (item : string * region_rec) : bool :=
  negb (bool_decide (fst item ∈ already_mapped st))
  && negb (str_in (rename_target (fst item)) names)
  && negb (in_omitted (fst item)).

(** The state after the merge, national and omitted steps. *)
Definition claimed_state (agg : list (string * region_rec)) : county_state :=
  claim_omitted
    (fold_left (national_step agg) NATIONAL_REGIONS
       (fold_left (merge_step agg) MERGE_MAP empty_state)).

(** A region name that no table claims. *)
Definition unclaimed (n : string) : bool := negb (str_mem n claimed_names).

(** An entry whose counts are non-negative, the pact count at most [B]. *)
Definition entry_ok (B : Z) (e : option Z * option Z * option Z * option string)
    : Prop :=
  let '(p, u, c, _) := e in
  (forall v, p = Some v -> 0 <= v <= B) /\
  (forall v, u = Some v -> 0 <= v) /\
  (forall v, c = Some v -> 0 <= v).

Definition state_ok (B : Z) (st : county_state) : Prop :=
  forall k, entry_ok B (county_entry st k).

(** An aggregate whose counts are non-negative, the pact counts at most
    [B]. *)
Definition agg_ok (B : Z) (agg : list (string * region_rec)) : Prop :=
  Forall (fun item => 0 <= r_pacts (snd item) <= B /\
                      0 <= r_pupils (snd item) /\
                      0 <= r_school_count (snd item)) agg.

(** The regions of a merge rule that contribute a positive pact count. *)
Definition contributors (schools : list school) (names : list string)
    : list string :=
  List.filter (fun n => region_pacts schools n >? 0) names.

(** The label of a merge target as the code writes it: each contributor
    with the pact sum of its schools. *)
Definition derived_label (schools : list school) (names : list string) : string :=
  py_join " + "
    (map (fun n => n +:+ ": " +:+ format_thousands (region_pacts schools n))
         (contributors schools names)).

(** The label in the words of the specification: each contributor with
    its declared total. *)
Definition declared_label (region_data : gmap string region_info)
    (schools : list school) (names : list string) : string :=
  py_join " + "
    (map (fun n => n +:+ ": " +:+
                   format_thousands (default 0 (ri_pacts <$> region_data !! n)))
         (contributors schools names)).

(* ===================================================================== *)
(** * Sample inputs                                                       *)
(* ===================================================================== *)

(** ** Numbers, schools and features *)

(** The float written as the decimal literal [n / 10 ^ places]. *)
Definition decimal (n : Z) (places : nat) : pynum :=
  PyFloat (SFdiv prec emax (int_exact n) (int_exact (10 ^ Z.of_nat places))).

(** The value stored for [k] tenths: the float written [k / 10], or the
    int 100 that [min] hands over when the product exceeds 100. *)
Definition stored_tenths (v : pynum) (k : Z) : Prop :=
  v = decimal k 1 \/ (v = PyInt 100 /\ k = 1000).

(** The double quote of a JSON text. *)
Definition dq : string := String (ascii_of_nat 34) EmptyString.

(** A school with the given counts, as the extraction loop builds it. *)
Definition sample_school (id region postcode : string) (pacts pupils : Z) : school :=
  {| s_id := id; s_name := "School " +:+ id; s_pacts := pacts;
     s_pupils := pupils; s_postcode := postcode; s_address := "1 High Street";
     s_high_age := 11; s_low_age := 4; s_lat := float_zero; s_lng := float_zero;
     s_region := region; s_pact_pct := None |}.

Definition school_a : school := sample_school "england/1" "Kent" "ab1 2cd" 10 100.
Definition school_z : school := sample_school "england/2" "Kent" "ZZ9 9ZZ" 15 200.

Definition sample_match (id postcode pacts pupils : string) : school_match :=
  {| g_address := "1 High Street"; g_high_age := "11"; g_low_age := "4";
     g_pacts := pacts; g_postcode := postcode; g_pupils := pupils;
     g_school_id := id; g_school_name := "School" |}.

Definition named_feature (name : string) : feature :=
  {| properties := {[ "name" := VStr name ]} |}.

(** A feature that carries neither a [county] nor a [name] property. *)
Definition unnamed_feature : feature :=
  {| properties := {[ "id" := VNum (PyInt 7) ]} |}.

(** The fields that a feature of the output shows. *)
Definition shown_pacts (f : feature) : option pyval := properties f !! "pacts".
Definition shown_pupils (f : feature) : option pyval := properties f !! "pupils".
Definition shown_label (f : feature) : option pyval := properties f !! "label".

(** ** Cache files and services *)

Definition coords (la lo : pynum) : option api_coords :=
  Some {| latitude := Some la; longitude := Some lo |}.

(** A cache file with one entry, and the dict it holds. *)
Definition sample_cache : cache :=
  {[ "AB12CD" := (decimal 515 1, decimal 5 1) ]}.

Definition sample_cache_text : string :=
  "{" +:+ dq +:+ "AB12CD" +:+ dq +:+ ":[51.5,0.5]}".

(** The same file once [ZZ99ZZ] has been added. *)
Definition sample_new_text : string :=
  "{" +:+ dq +:+ "AB12CD" +:+ dq +:+ ":[51.5,0.5]," +:+
  dq +:+ "ZZ99ZZ" +:+ dq +:+ ":[52.1,-1.2]}".

(** [json.load] on the sample file. *)
Definition sample_json_load (text : string) : res cache :=
  if String.eqb text sample_cache_text then Ok sample_cache
  else Raise JSONDecodeError.

(** An encoder that writes the given text, in one chunk. *)
Definition encode_as (text : string) (c : cache) : list string := [text].

(** A service that knows [ZZ99ZZ] and answers [null] for the rest. *)
Definition sample_api (batch : list string) : batch_outcome :=
  Answered
    (map (fun pc => {| query := Some pc;
                       result := if String.eqb pc "ZZ99ZZ"
                                 then coords (decimal 521 1) (decimal (-12) 1)
                                 else None |}) batch).

(** A service that does not know any postcode. *)
Definition null_api (batch : list string) : batch_outcome :=
  Answered (map (fun pc => {| query := Some pc; result := None |}) batch).

(** A service whose answer for [ZZ99ZZ] has the latitude 0.000001. *)
Definition tiny_latitude_api (batch : list string) : batch_outcome :=
  Answered
    (map (fun pc => {| query := Some pc;
                       result := coords (decimal 1 6) (decimal (-15) 1) |}) batch).

(** The cache file written after that answer. *)
Definition tiny_latitude_text : string :=
  "{" +:+ dq +:+ "ZZ99ZZ" +:+ dq +:+ ":[0.0,-1.5]}".

(** A service that resolves every postcode to a point on the Greenwich
    meridian: latitude 51.5, longitude 0.0. *)
Definition meridian_api (batch : list string) : batch_outcome :=
  Answered
    (map (fun pc => {| query := Some pc;
                       result := coords (decimal 515 1) (PyFloat (S754_zero false)) |})
         batch).

(** A service whose answer is about a postcode that was not asked for. *)
Definition stray_api (batch : list string) : batch_outcome :=
  Answered [ {| query := Some "AB12CD";
                result := coords (decimal 100 1) (decimal 200 1) |} ].

(** A service that resolves every postcode to the same place. *)
Definition answer_all_api (batch : list string) : batch_outcome :=
  Answered
    (map (fun pc => {| query := Some pc;
                       result := coords (decimal 515 1) (decimal (-32) 1) |})
         batch).

(** ** Bundles and runs *)

(** A bundle with the region Kent: declared total 50, a school with 10
    pacts at a cached postcode and one with 15 at an unknown postcode. *)
Definition kent_span : region_span :=
  {| rs_name := "Kent"; rs_pacts := "50";
     rs_matches := [ sample_match "england/1" "ab1 2cd" "10" "100";
                     sample_match "england/2" "ZZ9 9ZZ" "15" "200" ] |}.

Definition kent_spans : list region_span := [ kent_span ].

(** The sample run on the Kent bundle: AB12CD is cached, the service does
    not know ZZ99ZZ. *)
Definition kent_run : res run_output :=
  main sample_json_load (encode_as sample_cache_text) null_api kent_spans
    (Some sample_cache_text) [named_feature "Kent"].

Definition kent_output : run_output :=
  match kent_run with
  | Ok out => out
  | Raise _ => mkOutput [] ∅ [] [] None
  end.

(** A bundle with the region Wales: declared total 200, two schools with
    100 and 50 pacts. *)
Definition wales_spans : list region_span :=
  [ {| rs_name := "Wales"; rs_pacts := "200";
       rs_matches := [ sample_match "wales/1" "CF10 1AA" "100" "400";
                       sample_match "wales/2" "SA1 1AA" "50" "300" ] |} ].

Definition wales_cache_text : string :=
  "{" +:+ dq +:+ "CF101AA" +:+ dq +:+ ":[51.5,-3.2]," +:+
  dq +:+ "SA11AA" +:+ dq +:+ ":[51.5,-3.2]}".

Definition wales_counties : list string :=
  [ "Clwyd"; "Dyfed"; "Gwent"; "Gwynedd"; "Mid Glamorgan"; "Powys";
    "South Glamorgan"; "West Glamorgan" ].

Definition wales_geojson : list feature := map named_feature wales_counties.

Definition wales_schools : list school :=
  [ sample_school "wales/1" "Wales" "CF10 1AA" 100 400;
    sample_school "wales/2" "Wales" "SA1 1AA" 50 300 ].

(** The aggregation of the two schools of Wales, as if both had
    geocoded. *)
Definition wales_result : list feature * list string :=
  match build_county_data wales_schools ∅ wales_geojson with
  | Ok x => x
  | Raise _ => ([], [])
  end.

(** A bundle with the two regions merged into Somerset. *)
Definition somerset_spans : list region_span :=
  [ {| rs_name := "Somerset"; rs_pacts := "500";
       rs_matches := [ sample_match "england/1" "TA1 1AA" "15" "400" ] |};
    {| rs_name := "Somerset, Bath"; rs_pacts := "300";
       rs_matches := [ sample_match "england/2" "BA1 1AA" "5" "300" ] |} ].

Definition somerset_cache_text : string :=
  "{" +:+ dq +:+ "BA11AA" +:+ dq +:+ ":[51.5,-3.2]," +:+
  dq +:+ "TA11AA" +:+ dq +:+ ":[51.5,-3.2]}".

Definition somerset_schools : list school :=
  [ sample_school "england/1" "Somerset" "TA1 1AA" 15 400;
    sample_school "england/2" "Somerset, Bath" "BA1 1AA" 5 300 ].

Definition somerset_result : county_state * list string :=
  match assign_counties somerset_schools [named_feature "Somerset"] with
  | Ok x => x
  | Raise _ => (empty_state, [])
  end.

(** A bundle with one region that is in no table and on no boundary; its
    one school has a postcode the service does not know. *)
Definition atlantis_spans : list region_span :=
  [ {| rs_name := "Atlantis"; rs_pacts := "5";
       rs_matches := [ sample_match "england/9" "ZZ9 9ZZ" "5" "50" ] |} ].

Definition atlantis_schools : list school :=
  [ sample_school "england/9" "Atlantis" "ZZ9 9ZZ" 5 50 ].

Definition atlantis_result : county_state * list string :=
  match assign_counties atlantis_schools [named_feature "Kent"] with
  | Ok x => x
  | Raise _ => (empty_state, [])
  end.

(* ===================================================================== *)
(** * Further definitions used to state properties                        *)
(* ===================================================================== *)

(** ** The bundle *)

(** The numeric groups of a match are strings of decimal digits, as the
    patterns [\d+] and [\d*] capture them. *)
Definition match_digits (m : school_match) : bool :=
  all_digits (g_pacts m) && all_digits (g_pupils m)
  && all_digits (g_high_age m) && all_digits (g_low_age m).

Definition span_digits (sp : region_span) : bool :=
  all_digits (rs_pacts sp) && forallb match_digits (rs_matches sp).

Definition bundle_digits (spans : list region_span) : bool :=
  forallb span_digits spans.

(** A group that [int] converts: between 1 and 4300 decimal digits. *)
Definition convertible (s : string) : bool :=
  negb (String.eqb s "") && all_digits s
  && (String.length s <=? int_max_str_digits)%nat.

(** A match whose four conversions return; an empty pupils group is not
    converted. *)
Definition match_convertible (m : school_match) : bool :=
  (String.eqb (g_pupils m) "" || convertible (g_pupils m))
  && convertible (g_pacts m)
  && convertible (g_high_age m) && convertible (g_low_age m).

Definition span_convertible (sp : region_span) : bool :=
  convertible (rs_pacts sp) && forallb match_convertible (rs_matches sp).

Definition bundle_convertible (spans : list region_span) : bool :=
  forallb span_convertible spans.

(** [region_data] as the extraction leaves it: for each name the entry of
    the last span with that name. *)
Definition region_data_of (spans : list region_span) : gmap string region_info :=
  fold_left (fun d sp => <[rs_name sp := span_info sp]> d) spans ∅.



(** A text without a backslash. *)
Fixpoint no_backslash (s : string) : bool :=
  match s with
  | EmptyString => true
  | String c s' => negb (Ascii.eqb c "\") && no_backslash s'
  end.

(** A bundle in which the header of Kent occurs twice: first with two
    schools, then with none. *)
Definition twice_kent_spans : list region_span :=
  [ kent_span; {| rs_name := "Kent"; rs_pacts := "7"; rs_matches := [] |} ].

(** ** The distribution of the percentages *)

Definition band_names : list string :=
  [ "0%"; "1-10%"; "11-25%"; "26-50%"; "51-75%"; "76-100%" ].

(** The sum of the six counters. *)
Definition band_total (bands : gmap string Z) : Z :=
  zsum (map (fun k => default 0 (bands !! k)) band_names).

(** The two sample schools with their percentages. *)
Definition sample_scored : list school :=
  match calculate_metrics [school_a; school_z] with
  | Ok l => l
  | Raise _ => []
  end.

(** A school with more pacts than a float can hold. *)
Definition huge_school : school :=
  sample_school "england/9" "Kent" "ZZ9 9ZZ" (2 ^ 1024) 1.

(* ===================================================================== *)
(** * Part II. Properties                                                 *)
(* ===================================================================== *)

(** ** Binary64 arithmetic on non-negative operands *)

Lemma iter_pos_invariant {A : Type} (P : A -> Prop) (f : A -> A) :
  (forall x, P x -> P (f x)) ->
  forall n x, P x -> P (SpecFloat.iter_pos f n x).
Proof.
  intros Hf n. induction n as [n IH | n IH | ]; simpl; intros x Hx; auto.
Qed.

Lemma shr_1_nonneg mrs : 0 <= shr_m mrs -> 0 <= shr_m (shr_1 mrs).
Proof.
  destruct mrs as [m r s]. simpl.
  destruct m as [ | [p | p | ] | [p | p | ] ]; simpl; lia.
Qed.

Lemma shr_nonneg mrs e n :
  0 <= shr_m mrs -> 0 <= shr_m (fst (shr mrs e n)).
Proof.
  intros H. unfold shr. destruct n; simpl; auto.
  apply (iter_pos_invariant (fun r => 0 <= shr_m r)); auto using shr_1_nonneg.
Qed.

Lemma shr_record_of_loc_m m l : shr_m (shr_record_of_loc m l) = m.
Proof. destruct l as [ | [ | | ] ]; reflexivity. Qed.

Lemma shr_fexp_nonneg m e l :
  0 <= m -> 0 <= shr_m (fst (shr_fexp prec emax m e l)).
Proof.
  intros H. unfold shr_fexp. apply shr_nonneg.
  now rewrite shr_record_of_loc_m.
Qed.

Lemma round_nearest_even_nonneg m l : 0 <= m -> 0 <= round_nearest_even m l.
Proof.
  intros H. unfold round_nearest_even.
  destruct l as [ | [ | | ] ]; try destruct (Z.even m); lia.
Qed.

Lemma binary_round_aux_nonneg mx ex lx :
  0 <= mx -> float_nonneg (binary_round_aux prec emax false mx ex lx).
Proof.
  intros H. unfold binary_round_aux.
  pose proof (shr_fexp_nonneg mx ex lx H) as H1.
  destruct (shr_fexp prec emax mx ex lx) as [mrs' e'] eqn:E1. simpl in H1.
  pose proof (shr_fexp_nonneg _ e' loc_Exact
                (round_nearest_even_nonneg _ (loc_of_shr_record mrs') H1)) as H2.
  destruct (shr_fexp prec emax (round_nearest_even _ _) e' loc_Exact)
    as [mrs'' e''] eqn:E2.
  simpl in H2.
  destruct (shr_m mrs'') as [ | p | p ]; simpl; auto; try lia.
  destruct (e'' <=? emax - prec); simpl; auto.
Qed.

Lemma SFdiv_core_nonneg a b :
  0 <= fst (fst (SFdiv_core_binary prec emax (Zpos a) 0 (Zpos b) 0)).
Proof.
  unfold SFdiv_core_binary.
  set (e' := Z.min _ _). set (m' := match 0 - 0 - e' with 0 => _ | _ => _ end).
  assert (Hm : 0 <= m').
  { subst m'. destruct (0 - 0 - e'); try lia. apply Z.shiftl_nonneg. lia. }
  pose proof (Z_div_mod m' (Zpos b) ltac:(lia)) as Hd.
  destruct (Z.div_eucl m' (Zpos b)) as [q r]. simpl.
  destruct Hd as [Hd1 Hd2]. nia.
Qed.

Lemma SFdiv_ints_nonneg a b :
  0 <= a -> 0 < b -> float_nonneg (SFdiv prec emax (int_exact a) (int_exact b)).
Proof.
  intros Ha Hb. destruct b as [ | b | b ]; try lia.
  destruct a as [ | a | a ]; try lia; simpl; auto.
  pose proof (SFdiv_core_nonneg a b) as H.
  destruct (SFdiv_core_binary prec emax (Zpos a) 0 (Zpos b) 0) as [[q e] l].
  simpl in H. now apply binary_round_aux_nonneg.
Qed.

Lemma float_mul_100_nonneg x :
  float_nonneg x -> float_nonneg (float_mul_int x 100).
Proof.
  unfold float_mul_int.
  change (float_of_int 100) with (S754_finite false 7036874417766400 (-46)).
  destruct x as [ [ | ] | [ | ] | | [ | ] m e ]; simpl; auto; try contradiction.
  intros _. apply binary_round_aux_nonneg. lia.
Qed.

(** [div_half_even] stays below an integer bound on the quotient. *)
Lemma div_half_even_bounds num den k :
  0 <= num -> 0 < den -> num <= k * den ->
  0 <= div_half_even num den <= k.
Proof.
  intros Hn Hd Hk. unfold div_half_even.
  pose proof (Z.div_mod num den ltac:(lia)) as Hdm.
  pose proof (Z.mod_pos_bound num den Hd) as Hr.
  assert (Hq0 : 0 <= num / den) by (apply Z.div_pos; lia).
  assert (Hqk : num / den <= k).
  { apply Z.div_le_upper_bound; lia. }
  destruct (Z.eq_dec (num / den) k) as [Heq | Hne].
  - assert (Hr0 : num mod den = 0) by nia.
    rewrite Hr0. change (2 * 0) with 0.
    destruct (Z.compare_spec 0 den) as [C | C | C]; lia.
  - destruct (2 * (num mod den) ?= den); try destruct (Z.even _); lia.
Qed.

Lemma tenths_table :
  forallb (fun k => tenth_in_range (Pos.of_nat k)) (seq 1 1000) = true.
Proof. vm_compute. reflexivity. Qed.

Lemma tenth_in_range_ok k : (Zpos k <= 1000) -> tenth_in_range k = true.
Proof.
  intros Hk. pose proof tenths_table as T.
  rewrite forallb_forall in T.
  specialize (T (Pos.to_nat k)). rewrite Pos2Nat.id in T. apply T.
  apply in_seq. lia.
Qed.

Lemma float_round_1_range x :
  float_nonneg x -> int_lt_float 100 x = false ->
  in_percent_range (PyFloat (float_round x 1)).
Proof.
  destruct x as [ [ | ] | [ | ] | | [ | ] m e ]; intros Hnn Hlt;
    simpl in Hnn, Hlt; try contradiction; try discriminate.
  - exists 0%Q. split; [reflexivity | ]. split; discriminate.
  - unfold float_round. change (323 <? 1)%nat with false. cbv iota.
    change (10 ^ Z.of_nat 1) with 10.
    set (n := if 0 <=? e then _ else _).
    assert (Hn : 0 <= n <= 1000).
    { subst n. destruct (0 <=? e) eqn:He.
      - apply Z.ltb_ge in Hlt. apply Z.leb_le in He.
        assert (0 < 2 ^ e) by (apply Z.pow_pos_nonneg; lia).
        nia.
      - apply Z.ltb_ge in Hlt. apply Z.leb_gt in He.
        assert (0 < 2 ^ (- e)) by (apply Z.pow_pos_nonneg; lia).
        apply div_half_even_bounds; lia. }
    destruct n as [ | k | k ]; try lia.
    + exists 0%Q. split; [reflexivity | ]. split; discriminate.
    + pose proof (tenth_in_range_ok k ltac:(lia)) as T.
      unfold tenth_in_range in T. unfold in_percent_range, pynum_value.
      destruct (float_value _) as [r | ]; [ | discriminate].
      apply andb_true_iff in T. destruct T as [T1 T2].
      apply Qle_bool_iff in T1, T2. exists r. auto.
Qed.

(** The clamped and rounded percentage lies between 0 and 100. *)
Lemma clamp_round_range q :
  float_nonneg q ->
  in_percent_range
    (py_round (py_min (PyFloat (float_mul_int q 100)) (PyInt 100)) 1).
Proof.
  intros Hq. apply float_mul_100_nonneg in Hq.
  unfold py_min. simpl py_lt.
  destruct (int_lt_float 100 (float_mul_int q 100)) eqn:Hlt.
  - exists 100%Q. split; [reflexivity | ]. split; discriminate.
  - simpl py_round. now apply float_round_1_range.
Qed.

Lemma int_truediv_nonneg a b q :
  0 <= a -> 0 < b -> int_truediv a b = Ok q -> float_nonneg q.
Proof.
  intros Ha Hb. unfold int_truediv.
  destruct (b =? 0) eqn:E; [discriminate | ].
  pose proof (SFdiv_ints_nonneg a b Ha Hb) as H.
  destruct (SFdiv prec emax (int_exact a) (int_exact b)); inversion 1; subst; auto.
Qed.

(** ** No overflow below [2 ^ 1023] *)

Lemma digits2_pos_size p : digits2_pos p = Pos.size p.
Proof. induction p; simpl; congruence. Qed.

Lemma Zdigits2_nonneg m : 0 <= Zdigits2 m.
Proof. destruct m; simpl; lia. Qed.

Lemma Zdigits2_gt m : 0 <= m -> m < 2 ^ Zdigits2 m.
Proof.
  destruct m as [ | p | p ]; simpl Zdigits2; try lia. intros _.
  rewrite digits2_pos_size. pose proof (Pos.size_gt p) as H.
  apply Pos2Z.pos_lt_pos in H. now rewrite Pos2Z.inj_pow in H.
Qed.

Lemma Zdigits2_le m k : 0 <= k -> 0 <= m < 2 ^ k -> Zdigits2 m <= k.
Proof.
  intros Hk [H0 Hm]. destruct m as [ | p | p ]; simpl Zdigits2; try lia.
  rewrite digits2_pos_size. pose proof (Pos.size_le p) as H.
  apply Pos2Z.pos_le_pos in H. rewrite Pos2Z.inj_pow in H.
  destruct (Z_lt_le_dec k (Zpos (Pos.size p))) as [Hlt | Hle]; [ | lia].
  exfalso.
  assert (H2 : 2 ^ Z.succ k <= 2 ^ Zpos (Pos.size p))
    by (apply Z.pow_le_mono_r; lia).
  rewrite Z.pow_succ_r in H2 by lia.
  change ((2 * 1) ^ Zpos (Pos.size p)) with (2 ^ Zpos (Pos.size p)) in H. lia.
Qed.

Lemma iter_pos_count {A : Type} (P : Z -> A -> Prop) (f : A -> A) :
  (forall k x, P k x -> P (k + 1) (f x)) ->
  forall n k k' x, k' = k + Zpos n -> P k x -> P k' (SpecFloat.iter_pos f n x).
Proof.
  intros Hf n. induction n as [n IH | n IH | ]; simpl; intros k k' x -> Hx.
  - apply (IH (k + 1 + Zpos n)); [lia | ].
    apply (IH (k + 1)); [lia | ]. auto.
  - apply (IH (k + Zpos n)); [lia | ].
    apply (IH k); [lia | ]. auto.
  - auto.
Qed.

Lemma shr_1_half mrs : 0 <= shr_m mrs -> 2 * shr_m (shr_1 mrs) <= shr_m mrs.
Proof.
  destruct mrs as [m r s]. simpl.
  destruct m as [ | [p | p | ] | [p | p | ] ]; simpl; lia.
Qed.

(** Shifting right by [n] digits divides the mantissa by [2 ^ n]. *)
Lemma shr_scaled mrs e n :
  0 <= shr_m mrs -> 0 < n ->
  0 <= shr_m (fst (shr mrs e n)) /\
  shr_m (fst (shr mrs e n)) * 2 ^ n <= shr_m mrs /\
  snd (shr mrs e n) = e + n.
Proof.
  intros Hm Hn. destruct n as [ | p | p ]; try lia. simpl.
  assert (H : 0 <= 0 + Zpos p /\
              0 <= shr_m (SpecFloat.iter_pos shr_1 p mrs) /\
              shr_m (SpecFloat.iter_pos shr_1 p mrs) * 2 ^ (0 + Zpos p)
                <= shr_m mrs).
  { apply (iter_pos_count
             (fun k x => 0 <= k /\ 0 <= shr_m x /\ shr_m x * 2 ^ k <= shr_m mrs)
             shr_1) with (k := 0); try lia.
    intros k x (Hk & IH1 & IH2).
    pose proof (shr_1_half x IH1). pose proof (shr_1_nonneg x IH1).
    assert (0 < 2 ^ k) by (apply Z.pow_pos_nonneg; lia).
    replace (k + 1) with (Z.succ k) by lia.
    rewrite Z.pow_succ_r by lia. split; [lia | ]. split; [lia | nia]. }
  simpl (0 + Zpos p) in H. tauto.
Qed.

Lemma fexp_eq x : fexp prec emax x = Z.max (x - 53) (-1074).
Proof. reflexivity. Qed.

(** Rounding a mantissa whose value has at most 1023 binary digits does
    not reach infinity. *)
Lemma binary_round_aux_finite s mx ex lx :
  0 <= mx -> Zdigits2 mx + ex <= 1023 -> ex <= 971 ->
  forall s', binary_round_aux prec emax s mx ex lx <> S754_infinity s'.
Proof.
  intros Hm Hd He s'. unfold binary_round_aux.
  (* first shift *)
  assert (H1 : exists m1 e1,
             shr_fexp prec emax mx ex lx = (m1, e1) /\
             0 <= shr_m m1 /\ e1 <= 971 /\
             Zdigits2 (shr_m m1 + 1) + e1 <= 1024).
  { unfold shr_fexp. rewrite fexp_eq.
    set (n := Z.max (Zdigits2 mx + ex - 53) (-1074) - ex).
    pose proof (Zdigits2_gt mx Hm) as Hgt.
    pose proof (Zdigits2_nonneg mx) as Hdn.
    destruct (Z_lt_le_dec 0 n) as [Hn | Hn].
    - pose proof (shr_scaled (shr_record_of_loc mx lx) ex n) as Hs.
      rewrite shr_record_of_loc_m in Hs. specialize (Hs Hm Hn).
      destruct (shr (shr_record_of_loc mx lx) ex n) as [m1 e1].
      simpl in Hs. destruct Hs as (Hs1 & Hs2 & ->).
      exists m1, (ex + n). repeat split; try lia.
      set (k := Z.max (Zdigits2 mx - n) 0).
      assert (Hk : shr_m m1 + 1 < 2 ^ (k + 1)).
      { assert (0 < 2 ^ n) by (apply Z.pow_pos_nonneg; lia).
        assert (shr_m m1 < 2 ^ k).
        { subst k. destruct (Z_lt_le_dec (Zdigits2 mx) n) as [Hlt | Hge].
          - rewrite Z.max_r by lia. rewrite Z.pow_0_r.
            assert (2 ^ Zdigits2 mx <= 2 ^ n) by (apply Z.pow_le_mono_r; lia).
            nia.
          - rewrite Z.max_l by lia.
            assert (Hsplit : 2 ^ Zdigits2 mx = 2 ^ (Zdigits2 mx - n) * 2 ^ n).
            { rewrite <- Z.pow_add_r by lia. f_equal. lia. }
            nia. }
        replace (k + 1) with (Z.succ k) by lia.
        rewrite Z.pow_succ_r by (subst k; lia).
        assert (0 < 2 ^ k) by (apply Z.pow_pos_nonneg; subst k; lia). lia. }
      assert (Zdigits2 (shr_m m1 + 1) <= k + 1).
      { apply Zdigits2_le; [subst k; lia | lia]. }
      subst k. lia.
    - assert (Hshr : shr (shr_record_of_loc mx lx) ex n = (shr_record_of_loc mx lx, ex)).
      { unfold shr. destruct n; try lia; reflexivity. }
      rewrite Hshr. exists (shr_record_of_loc mx lx), ex.
      rewrite shr_record_of_loc_m. repeat split; try lia.
      assert (Zdigits2 (mx + 1) <= Zdigits2 mx + 1).
      { apply Zdigits2_le; [lia | ].
        replace (Zdigits2 mx + 1) with (Z.succ (Zdigits2 mx)) by lia.
        rewrite Z.pow_succ_r by lia. lia. }
      lia. }
  destruct H1 as (m1 & e1 & -> & Hm1 & He1 & Hd1).
  set (mr := round_nearest_even (shr_m m1) (loc_of_shr_record m1)).
  assert (Hmr : 0 <= mr <= shr_m m1 + 1).
  { subst mr. unfold round_nearest_even.
    destruct (loc_of_shr_record m1) as [ | [ | | ] ];
      try destruct (Z.even (shr_m m1)); lia. }
  assert (Hdr : Zdigits2 mr <= Zdigits2 (shr_m m1 + 1)).
  { apply Zdigits2_le; [apply Zdigits2_nonneg | ].
    pose proof (Zdigits2_gt (shr_m m1 + 1) ltac:(lia)). lia. }
  (* second shift *)
  unfold shr_fexp. rewrite fexp_eq.
  set (n := Z.max (Zdigits2 mr + e1 - 53) (-1074) - e1).
  assert (He2 : snd (shr (shr_record_of_loc mr loc_Exact) e1 n) <= 971).
  { unfold shr. destruct n eqn:En; simpl; lia. }
  destruct (shr (shr_record_of_loc mr loc_Exact) e1 n) as [m2 e2].
  simpl in He2.
  destruct (shr_m m2); try discriminate.
  replace (e2 <=? emax - prec) with true; [discriminate | ].
  symmetry. apply Z.leb_le. unfold emax, prec. lia.
Qed.

Lemma SFdiv_core_digits a b :
  let '(q, e, _) := SFdiv_core_binary prec emax (Zpos a) 0 (Zpos b) 0 in
  0 <= q /\ Zdigits2 q + e <= Zdigits2 (Zpos a) /\ e <= 0.
Proof.
  unfold SFdiv_core_binary. rewrite fexp_eq.
  set (d1 := Zdigits2 (Zpos a)). set (d2 := Zdigits2 (Zpos b)).
  set (e' := Z.min _ _).
  assert (He : e' <= 0) by (subst e'; lia).
  set (m' := match 0 - 0 - e' with 0 => _ | _ => _ end).
  assert (Hm : 0 <= m' <= Zpos a * 2 ^ (- e')).
  { subst m'. destruct (0 - 0 - e') eqn:E; try lia.
    - replace (- e') with 0 by lia. rewrite Z.pow_0_r. lia.
    - rewrite Z.shiftl_mul_pow2 by lia. replace (- e') with (Zpos p) by lia.
      assert (0 < 2 ^ Zpos p) by (apply Z.pow_pos_nonneg; lia). nia. }
  pose proof (Z_div_mod m' (Zpos b) ltac:(lia)) as Hdv.
  destruct (Z.div_eucl m' (Zpos b)) as [q r]. destruct Hdv as [Hd1 Hd2].
  assert (Hq : 0 <= q <= m') by nia.
  split; [lia | ]. split; [ | lia].
  pose proof (Zdigits2_gt (Zpos a) ltac:(lia)) as Hga. fold d1 in Hga.
  assert (Hd1n : 0 <= d1) by apply Zdigits2_nonneg.
  assert (Zdigits2 q <= d1 - e').
  { apply Zdigits2_le; [lia | ].
    replace (d1 - e') with (d1 + - e') by lia. rewrite Z.pow_add_r by lia.
    assert (0 < 2 ^ (- e')) by (apply Z.pow_pos_nonneg; lia). nia. }
  lia.
Qed.

(** [a / b] is defined for every non-negative [a] below [2 ^ 1023] and
    positive [b]. *)
Lemma int_truediv_defined a b :
  0 <= a < 2 ^ 1023 -> 0 < b -> exists q, int_truediv a b = Ok q.
Proof.
  intros [Ha0 Ha] Hb. unfold int_truediv.
  replace (b =? 0) with false by (symmetry; apply Z.eqb_neq; lia).
  destruct b as [ | b | b ]; try lia.
  destruct a as [ | a | a ]; try lia.
  - simpl. eauto.
  - assert (Hne : forall s', SFdiv prec emax (int_exact (Zpos a)) (int_exact (Zpos b))
                             <> S754_infinity s').
    { simpl. pose proof (SFdiv_core_digits a b) as Hc.
      destruct (SFdiv_core_binary prec emax (Zpos a) 0 (Zpos b) 0) as [[q e] l].
      destruct Hc as (Hq & Hd & He).
      apply binary_round_aux_finite; try lia.
      assert (Zdigits2 (Zpos a) <= 1023) by (apply Zdigits2_le; lia). lia. }
    destruct (SFdiv prec emax _ _) as [ | s' | | ]; eauto.
    exfalso. now apply (Hne s').
Qed.

(** [div_half_even] is within half a unit, and on a tie it is even. *)
Lemma div_half_even_nearest num den :
  0 < den ->
  Z.abs (2 * num - 2 * div_half_even num den * den) <= den /\
  (Z.abs (2 * num - 2 * div_half_even num den * den) = den ->
   Z.even (div_half_even num den) = true).
Proof.
  intros Hd. unfold div_half_even.
  pose proof (Z.div_mod num den ltac:(lia)) as Hdm.
  pose proof (Z.mod_pos_bound num den Hd) as Hr.
  set (q := num / den) in *. set (r := num mod den) in *.
  destruct (Z.compare_spec (2 * r) den) as [C | C | C].
  - destruct (Z.even q) eqn:Hq.
    + split; [lia | auto].
    + split; [lia | ]. intros _.
      replace (q + 1) with (Z.succ q) by lia.
      rewrite Z.even_succ, <- Z.negb_even, Hq. reflexivity.
  - split; lia.
  - split; lia.
Qed.


(** ** The accuracy of the binary64 operations *)

Lemma loc_of_record_of_loc m l :
  loc_of_shr_record (shr_record_of_loc m l) = l.
Proof. destruct l as [ | [ | | ] ]; reflexivity. Qed.

Lemma located_bounds m l N D :
  0 < D -> located m l N D -> m * D <= N < (m + 1) * D.
Proof. destruct l as [ | [ | | ] ]; simpl; lia. Qed.

(** One step to the right halves the unit. *)
Lemma shr_1_located mrs N D :
  0 <= shr_m mrs -> 0 < D ->
  located (shr_m mrs) (loc_of_shr_record mrs) N D ->
  located (shr_m (shr_1 mrs)) (loc_of_shr_record (shr_1 mrs)) N (2 * D).
Proof.
  destruct mrs as [m r s]. cbn [shr_m]. intros Hm HD.
  destruct m as [ | [p | p | ] | p]; try lia;
    try pose proof (Pos2Z.inj_xI p); try pose proof (Pos2Z.inj_xO p);
    destruct r, s; cbn [shr_1 loc_of_shr_record located shr_m orb]; lia.
Qed.

Lemma shr_located mrs e n N D :
  0 <= shr_m mrs -> 0 < D -> 0 <= n ->
  located (shr_m mrs) (loc_of_shr_record mrs) N D ->
  let r := fst (shr mrs e n) in
  0 <= shr_m r /\
  located (shr_m r) (loc_of_shr_record r) N (2 ^ n * D) /\
  snd (shr mrs e n) = e + n.
Proof.
  intros Hm HD Hn HL. destruct n as [ | p | p]; try lia.
  - unfold shr. cbn [fst snd]. rewrite Z.pow_0_r, Z.mul_1_l, Z.add_0_r.
    repeat split; assumption.
  - cbn [shr fst snd]. split; [ | split; [ | reflexivity]].
    + apply (iter_pos_invariant (fun r => 0 <= shr_m r)); auto using shr_1_nonneg.
    + assert (H : 0 <= 0 + Zpos p /\
                  0 <= shr_m (SpecFloat.iter_pos shr_1 p mrs) /\
                  located (shr_m (SpecFloat.iter_pos shr_1 p mrs))
                          (loc_of_shr_record (SpecFloat.iter_pos shr_1 p mrs))
                          N (2 ^ (0 + Zpos p) * D)).
      { apply (iter_pos_count
                 (fun k x => 0 <= k /\ 0 <= shr_m x /\
                             located (shr_m x) (loc_of_shr_record x) N (2 ^ k * D))
                 shr_1) with (k := 0); [ | lia | ].
        - intros k x (Hk & H1 & H2). split; [lia | ].
          split; [now apply shr_1_nonneg | ].
          replace (2 ^ (k + 1) * D) with (2 * (2 ^ k * D))
            by (rewrite Z.pow_add_r by lia; lia).
          apply shr_1_located; try assumption.
          assert (0 < 2 ^ k) by (apply Z.pow_pos_nonneg; lia). nia.
        - split; [lia | ]. split; [exact Hm | ].
          now rewrite Z.pow_0_r, Z.mul_1_l. }
      exact (proj2 (proj2 H)).
Qed.

(** Rounding to nearest stays within half a unit. *)
Lemma round_nearest_even_located m l N D :
  0 < D -> located m l N D ->
  m <= round_nearest_even m l <= m + 1 /\
  Z.abs (2 * (round_nearest_even m l * D - N)) <= D.
Proof.
  intros HD. unfold round_nearest_even.
  destruct l as [ | [ | | ] ]; simpl; try destruct (Z.even m); lia.
Qed.

Lemma Zdigits2_lower m : 0 < m -> 2 ^ (Zdigits2 m - 1) <= m.
Proof.
  intros Hm. pose proof (Zdigits2_nonneg m) as Hd.
  destruct (Z_lt_le_dec m (2 ^ (Zdigits2 m - 1))) as [Hlt | Hle]; [ | exact Hle].
  exfalso.
  assert (Hpos : 0 < Zdigits2 m).
  { destruct m; simpl in *; lia. }
  pose proof (Zdigits2_le m (Zdigits2 m - 1) ltac:(lia) ltac:(lia)). lia.
Qed.

Lemma Zdigits2_eq m k : 0 < k -> 2 ^ (k - 1) <= m < 2 ^ k -> Zdigits2 m = k.
Proof.
  intros Hk [Hlo Hhi].
  assert (Hm : 0 < m).
  { assert (0 < 2 ^ (k - 1)) by (apply Z.pow_pos_nonneg; lia). lia. }
  pose proof (Zdigits2_le m k ltac:(lia) ltac:(lia)) as Hle.
  pose proof (Zdigits2_gt m ltac:(lia)) as Hgt.
  pose proof (Zdigits2_nonneg m) as Hnn.
  destruct (Z_lt_le_dec (Zdigits2 m) k) as [Hlt | Hge]; [ | lia].
  exfalso.
  assert (2 ^ Zdigits2 m <= 2 ^ (k - 1)) by (apply Z.pow_le_mono_r; lia). lia.
Qed.

(** Rounding a mantissa of at least 53 digits in the normal range: the
    result is finite, its mantissa has 53 digits, and it is within half a
    unit of the last place of the value rounded. *)
Lemma binary_round_aux_located s mx ex lx N D :
  0 < D -> 2 ^ 52 <= mx -> located mx lx N D ->
  -1074 <= ex + (Zdigits2 mx - 53) -> Zdigits2 mx + ex <= 1023 ->
  exists m e,
    binary_round_aux prec emax s mx ex lx = S754_finite s m e /\
    ex + (Zdigits2 mx - 53) <= e <= ex + (Zdigits2 mx - 53) + 1 /\
    2 ^ 52 <= Zpos m < 2 ^ 53 /\
    2 ^ 53 * Z.abs (Zpos m * 2 ^ (e - ex) * D - N) <= N.
Proof.
  intros HD Hmx HL Hlo Hhi.
  set (d := Zdigits2 mx) in *.
  assert (Hd : 53 <= d).
  { pose proof (Zdigits2_gt mx ltac:(lia)) as Hgt. fold d in Hgt.
    destruct (Z_lt_le_dec d 53) as [Hlt | Hge]; [ | exact Hge].
    assert (2 ^ d <= 2 ^ 52)
      by (apply Z.pow_le_mono_r; [lia | pose proof (Zdigits2_nonneg mx); lia]).
    lia. }
  set (n := d - 53) in *.
  assert (Hdl : 2 ^ (52 + n) <= mx < 2 ^ (53 + n)).
  { split.
    - replace (52 + n) with (d - 1) by (subst n; lia).
      apply Zdigits2_lower. lia.
    - replace (53 + n) with d by (subst n; lia).
      apply Zdigits2_gt. lia. }
  rewrite !Z.pow_add_r in Hdl by lia.
  set (A := 2 ^ n) in *.
  assert (HA : 0 < A) by (apply Z.pow_pos_nonneg; lia).
  pose proof (located_bounds mx lx N D HD HL) as HB.
  unfold binary_round_aux.
  (* the first shift *)
  assert (H1 : exists m1,
             shr_fexp prec emax mx ex lx = (m1, ex + n) /\
             2 ^ 52 <= shr_m m1 < 2 ^ 53 /\
             located (shr_m m1) (loc_of_shr_record m1) N (A * D)).
  { unfold shr_fexp. rewrite fexp_eq. fold d.
    replace (Z.max (d + ex - 53) (-1074) - ex) with n by (subst n; lia).
    pose proof (shr_located (shr_record_of_loc mx lx) ex n N D) as Hs.
    rewrite shr_record_of_loc_m, loc_of_record_of_loc in Hs.
    specialize (Hs ltac:(lia) HD ltac:(lia) HL). cbv zeta in Hs.
    destruct (shr (shr_record_of_loc mx lx) ex n) as [m1 e1].
    cbn [fst snd] in Hs. destruct Hs as (Hm1 & HL1 & ->).
    exists m1. split; [reflexivity | ]. fold A in HL1.
    split; [ | exact HL1].
    pose proof (located_bounds _ _ N (A * D) ltac:(nia) HL1) as HB1.
    split; nia. }
  destruct H1 as (m1 & -> & Hm1 & HL1).
  pose proof (round_nearest_even_located _ _ N (A * D) ltac:(nia) HL1)
    as [Hr1 Hr2].
  set (mr := round_nearest_even (shr_m m1) (loc_of_shr_record m1)) in *.
  assert (HN : 2 ^ 52 * (A * D) <= N) by nia.
  (* the second shift *)
  destruct (Z_lt_le_dec mr (2 ^ 53)) as [Hlt | Hge].
  - assert (Hdr : Zdigits2 mr = 53) by (apply Zdigits2_eq; lia).
    unfold shr_fexp. rewrite fexp_eq, Hdr.
    replace (Z.max (53 + (ex + n) - 53) (-1074) - (ex + n)) with 0 by lia.
    unfold shr. cbn [shr_record_of_loc shr_m].
    destruct mr as [ | p | p] eqn:Emr; try lia.
    replace (ex + n <=? emax - prec) with true
      by (symmetry; apply Z.leb_le; unfold emax, prec; lia).
    exists p, (ex + n). split; [reflexivity | ]. split; [lia | ].
    split; [lia | ].
    replace (ex + n - ex) with n by lia. fold A.
    replace (Z.pos p * A * D) with (Z.pos p * (A * D)) by ring. lia.
  - assert (Emr : mr = 2 ^ 53) by lia.
    unfold shr_fexp. rewrite fexp_eq, Emr.
    change (Zdigits2 (2 ^ 53)) with 54.
    replace (Z.max (54 + (ex + n) - 53) (-1074) - (ex + n)) with 1 by lia.
    cbn [shr shr_record_of_loc SpecFloat.iter_pos].
    change (shr_m (shr_1 {| shr_m := 2 ^ 53; shr_r := false; shr_s := false |}))
      with (Zpos (2 ^ 52)).
    replace (ex + n + 1 <=? emax - prec) with true
      by (symmetry; apply Z.leb_le; unfold emax, prec; lia).
    exists (2 ^ 52)%positive, (ex + n + 1). split; [reflexivity | ].
    split; [lia | ]. split; [lia | ].
    replace (ex + n + 1 - ex) with (n + 1) by lia.
    rewrite Z.pow_add_r by lia. fold A.
    change (Z.pos (2 ^ 52) * (A * 2 ^ 1)) with (Z.pos (2 ^ 52) * (A * 2)).
    replace (Z.pos (2 ^ 52) * (A * 2) * D) with (2 ^ 53 * (A * D))
      by (change (Z.pos (2 ^ 52)) with (2 ^ 52); change (2 ^ 53) with (2 ^ 52 * 2); ring).
    rewrite Emr in Hr2. lia.
Qed.

(** *** Values in exact arithmetic *)

Local Open Scope Q_scope.

Lemma bpow_pos e : 0 < bpow e.
Proof. apply Qpower_0_lt. reflexivity. Qed.

Lemma bpow_add a b : bpow (a + b) == bpow a * bpow b.
Proof. apply Qpower_plus. discriminate. Qed.

Lemma bpow_Z e : (0 <= e)%Z -> bpow e == inject_Z (2 ^ e).
Proof. intros H. unfold bpow. now rewrite Zpower_Qpower. Qed.

Lemma bpow_opp e : bpow (- e) == / bpow e.
Proof. apply Qpower_opp. Qed.

Lemma float_value_finite m e :
  exists v, float_value (S754_finite false m e) = Some v /\
            v == inject_Z (Zpos m) * bpow e.
Proof.
  unfold float_value. cbn [cond_Zopp].
  destruct (0 <=? e)%Z eqn:He.
  - apply Z.leb_le in He. eexists. split; [reflexivity | ].
    rewrite inject_Z_mult, bpow_Z by exact He. reflexivity.
  - apply Z.leb_gt in He. eexists. split; [reflexivity | ].
    assert (Hp : (0 < 2 ^ (- e))%Z) by (apply Z.pow_pos_nonneg; lia).
    rewrite Qmake_Qdiv. rewrite Z2Pos.id by exact Hp.
    replace e with (- (- e))%Z at 2 by lia.
    rewrite bpow_opp, bpow_Z by lia. reflexivity.
Qed.

(** From the integer form of a relative error to the rational one. *)
Lemma rel_error_Q (K N D : Z) (b : Q) :
  (0 < D)%Z -> 0 < b ->
  (2 ^ 53 * Z.abs (K * D - N) <= N)%Z ->
  let x := inject_Z N / inject_Z D * b in
  (1 - u53) * x <= inject_Z K * b <= (1 + u53) * x.
Proof.
  intros HD Hb H. cbv zeta.
  assert (Hd : inject_Z 0 < inject_Z D) by (rewrite <- Zlt_Qlt; exact HD).
  change (inject_Z 0) with 0 in Hd.
  set (y := inject_Z N / inject_Z D).
  assert (Hy : inject_Z N == y * inject_Z D).
  { unfold y. field. intros E. rewrite E in Hd. discriminate. }
  assert (H1 : (2 ^ 53 * (K * D - N) <= N)%Z) by lia.
  assert (H2 : (- N <= 2 ^ 53 * (K * D - N))%Z) by lia.
  rewrite Zle_Qle in H1, H2.
  inject_in H1. inject_in H2.
  rewrite Hy in H1, H2.
  change (inject_Z (2 ^ 53)) with (9007199254740992 # 1) in H1, H2.
  set (k := inject_Z K) in *. set (d := inject_Z D) in *.
  assert (G1 : (9007199254740992 # 1) * (k - y) <= y) by nra.
  assert (G2 : - y <= (9007199254740992 # 1) * (k - y)) by nra.
  unfold u53. split; nra.
Qed.

Lemma round_value_Q m e ex N D :
  (0 < D)%Z -> (ex <= e)%Z ->
  (2 ^ 53 * Z.abs (Zpos m * 2 ^ (e - ex) * D - N) <= N)%Z ->
  let x := inject_Z N / inject_Z D * bpow ex in
  (1 - u53) * x <= inject_Z (Zpos m) * bpow e <= (1 + u53) * x.
Proof.
  intros HD He H. cbv zeta.
  pose proof (rel_error_Q (Zpos m * 2 ^ (e - ex)) N D (bpow ex) HD (bpow_pos ex) H)
    as R. cbv zeta in R.
  assert (E : inject_Z (Zpos m * 2 ^ (e - ex)) * bpow ex
              == inject_Z (Zpos m) * bpow e).
  { rewrite inject_Z_mult, <- bpow_Z by lia.
    rewrite <- Qmult_assoc, <- bpow_add.
    now replace (e - ex + ex)%Z with e by lia. }
  now rewrite E in R.
Qed.

Local Close Scope Q_scope.

(** *** The quotient of two ints *)

Lemma new_location_located b r q :
  0 < b -> 0 <= r < b -> located q (new_location b r) (b * q + r) b.
Proof.
  intros Hb Hr. unfold new_location, new_location_even, new_location_odd.
  destruct (Z.even b) eqn:Eb; destruct (Z.eqb_spec r 0) as [-> | Hr0];
    cbn [located]; try lia.
  - destruct (Z.compare_spec (2 * r) b); cbn [located]; lia.
  - assert (Hodd : Z.odd b = true) by (rewrite <- Z.negb_even, Eb; reflexivity).
    apply Z.odd_spec in Hodd as [c Hc].
    destruct (Z.compare_spec (2 * r + 1) b); cbn [located]; lia.
Qed.

Lemma SFdiv_core_located a b :
  0 < a -> 0 < b < 2 ^ 1000 ->
  let '(q, e, l) := SFdiv_core_binary prec emax a 0 b 0 in
  e <= 0 /\ 2 ^ 52 <= q /\ located q l (a * 2 ^ (- e)) b /\
  -1074 <= e /\ Zdigits2 q + e <= Zdigits2 a.
Proof.
  intros Ha Hb. unfold SFdiv_core_binary. rewrite fexp_eq.
  set (d1 := Zdigits2 a). set (d2 := Zdigits2 b).
  assert (Hd1 : 1 <= d1).
  { subst d1. destruct a; simpl; lia. }
  assert (Hd2 : 1 <= d2 <= 1000).
  { subst d2. split; [destruct b; simpl; lia | ]. apply Zdigits2_le; lia. }
  replace (Z.max (d1 + 0 - (d2 + 0) - 53) (-1074)) with (d1 - d2 - 53) by lia.
  set (e' := Z.min (d1 - d2 - 53) (0 - 0)).
  assert (He : e' <= 0 /\ e' <= d1 - d2 - 53 /\ -1074 <= e') by (subst e'; lia).
  set (m' := match 0 - 0 - e' with 0 => _ | _ => _ end).
  assert (Hm : m' = a * 2 ^ (- e')).
  { subst m'. destruct (0 - 0 - e') eqn:E; try lia.
    - replace (- e') with 0 by lia. rewrite Z.pow_0_r. lia.
    - rewrite Z.shiftl_mul_pow2 by lia. now replace (- e') with (Zpos p) by lia. }
  pose proof (Z_div_mod m' b ltac:(lia)) as Hdv.
  destruct (Z.div_eucl m' b) as [q r]. destruct Hdv as [Hq Hr].
  assert (Hlow : 2 ^ 52 * 2 ^ d2 <= m').
  { rewrite Hm. pose proof (Zdigits2_lower a Ha) as Hla. fold d1 in Hla.
    rewrite <- Z.pow_add_r by lia.
    assert (0 < 2 ^ (- e')) by (apply Z.pow_pos_nonneg; lia).
    assert (2 ^ (52 + d2) <= 2 ^ (d1 - 1) * 2 ^ (- e')).
    { rewrite <- Z.pow_add_r by lia. apply Z.pow_le_mono_r; lia. }
    nia. }
  pose proof (Zdigits2_gt b ltac:(lia)) as Hgb. fold d2 in Hgb.
  assert (Hq52 : 2 ^ 52 <= q) by nia.
  split; [lia | ]. split; [exact Hq52 | ]. split.
  - rewrite <- Hm, Hq. apply new_location_located; lia.
  - split; [lia | ].
    pose proof (Zdigits2_gt a ltac:(lia)) as Hga. fold d1 in Hga.
    assert (Zdigits2 q <= d1 - e').
    { apply Zdigits2_le; [lia | ].
      replace (d1 - e') with (d1 + - e') by lia. rewrite Z.pow_add_r by lia.
      assert (0 < 2 ^ (- e')) by (apply Z.pow_pos_nonneg; lia). nia. }
    lia.
Qed.

Local Open Scope Q_scope.

(** [a / b] on two positive ints below [2 ^ 1000] is a normal float within
    a relative [2 ^ -53] of the exact quotient. *)
Lemma int_truediv_accurate a b :
  (0 < a < 2 ^ 1000)%Z -> (0 < b < 2 ^ 1000)%Z ->
  exists m e,
    int_truediv a b = Ok (S754_finite false m e) /\
    (2 ^ 52 <= Zpos m < 2 ^ 53)%Z /\ (-1074 <= e <= 948)%Z /\
    let x := inject_Z a / inject_Z b in
    (1 - u53) * x <= inject_Z (Zpos m) * bpow e <= (1 + u53) * x.
Proof.
  intros Ha Hb. unfold int_truediv.
  replace (b =? 0)%Z with false by (symmetry; apply Z.eqb_neq; lia).
  pose proof (SFdiv_core_located a b ltac:(lia) Hb) as Hc.
  destruct a as [ | pa | pa]; try lia. destruct b as [ | pb | pb]; try lia.
  cbn [int_exact SFdiv xorb].
  destruct (SFdiv_core_binary prec emax (Zpos pa) 0 (Zpos pb) 0) as [[q e'] l].
  destruct Hc as (He' & Hq & HL & Hlo & Hhi).
  assert (Hda : (Zdigits2 (Zpos pa) <= 1000)%Z) by (apply Zdigits2_le; lia).
  assert (Hdq : (53 <= Zdigits2 q)%Z).
  { pose proof (Zdigits2_gt q ltac:(lia)) as Hgt.
    destruct (Z_lt_le_dec (Zdigits2 q) 53) as [Hlt | Hge]; [ | exact Hge].
    assert (2 ^ Zdigits2 q <= 2 ^ 52)%Z
      by (apply Z.pow_le_mono_r; [lia | pose proof (Zdigits2_nonneg q); lia]).
    lia. }
  destruct (binary_round_aux_located false q e' l (Zpos pa * 2 ^ (- e')) (Zpos pb)
              ltac:(lia) Hq HL ltac:(lia) ltac:(lia))
    as (m & e & -> & He & Hm & Herr).
  exists m, e. split; [reflexivity | ]. split; [exact Hm | ]. split; [lia | ].
  pose proof (round_value_Q m e e' (Zpos pa * 2 ^ (- e')) (Zpos pb)
                ltac:(lia) ltac:(lia) Herr) as R.
  cbv zeta in *.
  assert (E : inject_Z (Zpos pa * 2 ^ (- e')) / inject_Z (Zpos pb) * bpow e'
              == inject_Z (Zpos pa) / inject_Z (Zpos pb)).
  { rewrite inject_Z_mult, <- bpow_Z by lia.
    unfold Qdiv.
    rewrite <- (Qmult_assoc (inject_Z (Zpos pa))), (Qmult_comm (bpow (- e'))).
    rewrite !(Qmult_assoc (inject_Z (Zpos pa))), <- Qmult_assoc.
    rewrite <- bpow_add. replace (- e' + e')%Z with 0%Z by lia.
    apply Qmult_1_r. }
  now rewrite E in R.
Qed.

(** *** The product by 100 *)

Lemma float_of_int_100 :
  float_of_int 100 = S754_finite false 7036874417766400 (-46).
Proof. reflexivity. Qed.

Lemma float_mul_100_accurate m e :
  (2 ^ 52 <= Zpos m < 2 ^ 53)%Z -> (-1074 <= e <= 948)%Z ->
  exists m' e',
    float_mul_int (S754_finite false m e) 100 = S754_finite false m' e' /\
    let x := 100 * (inject_Z (Zpos m) * bpow e) in
    (1 - u53) * x <= inject_Z (Zpos m') * bpow e' <= (1 + u53) * x.
Proof.
  intros Hm He. unfold float_mul_int. rewrite float_of_int_100.
  cbn [SFmul xorb].
  set (mx := Zpos (m * 7036874417766400)).
  assert (Emx : mx = (Zpos m * 7036874417766400)%Z) by reflexivity.
  assert (Hmx : (2 ^ 104 <= mx < 2 ^ 106)%Z).
  { rewrite Emx. change (2 ^ 104)%Z with (2 ^ 52 * 2 ^ 52)%Z.
    change (2 ^ 106)%Z with (2 ^ 53 * 2 ^ 53)%Z.
    change (2 ^ 52)%Z with 4503599627370496%Z in *.
    change (2 ^ 53)%Z with 9007199254740992%Z in *. lia. }
  assert (Hd : (105 <= Zdigits2 mx <= 106)%Z).
  { split.
    - pose proof (Zdigits2_gt mx ltac:(lia)) as Hgt.
      destruct (Z_lt_le_dec (Zdigits2 mx) 105) as [Hlt | Hge]; [ | exact Hge].
      assert (2 ^ Zdigits2 mx <= 2 ^ 104)%Z
        by (apply Z.pow_le_mono_r; [lia | pose proof (Zdigits2_nonneg mx); lia]).
      lia.
    - apply Zdigits2_le; lia. }
  assert (H52 : (2 ^ 52 <= mx)%Z).
  { assert (2 ^ 52 <= 2 ^ 104)%Z by (apply Z.pow_le_mono_r; lia). lia. }
  destruct (binary_round_aux_located false mx (e + -46) loc_Exact mx 1
              ltac:(lia) H52 ltac:(cbn [located]; lia) ltac:(lia) ltac:(lia))
    as (m' & e' & -> & He' & Hm' & Herr).
  exists m', e'. split; [reflexivity | ].
  pose proof (round_value_Q m' e' (e + -46) mx 1 ltac:(lia) ltac:(lia) Herr) as R.
  cbv zeta in *.
  assert (E : inject_Z mx / inject_Z 1 * bpow (e + -46)
              == 100 * (inject_Z (Zpos m) * bpow e)).
  { rewrite Emx, inject_Z_mult, bpow_add.
    assert (C : inject_Z 7036874417766400 * bpow (-46) == 100)
      by (vm_compute; reflexivity).
    unfold Qdiv. change (/ inject_Z 1) with 1. rewrite Qmult_1_r.
    rewrite <- C. ring. }
  now rewrite E in R.
Qed.

(** *** The comparison with 100 and the rounding to one decimal *)

Lemma int_lt_float_Q n m e :
  int_lt_float n (S754_finite false m e) = true
  <-> inject_Z n < inject_Z (Zpos m) * bpow e.
Proof.
  unfold int_lt_float. cbn [cond_Zopp].
  destruct (0 <=? e)%Z eqn:He.
  - apply Z.leb_le in He. rewrite bpow_Z by exact He.
    rewrite <- inject_Z_mult, <- Zlt_Qlt. apply Z.ltb_lt.
  - apply Z.leb_gt in He.
    assert (Hp : (0 < 2 ^ (- e))%Z) by (apply Z.pow_pos_nonneg; lia).
    assert (Hq : 0 < inject_Z (2 ^ (- e))).
    { change 0 with (inject_Z 0). now rewrite <- Zlt_Qlt. }
    assert (Eb : bpow e == / inject_Z (2 ^ (- e))).
    { replace e with (- (- e))%Z at 1 by lia.
      rewrite bpow_opp, bpow_Z by lia. reflexivity. }
    rewrite Eb, Z.ltb_lt, Zlt_Qlt, inject_Z_mult.
    set (p := inject_Z (2 ^ (- e))) in *.
    set (a := inject_Z n). set (b := inject_Z (Zpos m)).
    split; intros H.
    + apply Qlt_shift_div_l; assumption.
    + apply (Qmult_lt_r _ _ (/ p)); [now apply Qinv_lt_0_compat | ].
      rewrite <- Qmult_assoc, Qmult_inv_r, Qmult_1_r; [exact H | ].
      intros E. rewrite E in Hq. discriminate.
Qed.

(** [round(x, 1)] on a positive float of at most 100: the float written
    [k / 10] for the integer [k] nearest to [10 * x]. *)
Lemma float_round_1_nearest m e :
  int_lt_float 100 (S754_finite false m e) = false ->
  exists k,
    (0 <= k <= 1000)%Z /\
    PyFloat (float_round (S754_finite false m e) 1) = decimal k 1 /\
    Qabs (inject_Z k - 10 * (inject_Z (Zpos m) * bpow e)) <= 1 # 2.
Proof.
  intros Hlt. unfold float_round. change (323 <? 1)%nat with false. cbv iota.
  change (10 ^ Z.of_nat 1)%Z with 10%Z.
  set (n := if (0 <=? e)%Z then _ else _).
  assert (Hn : (0 <= n <= 1000)%Z /\
               Qabs (inject_Z n - 10 * (inject_Z (Zpos m) * bpow e)) <= 1 # 2).
  { subst n. unfold int_lt_float in Hlt. cbn [cond_Zopp] in Hlt.
    destruct (0 <=? e)%Z eqn:He.
    - apply Z.ltb_ge in Hlt. apply Z.leb_le in He.
      assert (0 < 2 ^ e)%Z by (apply Z.pow_pos_nonneg; lia).
      split; [nia | ].
      rewrite bpow_Z by exact He. rewrite !inject_Z_mult.
      change (inject_Z 10) with 10.
      assert (E : inject_Z (Z.pos m) * inject_Z (2 ^ e) * 10 -
                  10 * (inject_Z (Z.pos m) * inject_Z (2 ^ e)) == 0) by ring.
      rewrite E. discriminate.
    - apply Z.ltb_ge in Hlt. apply Z.leb_gt in He.
      assert (Hp : (0 < 2 ^ (- e))%Z) by (apply Z.pow_pos_nonneg; lia).
      split; [apply div_half_even_bounds; lia | ].
      destruct (div_half_even_nearest (Zpos m * 10) (2 ^ (- e)) Hp) as [Hnear _].
      set (k := div_half_even (Zpos m * 10) (2 ^ (- e))) in *.
      assert (H1 : (2 * (Zpos m * 10) - 2 * k * 2 ^ (- e) <= 2 ^ (- e))%Z) by lia.
      assert (H2 : (- 2 ^ (- e) <= 2 * (Zpos m * 10) - 2 * k * 2 ^ (- e))%Z) by lia.
      rewrite Zle_Qle in H1, H2. inject_in H1. inject_in H2.
      assert (Hq : 0 < inject_Z (2 ^ (- e))).
      { change 0 with (inject_Z 0). now rewrite <- Zlt_Qlt. }
      assert (Eb : bpow e == / inject_Z (2 ^ (- e))).
      { replace e with (- (- e))%Z at 1 by lia.
        rewrite bpow_opp, bpow_Z by lia. reflexivity. }
      rewrite Eb.
      set (p := inject_Z (2 ^ (- e))) in *.
      set (kq := inject_Z k) in *. set (mq := inject_Z (Zpos m)) in *.
      change (inject_Z 2) with 2 in H1, H2. change (inject_Z 10) with 10 in H1, H2.
      set (v := mq * / p).
      assert (Ev : mq == v * p).
      { unfold v. field. intros E. rewrite E in Hq. discriminate. }
      rewrite Ev in H1, H2.
      apply Qabs_Qle_condition. split; nra. }
  destruct Hn as [Hn Hq]. exists n. split; [exact Hn | ]. split; [ | exact Hq].
  unfold decimal. change (10 ^ Z.of_nat 1)%Z with 10%Z.
  destruct n as [ | k | k]; [reflexivity | reflexivity | lia].
Qed.

(** *** The percentage against exact arithmetic *)

Lemma engagement_pct_of_quotient pc pu q :
  (0 < pu)%Z -> int_truediv pc pu = Ok q ->
  engagement_pct pc pu
  = Ok (py_round (py_min (PyFloat (float_mul_int q 100)) (PyInt 100)) 1).
Proof.
  intros Hpu Hq. unfold engagement_pct.
  replace (pu >? 0)%Z with true by (symmetry; apply Z.gtb_lt; lia).
  rewrite Hq. reflexivity.
Qed.

Lemma clamp_round_finite m e :
  py_round (py_min (PyFloat (S754_finite false m e)) (PyInt 100)) 1
  = if int_lt_float 100 (S754_finite false m e) then PyInt 100
    else PyFloat (float_round (S754_finite false m e) 1).
Proof.
  unfold py_min. cbn [py_lt].
  destruct (int_lt_float 100 (S754_finite false m e)); reflexivity.
Qed.

Lemma engagement_pct_accuracy pc pu :
  (0 <= pc < 2 ^ 1000)%Z -> (0 < pu < 2 ^ 1000)%Z ->
  exists v k,
    engagement_pct pc pu = Ok v /\ (0 <= k <= 1000)%Z /\ stored_tenths v k /\
    Qabs (inject_Z k / 10 - exact_pct pc pu) <= pct_tolerance.
Proof.
  intros Hpc Hpu. unfold exact_pct, pct_tolerance.
  assert (Hb : 0 < inject_Z pu).
  { change 0 with (inject_Z 0). rewrite <- Zlt_Qlt. lia. }
  destruct (Z.eq_dec pc 0%Z) as [-> | Hne].
  - exists (decimal 0 1), 0%Z. split.
    + unfold engagement_pct.
      replace (pu >? 0)%Z with true by (symmetry; apply Z.gtb_lt; lia).
      unfold int_truediv.
      replace (pu =? 0)%Z with false by (symmetry; apply Z.eqb_neq; lia).
      destruct pu as [ | p | p]; try lia. reflexivity.
    + split; [lia | ]. split; [now left | ].
      assert (E : inject_Z 0 / inject_Z pu * 100 == 0).
      { unfold Qdiv. change (inject_Z 0) with 0. ring. }
      rewrite E. rewrite Q.min_l by discriminate. discriminate.
  - destruct (int_truediv_accurate pc pu ltac:(lia) Hpu)
      as (m & e & Hq & Hm & He & HVq).
    destruct (float_mul_100_accurate m e Hm He) as (m' & e' & Hy & HVy).
    cbv zeta in HVq, HVy.
    rewrite (engagement_pct_of_quotient pc pu _ ltac:(lia) Hq), Hy,
      clamp_round_finite.
    set (X := inject_Z pc / inject_Z pu) in *.
    set (Vq := inject_Z (Zpos m) * bpow e) in *.
    set (Vy := inject_Z (Zpos m') * bpow e') in *.
    assert (HX : 0 < X).
    { unfold X. apply Qlt_shift_div_l; [exact Hb | ].
      rewrite Qmult_0_l. change 0 with (inject_Z 0). rewrite <- Zlt_Qlt. lia. }
    unfold u53 in HVq, HVy.
    destruct (int_lt_float 100 (S754_finite false m' e')) eqn:Hlt.
    + apply int_lt_float_Q in Hlt. fold Vy in Hlt. change (inject_Z 100) with 100 in Hlt.
      exists (PyInt 100), 1000%Z. split; [reflexivity | ]. split; [lia | ].
      split; [right; now split | ].
      change (inject_Z 1000 / 10) with ((1000 # 1) * (1 # 10)).
      apply Qabs_Qle_condition.
      destruct (Q.min_spec (X * 100) 100) as [[Hc ->] | [Hc ->]]; split; lra.
    + destruct (float_round_1_nearest m' e' Hlt) as (k & Hk & Hv & Hnear).
      fold Vy in Hnear.
      assert (Hle : Vy <= 100).
      { apply Qnot_lt_le. intros H.
        change 100 with (inject_Z 100) in H. apply int_lt_float_Q in H.
        congruence. }
      exists (decimal k 1), k. split; [now rewrite Hv | ]. split; [exact Hk | ].
      split; [now left | ].
      apply Qabs_Qle_condition in Hnear. apply Qabs_Qle_condition.
      set (kq := inject_Z k) in *.
      change (kq / 10) with (kq * (1 # 10)).
      destruct (Q.min_spec (X * 100) 100) as [[Hc ->] | [Hc ->]]; split; lra.
Qed.

(** Two tenths near the same number are the same tenth. *)
Lemma tenths_unique (k j : Z) (x : Q) :
  Qabs (inject_Z k / 10 - x) <= pct_tolerance ->
  Qabs (inject_Z j / 10 - x) < pct_margin ->
  k = j.
Proof.
  unfold pct_tolerance, pct_margin. intros Hk Hj.
  apply Qabs_Qle_condition in Hk. apply Qabs_Qlt_condition in Hj.
  change (inject_Z k / 10) with (inject_Z k * (1 # 10)) in Hk.
  change (inject_Z j / 10) with (inject_Z j * (1 # 10)) in Hj.
  assert (H1 : inject_Z (k - j) < inject_Z 1).
  { unfold Z.sub. rewrite inject_Z_plus, inject_Z_opp.
    change (inject_Z 1) with 1. lra. }
  assert (H2 : inject_Z (-1) < inject_Z (k - j)).
  { unfold Z.sub. rewrite inject_Z_plus, inject_Z_opp.
    change (inject_Z (-1)) with (-1 # 1). lra. }
  rewrite <- Zlt_Qlt in H1, H2. lia.
Qed.

Lemma exact_pct_clamped pc pu : (0 < pu <= pc)%Z -> exact_pct pc pu == 100.
Proof.
  intros H. unfold exact_pct. apply Q.min_r.
  assert (Hb : 0 < inject_Z pu).
  { change 0 with (inject_Z 0). rewrite <- Zlt_Qlt. lia. }
  assert (Hx : 1 <= inject_Z pc / inject_Z pu).
  { apply Qle_shift_div_l; [exact Hb | ]. rewrite Qmult_1_l.
    rewrite <- Zle_Qle. lia. }
  lra.
Qed.

(** The percentage of a pair whose pacts reach its pupils is 100. *)
Lemma engagement_pct_clamped pc pu k :
  (0 < pu <= pc)%Z ->
  Qabs (inject_Z k / 10 - exact_pct pc pu) <= pct_tolerance -> k = 1000%Z.
Proof.
  intros H Hk. apply (tenths_unique k 1000 (exact_pct pc pu) Hk).
  rewrite (exact_pct_clamped pc pu H). reflexivity.
Qed.

Local Close Scope Q_scope.

(** ** Sample values, as CPython computes them *)

Example truediv_1_3 :
  int_truediv 1 3 = Ok (S754_finite false 6004799503160661 (-54)).
Proof. vm_compute. reflexivity. Qed.

Example truediv_overflow : int_truediv (2 ^ 1024) 1 = Raise OverflowError.
Proof. vm_compute. reflexivity. Qed.

Example truediv_largest : int_truediv (2 ^ 1023) 1 = Ok (S754_finite false (2 ^ 52) 971).
Proof. vm_compute. reflexivity. Qed.

(** [round(1 / 3 * 100, 1) == 33.3], [round(0.25, 1) == 0.2],
    [round(0.75, 1) == 0.8] and [round(1e-06, 5) == 0.0]. *)
Example percent_1_3 : engagement_pct 1 3 = Ok (decimal 333 1).
Proof. vm_compute. reflexivity. Qed.

Example round_quarter : py_round (decimal 25 2) 1 = decimal 2 1.
Proof. vm_compute. reflexivity. Qed.

Example round_three_quarters : py_round (decimal 75 2) 1 = decimal 8 1.
Proof. vm_compute. reflexivity. Qed.

Example round_millionth : py_round (decimal 1 6) 5 = PyFloat (S754_zero false).
Proof. vm_compute. reflexivity. Qed.

Example thousands_separators : format_thousands 1234567 = "1,234,567".
Proof. vm_compute. reflexivity. Qed.

Example postcode_normalised : normalize_postcode " ab1 2cd " = "AB12CD".
Proof. vm_compute. reflexivity. Qed.

(** ** The engagement percentage *)

Lemma engagement_pct_range pc pu v :
  0 <= pc -> engagement_pct pc pu = Ok v -> in_percent_range v.
Proof.
  intros Hpc. unfold engagement_pct.
  destruct (pu >? 0) eqn:Hpu.
  - destruct (int_truediv pc pu) as [q | e] eqn:Hq; simpl; [ | discriminate].
    intros [= <-]. apply clamp_round_range.
    apply (int_truediv_nonneg pc pu); auto. apply Z.gtb_lt in Hpu. lia.
  - intros [= <-]. exists 0%Q. split; [reflexivity | ]. split; discriminate.
Qed.

Lemma engagement_pct_defined pc pu :
  0 <= pc < 2 ^ 1023 -> exists v, engagement_pct pc pu = Ok v.
Proof.
  intros Hpc. unfold engagement_pct.
  destruct (pu >? 0) eqn:Hpu; [ | eexists; reflexivity].
  apply Z.gtb_lt in Hpu.
  destruct (int_truediv_defined pc pu Hpc ltac:(lia)) as [q ->].
  eexists. reflexivity.
Qed.

Lemma school_metric_spec s :
  school_metric s =
  (p ← engagement_pct (s_pacts s) (s_pupils s); mret (with_pct s p)).
Proof.
  unfold school_metric, engagement_pct.
  destruct (s_pupils s >? 0); [ | reflexivity].
  destruct (int_truediv (s_pacts s) (s_pupils s)); reflexivity.
Qed.

Lemma region_metric_spec name r :
  region_metric (name, r) =
  (p ← engagement_pct (r_pacts r) (r_pupils r); mret (name, region_with_pct r p)).
Proof.
  unfold region_metric, engagement_pct.
  destruct (r_pupils r >? 0); [ | reflexivity].
  destruct (int_truediv (r_pacts r) (r_pupils r)); reflexivity.
Qed.

Lemma annotate_spec st f :
  pyval_truthy (feature_county f) = true ->
  annotate st f =
  (let county := feature_county f in
   let pacts := default 0 (get_county (county_pacts st) county) in
   let pupils := default 0 (get_county (county_pupils st) county) in
   p ← engagement_pct pacts pupils;
   mret (set_aggregates f pacts pupils p
           (default 0 (get_county (county_schools st) county))
           (default "" (get_county (county_labels st) county)))).
Proof.
  intros Ht. unfold annotate, engagement_pct. rewrite Ht. simpl negb. cbv zeta.
  destruct (default 0 (get_county (county_pupils st) (feature_county f)) >? 0);
    [ | reflexivity].
  destruct (int_truediv _ _); reflexivity.
Qed.

(** What the three levels store, given the value of the shared
    expression. *)
Lemma metric_levels pc pu v :
  engagement_pct pc pu = Ok v ->
  (forall s, s_pacts s = pc -> s_pupils s = pu ->
     exists s', school_metric s = Ok s' /\ s_pact_pct s' = Some v /\
                s_pacts s' = pc /\ s_pupils s' = pu) /\
  (forall name r, r_pacts r = pc -> r_pupils r = pu ->
     exists r', region_metric (name, r) = Ok (name, r') /\
                r_pact_pct r' = Some v) /\
  (forall st f,
     pyval_truthy (feature_county f) = true ->
     default 0 (get_county (county_pacts st) (feature_county f)) = pc ->
     default 0 (get_county (county_pupils st) (feature_county f)) = pu ->
     exists f', annotate st f = Ok f' /\
                properties f' !! "pact_pct" = Some (VNum v)).
Proof.
  intros Hv. repeat apply conj.
  - intros s <- <-. rewrite school_metric_spec, Hv.
    eexists. split; [reflexivity | ]. repeat split.
  - intros name r <- <-. rewrite region_metric_spec, Hv.
    eexists. split; reflexivity.
  - intros st f Ht <- <-. rewrite (annotate_spec st f Ht). cbv zeta.
    rewrite Hv. eexists. split; [reflexivity | ].
    unfold set_aggregates; simpl; simplify_map_eq; reflexivity.
Qed.

Lemma engagement_pct_120_100 : engagement_pct 120 100 = Ok (PyInt 100).
Proof. vm_compute. reflexivity. Qed.

(** C2 (as amended).  For counts below [2 ^ 1000], each of the three
    levels (school, region, county) stores for an entity with pact count
    [pc] and pupil count [pu] one and the same value: the int 0 when
    [pu = 0]; otherwise the float written [k / 10] for an integer [k]
    between 0 and 1000 (or the int 100, when the product exceeds 100),
    where [k / 10] is within [1/20 + 10 ^ -13] of the exact
    [min(pc / pu * 100, 100)].  It is never above 100, it is 100 whenever
    [pc >= pu > 0], and for [pc = 120], [pu = 100] it is the int 100.  It
    need not be the rounding of the exact percentage: the expression is
    evaluated on binary64 floats. *)
Theorem engagement_pct_contract (pc pu : Z) :
  0 <= pc < 2 ^ 1000 -> 0 <= pu < 2 ^ 1000 ->
  (exists v k,
     (forall s, s_pacts s = pc -> s_pupils s = pu ->
        exists s', school_metric s = Ok s' /\ s_pact_pct s' = Some v /\
                   s_pacts s' = pc /\ s_pupils s' = pu) /\
     (forall name r, r_pacts r = pc -> r_pupils r = pu ->
        exists r', region_metric (name, r) = Ok (name, r') /\
                   r_pact_pct r' = Some v) /\
     (forall st f,
        pyval_truthy (feature_county f) = true ->
        default 0 (get_county (county_pacts st) (feature_county f)) = pc ->
        default 0 (get_county (county_pupils st) (feature_county f)) = pu ->
        exists f', annotate st f = Ok f' /\
                   properties f' !! "pact_pct" = Some (VNum v)) /\
     0 <= k <= 1000 /\
     in_percent_range v /\
     (pu = 0 -> v = PyInt 0 /\ k = 0) /\
     (0 < pu ->
        stored_tenths v k /\
        (Qabs (inject_Z k / 10 - exact_pct pc pu) <= pct_tolerance)%Q) /\
     (0 < pu <= pc -> k = 1000)) /\
  (forall s, s_pacts s = 120 -> s_pupils s = 100 ->
     exists s', school_metric s = Ok s' /\ s_pact_pct s' = Some (PyInt 100)).
Proof.
  intros Hpc Hpu. split.
  - destruct (Z.eq_dec pu 0) as [-> | Hne].
    + exists (PyInt 0), 0.
      destruct (metric_levels pc 0 (PyInt 0) eq_refl) as (L1 & L2 & L3).
      split; [exact L1 | ]. split; [exact L2 | ]. split; [exact L3 | ].
      split; [lia | ]. split.
      { exists 0%Q. split; [reflexivity | ]. split; discriminate. }
      split; [intros _; split; reflexivity | ]. split; intros H; lia.
    + destruct (engagement_pct_accuracy pc pu Hpc ltac:(lia))
        as (v & k & Hv & Hk & Hst & Hacc).
      exists v, k.
      destruct (metric_levels pc pu v Hv) as (L1 & L2 & L3).
      split; [exact L1 | ]. split; [exact L2 | ]. split; [exact L3 | ].
      split; [exact Hk | ]. split.
      { apply (engagement_pct_range pc pu v ltac:(lia) Hv). }
      split; [intros H; lia | ]. split; [intros _; now split | ].
      intros H. apply (engagement_pct_clamped pc pu k H Hacc).
  - intros s Hp Hu.
    destruct (metric_levels 120 100 (PyInt 100) engagement_pct_120_100)
      as (L1 & _).
    destruct (L1 s Hp Hu) as (s' & H1 & H2 & _). now exists s'.
Qed.

Lemma range_120 : 0 <= 120 < 2 ^ 1000.
Proof. split; [lia | reflexivity]. Qed.

Lemma range_100 : 0 <= 100 < 2 ^ 1000.
Proof. split; [lia | reflexivity]. Qed.

Lemma engagement_pct_contract_witness :
  0 <= 120 < 2 ^ 1000 /\ 0 <= 100 < 2 ^ 1000 /\
  exists v, in_percent_range v /\ stored_tenths v 1000.
Proof.
  split; [exact range_120 | ]. split; [exact range_100 | ].
  destruct (engagement_pct_contract 120 100 range_120 range_100)
    as [(v & k & _ & _ & _ & _ & Hr & _ & Hs & Hc) _].
  exists v. split; [exact Hr | ].
  rewrite <- (Hc ltac:(lia)). exact (proj1 (Hs ltac:(lia))).
Defined.

(** C2 fails as stated when its formula is read in exact arithmetic: with
    23 pacts and 80 pupils the exact percentage is 28.75, whose rounding to
    one decimal is 28.8 (half-up and half-even alike), and the code stores
    28.7; with 49 pacts and 80 pupils the exact percentage is 61.25 and
    the code stores 61.3. *)
Lemma exact_rounding_counterexample :
  let s := sample_school "england/1" "Kent" "AB1 2CD" 23 80 in
  let t := sample_school "england/2" "Kent" "AB1 2CD" 49 80 in
  school_metric s = Ok (with_pct s (decimal 287 1)) /\
  (exact_pct 23 80 == 115 # 4)%Q /\
  div_half_up (1000 * 23) 80 = 288 /\
  div_half_even (1000 * 23) 80 = 288 /\
  decimal 287 1 <> decimal 288 1 /\
  school_metric t = Ok (with_pct t (decimal 613 1)) /\
  (exact_pct 49 80 == 245 # 4)%Q /\
  div_half_even (1000 * 49) 80 = 612.
Proof.
  repeat apply conj; try (vm_compute; reflexivity).
  vm_compute. discriminate.
Qed.

(** ** Rounding: nearest, ties to even *)

Lemma annotate_recomputes st f f' :
  pyval_truthy (feature_county f) = true ->
  annotate st f = Ok f' ->
  exists pacts pupils p,
    properties f' !! "pacts" = Some (VNum (PyInt pacts)) /\
    properties f' !! "pupils" = Some (VNum (PyInt pupils)) /\
    properties f' !! "pact_pct" = Some (VNum p) /\
    engagement_pct pacts pupils = Ok p.
Proof.
  intros Ht. rewrite (annotate_spec st f Ht). cbv zeta.
  destruct (engagement_pct _ _) as [p | e] eqn:Hp; simpl; [ | discriminate].
  intros [= <-]. eexists _, _, p. repeat apply conj; [ | | | exact Hp];
    unfold set_aggregates; simpl; simplify_map_eq; reflexivity.
Qed.

(** C9 (as amended).  The percentage is computed by one and the same
    expression at school, region and county level, so equal (pacts,
    pupils) pairs give equal percentages at every level; the county
    percentage is recomputed from the pair written to the feature, and is
    what the school level gives for that pair.  For counts below
    [2 ^ 1000] the value is clamped at 100 and is the tenth nearest to the
    exact percentage whenever the exact percentage is more than
    [10 ^ -13] away from the middle between two tenths; at such a middle
    the rounding acts on the binary64 product and follows neither the
    half-up nor the half-even rule on the exact percentage. *)
Theorem engagement_rounding_uniform :
  (forall s name r st f s',
     r_pacts r = s_pacts s -> r_pupils r = s_pupils s ->
     pyval_truthy (feature_county f) = true ->
     default 0 (get_county (county_pacts st) (feature_county f)) = s_pacts s ->
     default 0 (get_county (county_pupils st) (feature_county f)) = s_pupils s ->
     school_metric s = Ok s' ->
     exists p r' f',
       s_pact_pct s' = Some p /\
       region_metric (name, r) = Ok (name, r') /\ r_pact_pct r' = Some p /\
       annotate st f = Ok f' /\
       properties f' !! "pact_pct" = Some (VNum p)) /\
  (forall st f f',
     pyval_truthy (feature_county f) = true ->
     annotate st f = Ok f' ->
     exists pacts pupils p,
       properties f' !! "pacts" = Some (VNum (PyInt pacts)) /\
       properties f' !! "pupils" = Some (VNum (PyInt pupils)) /\
       properties f' !! "pact_pct" = Some (VNum p) /\
       pacts = default 0 (get_county (county_pacts st) (feature_county f)) /\
       pupils = default 0 (get_county (county_pupils st) (feature_county f)) /\
       forall s, s_pacts s = pacts -> s_pupils s = pupils ->
                 exists s', school_metric s = Ok s' /\ s_pact_pct s' = Some p) /\
  (forall s s',
     0 <= s_pacts s < 2 ^ 1000 -> 0 < s_pupils s < 2 ^ 1000 ->
     school_metric s = Ok s' ->
     exists v k,
       s_pact_pct s' = Some v /\ stored_tenths v k /\ 0 <= k <= 1000 /\
       (s_pupils s <= s_pacts s -> k = 1000) /\
       (forall j,
          (Qabs (inject_Z j / 10 - exact_pct (s_pacts s) (s_pupils s))
           < pct_margin)%Q -> k = j)).
Proof.
  repeat apply conj.
  - intros s name r st f s' Hr1 Hr2 Ht Hc1 Hc2 Hs.
    rewrite school_metric_spec in Hs.
    destruct (engagement_pct (s_pacts s) (s_pupils s)) as [p | e] eqn:Hp;
      [ | discriminate Hs].
    cbn in Hs. injection Hs as <-.
    destruct (metric_levels _ _ p Hp) as (_ & L2 & L3).
    destruct (L2 name r Hr1 Hr2) as (r' & R1 & R2).
    destruct (L3 st f Ht Hc1 Hc2) as (f' & F1 & F2).
    exists p, r', f'. repeat split; assumption.
  - intros st f f' Ht Hf. rewrite (annotate_spec st f Ht) in Hf. cbv zeta in Hf.
    destruct (engagement_pct _ _) as [p | e] eqn:Hp; [ | discriminate Hf].
    cbn in Hf. injection Hf as <-.
    eexists _, _, p. repeat apply conj;
      try (unfold set_aggregates; simpl; simplify_map_eq; reflexivity).
    intros s Hs1 Hs2.
    destruct (metric_levels _ _ p Hp) as (L1 & _).
    destruct (L1 s Hs1 Hs2) as (s' & H1 & H2 & _). now exists s'.
  - intros s s' Hpc Hpu Hs.
    destruct (engagement_pct_accuracy (s_pacts s) (s_pupils s) Hpc Hpu)
      as (v & k & Hv & Hk & Hst & Hacc).
    rewrite school_metric_spec, Hv in Hs. cbn in Hs. injection Hs as <-.
    exists v, k. repeat apply conj; try assumption; try reflexivity; try lia.
    + intros H.
      apply (engagement_pct_clamped (s_pacts s) (s_pupils s) k ltac:(lia) Hacc).
    + intros j Hj. exact (tenths_unique k j _ Hacc Hj).
Qed.

Lemma third_school_metric :
  let s := sample_school "england/1" "Kent" "AB1 2CD" 1 3 in
  school_metric s = Ok (with_pct s (decimal 333 1)).
Proof. vm_compute. reflexivity. Qed.

Lemma third_near_333 :
  (Qabs (inject_Z 333 / 10 - exact_pct 1 3) < pct_margin)%Q.
Proof. vm_compute. reflexivity. Qed.

Lemma range_1_3 : 0 <= 1 < 2 ^ 1000 /\ 0 < 3 < 2 ^ 1000.
Proof. repeat split; try lia; reflexivity. Qed.

Lemma engagement_rounding_uniform_witness :
  let s := sample_school "england/1" "Kent" "AB1 2CD" 1 3 in
  exists v, s_pact_pct (with_pct s (decimal 333 1)) = Some v /\
            stored_tenths v 333.
Proof.
  intros s.
  destruct engagement_rounding_uniform as (_ & _ & Hround).
  destruct (Hround s (with_pct s (decimal 333 1)) (proj1 range_1_3)
              (proj2 range_1_3) third_school_metric)
    as (v & k & Hv & Hst & _ & _ & Hnear).
  exists v. split; [exact Hv | ].
  rewrite <- (Hnear 333 third_near_333). exact Hst.
Defined.

(** C9 fails as stated: with 1 pact and 16 pupils the quotient times 100
    is exactly 6.25; the code stores 6.2 where half-up rounding gives
    6.3. *)
Lemma half_up_counterexample :
  let s := sample_school "england/1" "Kent" "AB1 2CD" 1 16 in
  (q ← int_truediv 1 16; mret (Qred <$> float_value (float_mul_int q 100)))
    = Ok (Some (25 # 4)%Q) /\
  school_metric s = Ok (with_pct s (decimal 62 1)) /\
  engagement_pct_half_up 1 16 = Ok (decimal 63 1) /\
  engagement_pct 1 16 <> engagement_pct_half_up 1 16.
Proof.
  repeat apply conj.
  - vm_compute; reflexivity.
  - vm_compute; reflexivity.
  - vm_compute; reflexivity.
  - vm_compute. discriminate.
Qed.

(** ** The extraction loop *)

Lemma py_int_value s n : py_int s = Ok n -> n = int_value s.
Proof.
  unfold py_int, int_value. destruct s as [ | c s]; [discriminate | ].
  destruct (all_digits (String c s) && _); [ | discriminate].
  now intros [= <-].
Qed.

Lemma py_int_Ok s n :
  py_int s = Ok n ->
  all_digits s = true /\ s <> "" /\ (String.length s <= int_max_str_digits)%nat.
Proof.
  unfold py_int. destruct s as [ | c s]; [discriminate | ].
  destruct (all_digits (String c s)) eqn:D; [ | discriminate].
  destruct (String.length (String c s) <=? int_max_str_digits)%nat eqn:L;
    [ | discriminate].
  intros _. apply Nat.leb_le in L. repeat split; [discriminate | exact L].
Qed.

Lemma py_int_Raise s e : py_int s = Raise e -> e = ValueError.
Proof.
  unfold py_int. destruct s as [ | c s]; [now intros [= <-] | ].
  destruct (all_digits (String c s) && _); [discriminate | now intros [= <-]].
Qed.

Lemma school_of_match_value name m s :
  school_of_match name m = Ok s -> s = match_school name m.
Proof.
  unfold school_of_match, match_school.
  destruct (String.eqb (g_pupils m) "") eqn:E.
  - cbn. destruct (py_int (g_pacts m)) as [pc | e] eqn:Hpc; [ | discriminate].
    cbn. destruct (py_int (g_high_age m)) as [hi | e] eqn:Hhi; [ | discriminate].
    cbn. destruct (py_int (g_low_age m)) as [lo | e] eqn:Hlo; [ | discriminate].
    cbn. intros [= <-].
    now rewrite (py_int_value _ _ Hpc), (py_int_value _ _ Hhi),
      (py_int_value _ _ Hlo).
  - destruct (py_int (g_pupils m)) as [p | e] eqn:Hp; [ | discriminate].
    cbn. destruct (py_int (g_pacts m)) as [pc | e] eqn:Hpc; [ | discriminate].
    cbn. destruct (py_int (g_high_age m)) as [hi | e] eqn:Hhi; [ | discriminate].
    cbn. destruct (py_int (g_low_age m)) as [lo | e] eqn:Hlo; [ | discriminate].
    cbn. intros [= <-].
    now rewrite (py_int_value _ _ Hp), (py_int_value _ _ Hpc),
      (py_int_value _ _ Hhi), (py_int_value _ _ Hlo).
Qed.

Lemma school_of_match_Raise name m e :
  school_of_match name m = Raise e -> e = ValueError.
Proof.
  unfold school_of_match.
  destruct (String.eqb (g_pupils m) "").
  - cbn. destruct (py_int (g_pacts m)) as [pc | e1] eqn:Hpc;
      [ | cbn; intros [= <-]; exact (py_int_Raise _ _ Hpc)].
    cbn. destruct (py_int (g_high_age m)) as [hi | e1] eqn:Hhi;
      [ | cbn; intros [= <-]; exact (py_int_Raise _ _ Hhi)].
    cbn. destruct (py_int (g_low_age m)) as [lo | e1] eqn:Hlo;
      [discriminate | cbn; intros [= <-]; exact (py_int_Raise _ _ Hlo)].
  - destruct (py_int (g_pupils m)) as [p | e1] eqn:Hp;
      [ | cbn; intros [= <-]; exact (py_int_Raise _ _ Hp)].
    cbn. destruct (py_int (g_pacts m)) as [pc | e1] eqn:Hpc;
      [ | cbn; intros [= <-]; exact (py_int_Raise _ _ Hpc)].
    cbn. destruct (py_int (g_high_age m)) as [hi | e1] eqn:Hhi;
      [ | cbn; intros [= <-]; exact (py_int_Raise _ _ Hhi)].
    cbn. destruct (py_int (g_low_age m)) as [lo | e1] eqn:Hlo;
      [discriminate | cbn; intros [= <-]; exact (py_int_Raise _ _ Hlo)].
Qed.

Lemma span_loop_spec name ms : forall schools c p u out,
  span_loop name ms (schools, (c, p, u)) = Ok out ->
  out = (schools ++ map (match_school name) ms,
         (c + Z.of_nat (length ms),
          p + zsum (map s_pacts (map (match_school name) ms)),
          u + zsum (map s_pupils (map (match_school name) ms)))).
Proof.
  induction ms as [ | m ms IH]; intros schools c p u out.
  - cbn [span_loop map length zsum]. intros [= <-]. rewrite app_nil_r.
    f_equal. f_equal; [f_equal | ]; lia.
  - cbn [span_loop].
    destruct (school_of_match name m) as [s | e] eqn:Hs; [ | discriminate].
    apply school_of_match_value in Hs. subst s. intros H.
    apply IH in H. subst out. cbn [map zsum length].
    rewrite <- app_assoc. cbn [app]. f_equal. f_equal; [f_equal | ]; lia.
Qed.

Lemma span_loop_Raise name ms : forall acc e,
  span_loop name ms acc = Raise e -> e = ValueError.
Proof.
  induction ms as [ | m ms IH]; intros [schools [[c p] u]] e;
    cbn [span_loop]; [discriminate | ].
  destruct (school_of_match name m) as [s | e'] eqn:Hs.
  - apply IH.
  - intros [= <-]. exact (school_of_match_Raise _ _ _ Hs).
Qed.

(** The entries of [region_spans] when every declared total converts. *)
Lemma region_spans_spec spans hs :
  for_each region_span_of spans = Ok hs ->
  hs = map (fun sp => (rs_name sp, int_value (rs_pacts sp), rs_matches sp)) spans.
Proof.
  revert hs. induction spans as [ | sp spans IH]; intros hs; cbn [for_each map].
  - now intros [= <-].
  - unfold region_span_of at 1.
    destruct (py_int (rs_pacts sp)) as [n | e] eqn:Hn; [ | discriminate].
    cbn. destruct (for_each region_span_of spans) as [hs' | e]; [ | discriminate].
    intros [= <-]. now rewrite (IH hs' eq_refl), (py_int_value _ _ Hn).
Qed.

Lemma extract_step_spec schools rd sp out :
  extract_step (schools, rd)
    (rs_name sp, int_value (rs_pacts sp), rs_matches sp) = Ok out ->
  out = (schools ++ span_schools sp, <[rs_name sp := span_info sp]> rd).
Proof.
  unfold extract_step.
  destruct (span_loop (rs_name sp) (rs_matches sp) (schools, (0, 0, 0)))
    as [[schools' [[c p] u]] | e] eqn:L; [ | discriminate].
  apply span_loop_spec in L. injection L as -> -> -> ->.
  cbn. intros [= <-]. unfold span_info, span_schools. reflexivity.
Qed.

Lemma extract_fold_spec spans : forall schools rd out,
  fold_res extract_step
    (map (fun sp => (rs_name sp, int_value (rs_pacts sp), rs_matches sp)) spans)
    (schools, rd) = Ok out ->
  out = (schools ++ parsed_schools spans,
         fold_left (fun d sp => <[rs_name sp := span_info sp]> d) spans rd).
Proof.
  induction spans as [ | sp spans IH]; intros schools rd out;
    cbn [map fold_res fold_left].
  - intros [= <-]. unfold parsed_schools. cbn [map concat]. now rewrite app_nil_r.
  - destruct (extract_step (schools, rd) _) as [acc | e] eqn:S; [ | discriminate].
    apply extract_step_spec in S. subst acc. intros H. apply IH in H. subst out.
    unfold parsed_schools. cbn [map concat]. now rewrite app_assoc.
Qed.

Lemma extract_school_data_inv spans schools rd :
  extract_school_data spans = Ok (schools, rd) ->
  schools = parsed_schools spans /\
  rd = fold_left (fun d sp => <[rs_name sp := span_info sp]> d) spans ∅ /\
  int_printable (zsum (map s_pacts schools)) = true /\
  int_printable (total_region_pacts rd) = true.
Proof.
  unfold extract_school_data. destruct spans as [ | sp spans]; [discriminate | ].
  destruct (for_each region_span_of (sp :: spans)) as [hs | e] eqn:H1;
    [ | discriminate].
  apply region_spans_spec in H1. subst hs. cbn [mbind res_bind].
  destruct (fold_res extract_step _ _) as [[schools' rd'] | e] eqn:H2;
    [ | discriminate].
  apply extract_fold_spec in H2. cbn [app] in H2. injection H2 as -> ->.
  cbn [mbind res_bind].
  match goal with
  | |- context [if ?b then _ else _] => destruct b eqn:P; [ | discriminate]
  end.
  apply andb_true_iff in P as [P1 P2]. intros [= <- <-]. auto.
Qed.

Lemma extract_school_data_spec spans schools rd :
  extract_school_data spans = Ok (schools, rd) ->
  schools = parsed_schools spans /\
  rd = fold_left (fun d sp => <[rs_name sp := span_info sp]> d) spans ∅.
Proof.
  intros H. apply extract_school_data_inv in H. tauto.
Qed.

(** ** The geocoder and its cache *)

Lemma sorted_insert_In x y l : In x (sorted_insert y l) -> x = y \/ In x l.
Proof.
  induction l as [ | z l IH]; simpl.
  - intros [-> | []]. now left.
  - destruct (String.compare y z) eqn:C; simpl; intros H.
    + now right.
    + destruct H as [-> | H]; auto.
    + destruct H as [-> | H]; auto. destruct (IH H); auto.
Qed.

Lemma sorted_set_In x l : In x (sorted_set l) -> In x l.
Proof.
  induction l as [ | y l IH]; simpl; [tauto | ].
  intros H. apply sorted_insert_In in H. destruct H as [-> | H]; auto.
Qed.

Lemma new_postcodes_fresh (cached : cache) schools pc :
  In pc (new_postcodes cached schools) -> cached !! pc = None.
Proof.
  unfold new_postcodes. intros H. apply sorted_set_In in H.
  apply filter_In in H. destruct H as [_ H].
  apply andb_true_iff in H. destruct H as [_ H].
  now apply bool_decide_eq_true in H.
Qed.

Lemma batches_In (l b : list string) x : In b (batches l) -> In x b -> In x l.
Proof.
  unfold batches. intros Hb Hx. apply in_map_iff in Hb.
  destruct Hb as (j & <- & _).
  rewrite <- (take_drop (j * batch_size) l). apply in_or_app. right.
  rewrite <- (take_drop batch_size (drop (j * batch_size) l)).
  apply in_or_app. now left.
Qed.

Lemma apply_item_frame (cached : cache) item k :
  k <> item_key item -> apply_item cached item !! k = cached !! k.
Proof.
  intros Hk. unfold apply_item. fold (item_key item).
  destruct (result item) as [r | ]; [ | reflexivity].
  destruct (latitude r), (longitude r); try reflexivity.
  destruct (py_truthy _ && py_truthy _); [ | reflexivity].
  now rewrite lookup_insert_ne.
Qed.

Lemma apply_items_frame items : forall (cached : cache) k,
  (forall item, In item items -> k <> item_key item) ->
  fold_left apply_item items cached !! k = cached !! k.
Proof.
  induction items as [ | item items IH]; simpl; intros cached k H; [reflexivity | ].
  rewrite IH by auto. apply apply_item_frame. auto.
Qed.

Lemma resolve_batches_frame api bs : forall (cached : cache) k,
  (forall b item, In b bs -> In item (outcome_items (api b)) -> k <> item_key item) ->
  resolve_batches api cached bs !! k = cached !! k.
Proof.
  unfold resolve_batches.
  induction bs as [ | b bs IH]; simpl; intros cached k H; [reflexivity | ].
  rewrite IH by eauto. apply apply_items_frame. eauto.
Qed.

Lemma append_cons a s t : String a s +:+ t = String a (s +:+ t).
Proof. reflexivity. Qed.

Lemma append_empty_r s : s +:+ "" = s.
Proof.
  induction s as [ | a s IH]; [reflexivity | ].
  rewrite append_cons. congruence.
Qed.

Lemma append_assoc s t u : (s +:+ t) +:+ u = s +:+ (t +:+ u).
Proof.
  induction s as [ | a s IH]; [reflexivity | ].
  rewrite !append_cons. congruence.
Qed.

Lemma io_run_writes chunks : forall j text,
  fold_left io_run1 (take j (map Write chunks ++ [Close])) (Some text)
  = Some (text +:+ join_chunks (take j chunks)).
Proof.
  induction chunks as [ | c chunks IH]; intros j text.
  - destruct j as [ | [ | j]]; simpl; unfold join_chunks; simpl;
      now rewrite append_empty_r.
  - destruct j as [ | j]; simpl.
    + unfold join_chunks. simpl. now rewrite append_empty_r.
    + rewrite IH. unfold join_chunks. simpl. now rewrite append_assoc.
Qed.

(** The file after the first [k >= 1] steps of a rewrite holds the first
    [k - 1] chunks and nothing else. *)
Lemma io_run_prefix disk chunks k :
  io_run (take (S k) (dump_steps chunks)) disk = Some (join_chunks (take k chunks)).
Proof.
  unfold io_run, dump_steps. simpl. rewrite io_run_writes. reflexivity.
Qed.

Lemma io_run_complete disk chunks :
  io_run (dump_steps chunks) disk = Some (join_chunks chunks).
Proof.
  rewrite <- (take_ge (dump_steps chunks) (S (S (length chunks)))).
  - rewrite io_run_prefix. now rewrite take_ge by lia.
  - unfold dump_steps. simpl. rewrite length_app, length_map. simpl. lia.
Qed.

Lemma filter_map_geocoded (cached : cache) schools :
  Forall (fun s => py_ne_zero (s_lat s) = false) schools ->
  List.filter (fun s => py_ne_zero (s_lat s)) (map (assign_coords cached) schools)
  = omap (geocoded cached) schools.
Proof.
  induction 1 as [ | s schools Hs _ IH]; [reflexivity | ].
  simpl. rewrite IH. unfold assign_coords, geocoded.
  destruct (cached !! normalize_postcode (s_postcode s)) as [[la lo] | ]; simpl.
  - destruct (py_ne_zero la); reflexivity.
  - now rewrite Hs.
Qed.

Lemma extract_lat_zero spans schools rd :
  extract_school_data spans = Ok (schools, rd) ->
  Forall (fun s => py_ne_zero (s_lat s) = false) schools.
Proof.
  intros H. apply extract_school_data_spec in H as [-> _].
  unfold parsed_schools. apply List.Forall_forall. intros s Hs.
  apply in_concat in Hs as (l & Hl & Hs).
  apply in_map_iff in Hl as (sp & <- & _).
  unfold span_schools in Hs. apply in_map_iff in Hs as (m & <- & _).
  reflexivity.
Qed.

Lemma geocode_defined json_load json_encode api disk schools cached :
  load_cache json_load disk = Ok cached ->
  geocode_postcodes json_load json_encode api disk schools
  = Ok (List.filter (fun s => py_ne_zero (s_lat s))
          (map (assign_coords (cache_after api cached schools)) schools),
        disk_after json_encode api disk cached schools).
Proof. unfold geocode_postcodes. intros ->. reflexivity. Qed.

Lemma omap_geocoded_In (cached : cache) schools s' :
  In s' (omap (geocoded cached) schools) ->
  exists s la lo,
    In s schools /\
    cached !! normalize_postcode (s_postcode s) = Some (la, lo) /\
    py_ne_zero la = true /\ s' = with_coords s la lo.
Proof.
  induction schools as [ | s schools IH]; simpl; [tauto | ].
  unfold geocoded at 1.
  destruct (cached !! normalize_postcode (s_postcode s)) as [[la lo] | ] eqn:E.
  - destruct (py_ne_zero la) eqn:Hla; simpl.
    + intros [<- | H].
      * exists s, la, lo. auto.
      * destruct (IH H) as (s0 & la0 & lo0 & H1 & H2). exists s0, la0, lo0.
        split; [now right | exact H2].
    + intros H. destruct (IH H) as (s0 & la0 & lo0 & H1 & H2).
      exists s0, la0, lo0. split; [now right | exact H2].
  - intros H. destruct (IH H) as (s0 & la0 & lo0 & H1 & H2).
    exists s0, la0, lo0. split; [now right | exact H2].
Qed.

(** What the geocoder returns.  On the schools that the extraction
    produces, and whenever the cache file loads, it returns, in input
    order, the schools whose normalised postcode is in the cache after the
    run with a latitude different from zero, each carrying the cached
    pair. *)
Lemma geocode_returns_cached json_load json_encode api spans disk
    schools rd cached :
  extract_school_data spans = Ok (schools, rd) ->
  load_cache json_load disk = Ok cached ->
  let final := cache_after api cached schools in
  exists out disk',
    geocode_postcodes json_load json_encode api disk schools = Ok (out, disk') /\
    out = omap (geocoded final) schools /\
    Forall (fun s' =>
              exists s la lo,
                In s schools /\
                final !! normalize_postcode (s_postcode s) = Some (la, lo) /\
                py_ne_zero la = true /\ s' = with_coords s la lo) out /\
    (forall s, In s schools ->
               final !! normalize_postcode (s_postcode s) = None ->
               geocoded final s = None).
Proof.
  intros Hex Hload final.
  rewrite (geocode_defined _ _ _ _ _ _ Hload). fold final.
  rewrite (filter_map_geocoded final schools (extract_lat_zero _ _ _ Hex)).
  eexists _, _. split; [reflexivity | ]. split; [reflexivity | ]. split.
  - apply List.Forall_forall. intros s' Hs'. now apply omap_geocoded_In.
  - intros s _ Hnone. unfold geocoded. now rewrite Hnone.
Qed.

(** C7.  The code departs from the contract on two answers of the postcode
    service that do resolve the postcode of a school.  When the latitude
    of the answer rounds to 0.0 (here 0.000001), the pair is cached and
    assigned to the school, which is then removed by the filter on
    [lat != 0.0] as if it had no coordinates.  When the longitude of the
    answer is 0.0 (a point on the Greenwich meridian), the truthiness test
    on the answer discards it: nothing is cached and the school is dropped
    as unresolved. *)
Theorem resolved_school_dropped :
  let spans := [ {| rs_name := "Kent"; rs_pacts := "50";
                    rs_matches :=
                      [ {| g_address := "1 High Street"; g_high_age := "11";
                           g_low_age := "4"; g_pacts := "15";
                           g_postcode := "ZZ9 9ZZ"; g_pupils := "200";
                           g_school_id := "england/2";
                           g_school_name := "B" |} ] |} ] in
  exists s rd,
    extract_school_data spans = Ok ([s], rd) /\
    normalize_postcode (s_postcode s) = "ZZ99ZZ" /\
    (* latitude 0.000001 *)
    outcome_items (tiny_latitude_api ["ZZ99ZZ"])
      = [ {| query := Some "ZZ99ZZ";
             result := coords (decimal 1 6) (decimal (-15) 1) |} ] /\
    cache_after tiny_latitude_api ∅ [s] !! "ZZ99ZZ"
      = Some (PyFloat (S754_zero false), decimal (-15) 1) /\
    assign_coords (cache_after tiny_latitude_api ∅ [s]) s
      = with_coords s (PyFloat (S754_zero false)) (decimal (-15) 1) /\
    fst <$> geocode_postcodes sample_json_load (encode_as tiny_latitude_text)
              tiny_latitude_api None [s] = Ok [] /\
    (* longitude 0.0 *)
    outcome_items (meridian_api ["ZZ99ZZ"])
      = [ {| query := Some "ZZ99ZZ";
             result := coords (decimal 515 1) (PyFloat (S754_zero false)) |} ] /\
    fold_left apply_item (outcome_items (meridian_api ["ZZ99ZZ"])) ∅
      !! "ZZ99ZZ" = None /\
    cache_after meridian_api ∅ [s] !! "ZZ99ZZ" = None /\
    fst <$> geocode_postcodes sample_json_load (encode_as "{}")
              meridian_api None [s] = Ok [].
Proof.
  eexists _, _. split; [reflexivity | ].
  repeat apply conj; vm_compute; reflexivity.
Qed.

Lemma ascii_upper_idem c : ascii_upper (ascii_upper c) = ascii_upper c.
Proof. destruct c as [[] [] [] [] [] [] [] []]; reflexivity. Qed.

Lemma ascii_upper_space c : is_space (ascii_upper c) = is_space c.
Proof. destruct c as [[] [] [] [] [] [] [] []]; reflexivity. Qed.

Lemma ascii_upper_blank c : Ascii.eqb (ascii_upper c) " " = Ascii.eqb c " ".
Proof. destruct c as [[] [] [] [] [] [] [] []]; reflexivity. Qed.

Lemma py_upper_idem s : py_upper (py_upper s) = py_upper s.
Proof. induction s; simpl; [ | rewrite ascii_upper_idem]; congruence. Qed.

Lemma py_upper_lstrip s : py_upper (lstrip s) = lstrip (py_upper s).
Proof.
  induction s as [ | c s IH]; simpl; [reflexivity | ].
  rewrite ascii_upper_space. destruct (is_space c); auto.
Qed.

Lemma py_upper_rstrip s : py_upper (rstrip s) = rstrip (py_upper s).
Proof.
  induction s as [ | c s IH]; simpl; [reflexivity | ].
  rewrite <- IH, ascii_upper_space.
  destruct (rstrip s); simpl; [destruct (is_space c) | ]; reflexivity.
Qed.

Lemma py_upper_remove_spaces s :
  py_upper (remove_spaces s) = remove_spaces (py_upper s).
Proof.
  induction s as [ | c s IH]; simpl; [reflexivity | ].
  rewrite ascii_upper_blank. destruct (Ascii.eqb c " "); simpl; congruence.
Qed.

Lemma remove_spaces_idem s : remove_spaces (remove_spaces s) = remove_spaces s.
Proof.
  induction s as [ | c s IH]; simpl; [reflexivity | ].
  destruct (Ascii.eqb c " ") eqn:E; simpl; [ | rewrite E]; congruence.
Qed.

(** A normalised postcode is its own cache key. *)
Lemma normalize_postcode_key pc :
  remove_spaces (py_upper (normalize_postcode pc)) = normalize_postcode pc.
Proof.
  unfold normalize_postcode, py_strip.
  rewrite py_upper_remove_spaces, py_upper_rstrip, py_upper_lstrip, py_upper_idem.
  apply remove_spaces_idem.
Qed.

Lemma new_postcodes_normalized (cached : cache) schools pc :
  In pc (new_postcodes cached schools) ->
  exists s, In s schools /\ pc = normalize_postcode (s_postcode s).
Proof.
  unfold new_postcodes. intros H. apply sorted_set_In in H.
  apply filter_In in H. destruct H as [H _].
  apply in_map_iff in H. destruct H as (s & <- & Hs). eauto.
Qed.

Lemma cache_after_frame api (cached : cache) schools k v :
  api_echoes api -> cached !! k = Some v ->
  cache_after api cached schools !! k = Some v.
Proof.
  intros Hecho Hk. unfold cache_after.
  rewrite resolve_batches_frame; [exact Hk | ].
  intros b item Hb Hitem ->.
  destruct (Hecho b item Hitem) as (pc & Hpc & Hq).
  pose proof (batches_In _ _ _ Hb Hpc) as Hin.
  destruct (new_postcodes_normalized _ _ _ Hin) as (s & _ & ->).
  apply new_postcodes_fresh in Hin.
  unfold item_key in Hk. rewrite Hq in Hk. simpl in Hk.
  rewrite normalize_postcode_key in Hk. congruence.
Qed.

(** C10 (as amended). Provided the service answers only about the
    postcodes of the batch it was sent, every entry of the cache as loaded
    is in the cache after the run, with the same value, whatever batches
    fail; without a new postcode neither the cache nor the file changes,
    and with one the file is rewritten with the encoding of that cache. *)
Theorem cache_entries_preserved json_load json_encode api disk schools cached :
  load_cache json_load disk = Ok cached ->
  api_echoes api ->
  let final := cache_after api cached schools in
  (forall k v, cached !! k = Some v -> final !! k = Some v) /\
  (new_postcodes cached schools = [] ->
     final = cached /\
     disk_after json_encode api disk cached schools = disk) /\
  (new_postcodes cached schools <> [] ->
     disk_after json_encode api disk cached schools
     = Some (join_chunks (json_encode final))).
Proof.
  intros _ Hecho final. repeat apply conj.
  - intros k v. now apply cache_after_frame.
  - intros Hnil. unfold final, cache_after, disk_after. rewrite Hnil. auto.
  - intros Hne. unfold disk_after.
    destruct (new_postcodes cached schools); [congruence | ].
    apply io_run_complete.
Qed.

Lemma sample_api_echoes : api_echoes sample_api.
Proof.
  intros batch item Hin. simpl in Hin.
  apply in_map_iff in Hin. destruct Hin as (pc & <- & Hpc). eauto.
Qed.

Lemma cache_entries_preserved_witness :
  load_cache sample_json_load (Some sample_cache_text) = Ok sample_cache /\
  api_echoes sample_api /\
  cache_after sample_api sample_cache [school_a; school_z] !! "AB12CD"
    = Some (decimal 515 1, decimal 5 1).
Proof.
  split; [reflexivity | ]. split; [exact sample_api_echoes | ].
  exact (proj1 (cache_entries_preserved sample_json_load
                  (encode_as sample_new_text) sample_api
                  (Some sample_cache_text) [school_a; school_z] sample_cache
                  eq_refl sample_api_echoes) "AB12CD" _ eq_refl).
Defined.

(** C10 fails as stated: when the answer to a batch carries an item about
    a postcode that is already cached, the entry is overwritten. *)
Lemma stray_answer_counterexample :
  load_cache sample_json_load (Some sample_cache_text) = Ok sample_cache /\
  sample_cache !! "AB12CD" = Some (decimal 515 1, decimal 5 1) /\
  new_postcodes sample_cache [school_a; school_z] = ["ZZ99ZZ"] /\
  cache_after stray_api sample_cache [school_a; school_z] !! "AB12CD"
    = Some (decimal 100 1, decimal 200 1) /\
  decimal 100 1 <> decimal 515 1.
Proof.
  repeat apply conj; try (vm_compute; reflexivity).
  vm_compute. discriminate.
Qed.

(** A rewrite passes through the empty file. *)
Lemma crash_states_truncated disk chunks :
  In (Some EmptyString) (crash_states disk chunks).
Proof.
  unfold crash_states. apply in_map_iff. exists 1%nat. split.
  - apply (io_run_prefix disk chunks 0).
  - apply in_seq. unfold dump_steps. simpl. lia.
Qed.

Lemma crash_states_prefix disk chunks st :
  In st (crash_states disk chunks) ->
  st = disk \/ exists k, st = Some (join_chunks (take k chunks)).
Proof.
  unfold crash_states. intros H. apply in_map_iff in H.
  destruct H as (k & <- & _). destruct k as [ | k].
  - now left.
  - right. exists k. apply io_run_prefix.
Qed.

(** C6 (as amended). The cache is read from the file as it is before the
    run and the file is written only after the batches; the write is made
    in place, not by write-then-replace: the file is truncated when it is
    opened and then filled chunk by chunk, so at a crash it holds the old
    text (before the open) or some prefix of the new text, the empty file
    included; only the completed write leaves the whole new text. *)
Theorem cache_rewritten_in_place json_load json_encode api disk schools cached :
  load_cache json_load disk = Ok cached ->
  new_postcodes cached schools <> [] ->
  let chunks := json_encode (cache_after api cached schools) in
  (exists out,
     geocode_postcodes json_load json_encode api disk schools
     = Ok (out, Some (join_chunks chunks))) /\
  (forall st, In st (crash_states disk chunks) ->
     st = disk \/ exists k, st = Some (join_chunks (take k chunks))) /\
  In (Some EmptyString) (crash_states disk chunks) /\
  io_run (dump_steps chunks) disk = Some (join_chunks chunks).
Proof.
  intros Hload Hnew chunks. repeat apply conj.
  - rewrite (geocode_defined _ _ _ _ _ _ Hload). eexists. f_equal. f_equal.
    unfold disk_after. destruct (new_postcodes cached schools); [congruence | ].
    apply io_run_complete.
  - apply crash_states_prefix.
  - apply crash_states_truncated.
  - apply io_run_complete.
Qed.

Lemma cache_rewritten_in_place_witness :
  load_cache sample_json_load (Some sample_cache_text) = Ok sample_cache /\
  new_postcodes sample_cache [school_a; school_z] <> [] /\
  In (Some EmptyString)
     (crash_states (Some sample_cache_text)
        (encode_as sample_new_text
           (cache_after sample_api sample_cache [school_a; school_z]))).
Proof.
  split; [reflexivity | ]. split; [vm_compute; discriminate | ].
  refine (proj1 (proj2 (proj2
    (cache_rewritten_in_place sample_json_load (encode_as sample_new_text)
       sample_api (Some sample_cache_text) [school_a; school_z] sample_cache
       eq_refl _)))).
  vm_compute. discriminate.
Defined.

(** C6 fails as stated: in the sample run, a crash right after the cache
    file has been opened for writing leaves an empty file, which is
    neither the old cache nor the new one; the entry for AB12CD is lost. *)
Lemma truncation_counterexample :
  let disk := Some sample_cache_text in
  let schools := [school_a; school_z] in
  let chunks :=
    encode_as sample_new_text (cache_after sample_api sample_cache schools) in
  load_cache sample_json_load disk = Ok sample_cache /\
  new_postcodes sample_cache schools = ["ZZ99ZZ"] /\
  disk_after (encode_as sample_new_text) sample_api disk sample_cache schools
    = Some sample_new_text /\
  exists st,
    In st (crash_states disk chunks) /\
    st = Some EmptyString /\ st <> disk /\ st <> Some sample_new_text.
Proof.
  repeat apply conj; try (vm_compute; reflexivity).
  exists (Some EmptyString). repeat apply conj.
  - apply crash_states_truncated.
  - reflexivity.
  - vm_compute. discriminate.
  - vm_compute. discriminate.
Qed.

(** ** Association lists and the region aggregates *)

Lemma al_lookup_update {V : Type} (d : V) (f : V -> V) k k' (l : list (string * V)) :
  al_lookup k (al_update d f k' l)
  = if String.eqb k k' then Some (f (default d (al_lookup k' l)))
    else al_lookup k l.
Proof.
  induction l as [ | [k0 v] l IH]; simpl.
  - destruct (String.eqb k k'); reflexivity.
  - destruct (String.eqb_spec k' k0) as [-> | Hne]; simpl.
    + destruct (String.eqb k k0); reflexivity.
    + rewrite IH. destruct (String.eqb_spec k k0) as [-> | Hne2].
      * apply String.eqb_neq in Hne. rewrite String.eqb_sym, Hne. reflexivity.
      * reflexivity.
Qed.

Lemma al_update_keys {V : Type} (d : V) (f : V -> V) k' (l : list (string * V)) k :
  In k (map fst (al_update d f k' l)) <-> k = k' \/ In k (map fst l).
Proof.
  induction l as [ | [k0 v] l IH]; simpl.
  - intuition.
  - destruct (String.eqb_spec k' k0) as [-> | Hne]; simpl.
    + intuition.
    + rewrite IH. intuition.
Qed.

Lemma al_update_NoDup {V : Type} (d : V) (f : V -> V) k' (l : list (string * V)) :
  List.NoDup (map fst l) -> List.NoDup (map fst (al_update d f k' l)).
Proof.
  induction l as [ | [k0 v] l IH]; simpl; intros H.
  - constructor; [tauto | constructor].
  - inversion H as [ | ? ? Hnotin Hnd]; subst.
    destruct (String.eqb_spec k' k0) as [-> | Hne]; simpl.
    + now constructor.
    + constructor; [ | auto].
      rewrite al_update_keys. intros [-> | Hin]; tauto.
Qed.

Lemma al_lookup_In {V : Type} k (v : V) (l : list (string * V)) :
  List.NoDup (map fst l) -> In (k, v) l -> al_lookup k l = Some v.
Proof.
  induction l as [ | [k0 v0] l IH]; simpl; intros Hnd Hin; [tauto | ].
  inversion Hnd as [ | ? ? Hnotin Hnd']; subst.
  destruct Hin as [[= -> ->] | Hin].
  - now rewrite String.eqb_refl.
  - destruct (String.eqb_spec k k0) as [-> | Hne]; [ | auto].
    exfalso. apply Hnotin. apply in_map_iff. now exists (k0, v).
Qed.

Lemma al_lookup_None {V : Type} k (l : list (string * V)) :
  al_lookup k l = None <-> ~ In k (map fst l).
Proof.
  induction l as [ | [k0 v0] l IH]; simpl; [tauto | ].
  destruct (String.eqb_spec k k0) as [-> | Hne].
  - split; [discriminate | tauto].
  - rewrite IH. intuition.
Qed.

Lemma al_lookup_Some_In {V : Type} k (v : V) (l : list (string * V)) :
  al_lookup k l = Some v -> In (k, v) l.
Proof.
  induction l as [ | [k0 v0] l IH]; simpl; [discriminate | ].
  destruct (String.eqb_spec k k0) as [-> | Hne].
  - intros [= ->]. now left.
  - auto.
Qed.

Lemma agg_get_add_school field (g : school -> Z) agg s r :
  (forall rec, field {| r_pacts := r_pacts rec + s_pacts s;
                        r_pupils := r_pupils rec + s_pupils s;
                        r_school_count := r_school_count rec + 1;
                        r_pact_pct := r_pact_pct rec |} = field rec + g s) ->
  field region_default = 0 ->
  agg_get field (add_school agg s) r
  = agg_get field agg r + (if in_region r s then g s else 0).
Proof.
  intros Hf Hd. unfold agg_get, add_school, in_region.
  rewrite al_lookup_update.
  destruct (String.eqb_spec r (s_region s)) as [-> | Hne]; [ | lia].
  destruct (al_lookup (s_region s) agg); cbv [from_option id];
    rewrite Hf; [ | rewrite Hd]; lia.
Qed.

Lemma agg_get_fold field (g : school -> Z) schools r :
  (forall s rec, field {| r_pacts := r_pacts rec + s_pacts s;
                          r_pupils := r_pupils rec + s_pupils s;
                          r_school_count := r_school_count rec + 1;
                          r_pact_pct := r_pact_pct rec |} = field rec + g s) ->
  field region_default = 0 ->
  forall agg,
    agg_get field (fold_left add_school schools agg) r
    = agg_get field agg r + zsum (map g (List.filter (in_region r) schools)).
Proof.
  intros Hf Hd. induction schools as [ | s schools IH]; intros agg; simpl; [lia | ].
  rewrite IH, (agg_get_add_school field g) by auto.
  destruct (in_region r s); simpl; lia.
Qed.

Lemma zsum_ones {A : Type} (l : list A) :
  zsum (map (fun _ => 1) l) = Z.of_nat (length l).
Proof. induction l; simpl; lia. Qed.

(** The entry of [region_agg] for a region holds the sums over the schools
    of that region in the list given to [build_county_data]. *)
Lemma aggregate_regions_sums schools r :
  agg_get r_pacts (aggregate_regions schools) r = region_pacts schools r /\
  agg_get r_pupils (aggregate_regions schools) r = region_pupils schools r /\
  agg_get r_school_count (aggregate_regions schools) r = region_count schools r.
Proof.
  unfold aggregate_regions, region_pacts, region_pupils, region_count.
  repeat apply conj.
  - now rewrite (agg_get_fold r_pacts s_pacts).
  - now rewrite (agg_get_fold r_pupils s_pupils).
  - rewrite (agg_get_fold r_school_count (fun _ => 1)) by reflexivity.
    now rewrite zsum_ones.
Qed.

Lemma aggregate_regions_keys schools : forall agg r,
  In r (map fst (fold_left add_school schools agg))
  <-> In r (map fst agg) \/ exists s, In s schools /\ s_region s = r.
Proof.
  induction schools as [ | s schools IH]; intros agg r; simpl.
  - split; [tauto | ]. intros [H | (s & [] & _)]. exact H.
  - rewrite IH. unfold add_school at 1. rewrite al_update_keys.
    split.
    + intros [[-> | H] | (s' & H1 & H2)]; eauto.
    + intros [H | (s' & [-> | H1] & H2)]; eauto.
Qed.

Lemma aggregate_regions_NoDup schools :
  List.NoDup (map fst (aggregate_regions schools)).
Proof.
  unfold aggregate_regions.
  assert (G : forall agg, List.NoDup (map fst agg) ->
                          List.NoDup (map fst (fold_left add_school schools agg))).
  { induction schools as [ | s schools IH]; intros agg H; simpl; [exact H | ].
    apply IH. now apply al_update_NoDup. }
  apply G. constructor.
Qed.

Lemma for_each_Forall2 {A B : Type} (f : A -> res B) l : forall l',
  for_each f l = Ok l' -> Forall2 (fun x y => f x = Ok y) l l'.
Proof.
  induction l as [ | x l IH]; simpl; intros l'.
  - intros [= <-]. constructor.
  - destruct (f x) as [y | e] eqn:E; [ | discriminate].
    destruct (for_each f l) as [ys | e]; [ | discriminate].
    intros [= <-]. constructor; auto.
Qed.

Lemma for_each_defined {A B : Type} (f : A -> res B) l :
  Forall (fun x => exists y, f x = Ok y) l -> exists l', for_each f l = Ok l'.
Proof.
  induction 1 as [ | x l [y Hy] _ [ys IH]]; simpl.
  - eexists; reflexivity.
  - rewrite Hy, IH. eexists; reflexivity.
Qed.

Lemma region_metric_counts item item' :
  region_metric item = Ok item' ->
  fst item' = fst item /\
  r_pacts (snd item') = r_pacts (snd item) /\
  r_pupils (snd item') = r_pupils (snd item) /\
  r_school_count (snd item') = r_school_count (snd item).
Proof.
  destruct item as [name r]. rewrite region_metric_spec.
  destruct (engagement_pct _ _) as [p | e]; simpl; [ | discriminate].
  intros [= <-]. simpl. auto.
Qed.

Lemma region_metrics_same_counts agg agg' :
  for_each region_metric agg = Ok agg' -> same_counts agg agg'.
Proof.
  intros H. apply for_each_Forall2 in H. unfold same_counts.
  induction H as [ | x y l l' Hxy _ IH]; constructor; auto.
  now apply region_metric_counts.
Qed.

Lemma same_counts_keys agg agg' :
  same_counts agg agg' -> map fst agg' = map fst agg.
Proof.
  induction 1 as [ | x y l l' (H & _) _ IH]; simpl; congruence.
Qed.

Lemma same_counts_lookup agg agg' k :
  same_counts agg agg' ->
  match al_lookup k agg, al_lookup k agg' with
  | Some r, Some r' =>
      r_pacts r' = r_pacts r /\ r_pupils r' = r_pupils r /\
      r_school_count r' = r_school_count r
  | None, None => True
  | _, _ => False
  end.
Proof.
  induction 1 as [ | [n r] [n' r'] l l' (H1 & H2) _ IH]; simpl; [exact I | ].
  simpl in H1, H2. subst n'. destruct (String.eqb k n); auto.
Qed.

Lemma same_counts_agg_get agg agg' k :
  same_counts agg agg' ->
  agg_get r_pacts agg' k = agg_get r_pacts agg k /\
  agg_get r_pupils agg' k = agg_get r_pupils agg k /\
  agg_get r_school_count agg' k = agg_get r_school_count agg k.
Proof.
  intros H. pose proof (same_counts_lookup agg agg' k H) as L.
  unfold agg_get.
  destruct (al_lookup k agg), (al_lookup k agg'); tauto.
Qed.

Lemma str_mem_In k l : str_mem k l = true <-> In k l.
Proof.
  unfold str_mem. rewrite existsb_exists. split.
  - intros (x & Hx & E). apply String.eqb_eq in E. now subst.
  - intros H. exists k. split; [exact H | apply String.eqb_refl].
Qed.

Lemma str_mem_false k l : str_mem k l = false <-> ~ In k l.
Proof.
  rewrite <- str_mem_In. destruct (str_mem k l); split; congruence.
Qed.

(** ** The broadcast step *)

Lemma broadcast_fold_entry n p u c cs : forall st k,
  county_entry (fold_left (broadcast_to n p u c) cs st) k
  = (if str_mem k cs then (Some p, Some u, Some c, Some (national_label n))
     else county_entry st k) /\
  already_mapped (fold_left (broadcast_to n p u c) cs st) = already_mapped st.
Proof.
  induction cs as [ | c0 cs IH]; intros st k; simpl; [auto | ].
  destruct (IH (broadcast_to n p u c st c0) k) as [-> ->]. split; [ | reflexivity].
  destruct (str_mem k cs) eqn:E; [now rewrite orb_true_r | ].
  rewrite orb_false_r. unfold county_entry, broadcast_to. simpl.
  destruct (String.eqb_spec k c0) as [-> | Hne].
  - now rewrite !lookup_insert_eq.
  - now rewrite !lookup_insert_ne by congruence.
Qed.

Lemma national_step_entry agg st n cs k :
  county_entry (national_step agg st (n, cs)) k
  = if national_active agg n && str_mem k cs
    then (Some (agg_get r_pacts agg n), Some (agg_get r_pupils agg n),
          Some (agg_get r_school_count agg n), Some (national_label n))
    else county_entry st k.
Proof.
  unfold national_step, national_active.
  destruct ((agg_get r_pacts agg n >? 0) || (agg_get r_school_count agg n >? 0));
    simpl; [ | reflexivity].
  change (county_entry (claim_region n ?s) k) with (county_entry s k).
  apply broadcast_fold_entry.
Qed.

Lemma national_step_claims agg st n cs x :
  x ∈ already_mapped (national_step agg st (n, cs))
  <-> x ∈ already_mapped st \/ x = n.
Proof.
  unfold national_step. simpl.
  destruct ((agg_get r_pacts agg n >? 0) || (agg_get r_school_count agg n >? 0)).
  - rewrite (proj2 (broadcast_fold_entry _ _ _ _ _ _ x)). set_solver.
  - set_solver.
Qed.

Lemma national_fold_keep agg rules : forall st n k,
  national_active agg n = true ->
  (forall n' cs', In (n', cs') rules -> In k cs' -> n' = n) ->
  county_entry st k
  = (Some (agg_get r_pacts agg n), Some (agg_get r_pupils agg n),
     Some (agg_get r_school_count agg n), Some (national_label n)) ->
  county_entry (fold_left (national_step agg) rules st) k
  = (Some (agg_get r_pacts agg n), Some (agg_get r_pupils agg n),
     Some (agg_get r_school_count agg n), Some (national_label n)).
Proof.
  induction rules as [ | [n' cs'] rules IH]; intros st n k Hact Hown Hst;
    cbn [fold_left]; [exact Hst | ].
  apply IH; [exact Hact | intros a b Ha Hb; apply (Hown a b (in_cons _ _ _ Ha) Hb) | ].
  rewrite national_step_entry.
  destruct (str_mem k cs') eqn:E.
  - apply str_mem_In in E. rewrite (Hown n' cs' (or_introl eq_refl) E), Hact.
    reflexivity.
  - now rewrite andb_false_r.
Qed.

Lemma national_fold_hit agg rules : forall st n cs k,
  In (n, cs) rules -> In k cs ->
  national_active agg n = true ->
  (forall n' cs', In (n', cs') rules -> In k cs' -> n' = n) ->
  county_entry (fold_left (national_step agg) rules st) k
  = (Some (agg_get r_pacts agg n), Some (agg_get r_pupils agg n),
     Some (agg_get r_school_count agg n), Some (national_label n)).
Proof.
  induction rules as [ | [n' cs'] rules IH]; intros st n cs k Hin Hk Hact Hown;
    cbn [fold_left]; [destruct Hin | ].
  destruct Hin as [[= -> ->] | Hin].
  - apply national_fold_keep; [exact Hact | intros a b Ha Hb; apply (Hown a b (in_cons _ _ _ Ha) Hb) | ].
    rewrite national_step_entry, Hact.
    now rewrite (proj2 (str_mem_In k cs) Hk).
  - eapply IH; eauto. intros a b Ha Hb; apply (Hown a b (in_cons _ _ _ Ha) Hb).
Qed.

Lemma national_fold_frame agg rules : forall st k,
  (forall n cs, In (n, cs) rules -> ~ In k cs) ->
  county_entry (fold_left (national_step agg) rules st) k = county_entry st k.
Proof.
  induction rules as [ | [n cs] rules IH]; intros st k H; cbn [fold_left];
    [reflexivity | ].
  rewrite IH by (intros a b Ha; apply (H a b (in_cons _ _ _ Ha))).
  rewrite national_step_entry.
  rewrite (proj2 (str_mem_false k cs)) by (apply (H n cs); now left).
  now rewrite andb_false_r.
Qed.

Lemma national_fold_claims agg rules : forall st x,
  x ∈ already_mapped (fold_left (national_step agg) rules st)
  <-> x ∈ already_mapped st \/ In x (map fst rules).
Proof.
  induction rules as [ | [n cs] rules IH]; intros st x;
    cbn [fold_left map fst In]; [tauto | ].
  rewrite IH, national_step_claims. intuition.
Qed.

(** ** The merge step *)

Lemma merge_step_entry agg st g names k :
  county_entry (merge_step agg st (g, names)) k
  = if String.eqb k g && merge_active agg names
    then (Some (zsum (map (agg_get r_pacts agg) names)),
          Some (zsum (map (agg_get r_pupils agg) names)),
          Some (zsum (map (agg_get r_school_count agg) names)),
          if (1 <? length (merge_parts agg names))%nat
          then Some (py_join " + " (merge_parts agg names))
          else county_labels st !! k)
    else county_entry st k.
Proof.
  unfold merge_step, merge_active, county_entry.
  destruct ((zsum (map (agg_get r_pacts agg) names) >? 0)
            || (zsum (map (agg_get r_school_count agg) names) >? 0)); simpl;
    [ | now rewrite andb_false_r].
  rewrite andb_true_r.
  destruct (String.eqb_spec k g) as [-> | Hne].
  - rewrite !lookup_insert_eq.
    destruct (1 <? length (merge_parts agg names))%nat;
      [now rewrite lookup_insert_eq | reflexivity].
  - rewrite !lookup_insert_ne by congruence.
    destruct (1 <? length (merge_parts agg names))%nat;
      [now rewrite lookup_insert_ne by congruence | reflexivity].
Qed.

Lemma merge_step_claims agg st g names x :
  x ∈ already_mapped (merge_step agg st (g, names))
  <-> x ∈ already_mapped st \/ In x names.
Proof.
  unfold merge_step.
  destruct ((zsum (map (agg_get r_pacts agg) names) >? 0)
            || (zsum (map (agg_get r_school_count agg) names) >? 0)); simpl;
    rewrite elem_of_union, elem_of_list_to_set, list_elem_of_In; reflexivity.
Qed.

Lemma merge_fold_frame agg rules : forall st k,
  ~ In k (map fst rules) ->
  county_entry (fold_left (merge_step agg) rules st) k = county_entry st k.
Proof.
  induction rules as [ | [g names] rules IH]; intros st k H; cbn [fold_left];
    [reflexivity | ].
  cbn [map fst In] in H. rewrite IH by tauto. rewrite merge_step_entry.
  destruct (String.eqb_spec k g) as [-> | Hne]; [tauto | reflexivity].
Qed.

Lemma merge_fold_label agg rules : forall st g names,
  List.NoDup (map fst rules) -> In (g, names) rules ->
  county_labels (fold_left (merge_step agg) rules st) !! g
  = if merge_active agg names && (1 <? length (merge_parts agg names))%nat
    then Some (py_join " + " (merge_parts agg names))
    else county_labels st !! g.
Proof.
  induction rules as [ | [g0 names0] rules IH]; intros st g names Hnd Hin;
    cbn [fold_left]; [destruct Hin | ].
  cbn [map fst] in Hnd. inversion Hnd as [ | ? ? Hnotin Hnd']; subst.
  destruct Hin as [[= -> ->] | Hin].
  - pose proof (merge_fold_frame agg rules (merge_step agg st (g, names)) g Hnotin)
      as F.
    rewrite merge_step_entry, String.eqb_refl in F. unfold county_entry in F.
    simpl in F. destruct (merge_active agg names); simpl in *.
    + destruct (1 <? length (merge_parts agg names))%nat; congruence.
    + congruence.
  - rewrite (IH _ g names Hnd' Hin).
    assert (Hne : g <> g0).
    { intros ->. apply Hnotin. apply in_map_iff. now exists (g0, names). }
    pose proof (merge_step_entry agg st g0 names0 g) as E.
    apply String.eqb_neq in Hne. rewrite Hne in E. cbn [andb] in E.
    unfold county_entry in E.
    assert (L : county_labels (merge_step agg st (g0, names0)) !! g
                = county_labels st !! g) by congruence.
    now rewrite L.
Qed.

Lemma merge_fold_claims agg rules : forall st x,
  x ∈ already_mapped (fold_left (merge_step agg) rules st)
  <-> x ∈ already_mapped st \/ In x (concat (map snd rules)).
Proof.
  induction rules as [ | [g names] rules IH]; intros st x;
    cbn [fold_left map snd concat]; [simpl; tauto | ].
  rewrite IH, merge_step_claims, in_app_iff. tauto.
Qed.

(** ** The direct-match loop *)

Lemma direct_step_claims names acc item :
  already_mapped (fst (direct_step names acc item)) = already_mapped (fst acc) /\
  county_labels (fst (direct_step names acc item)) = county_labels (fst acc).
Proof.
  destruct acc as [st w], item as [n r]. unfold direct_step.
  destruct (bool_decide _); [auto | ].
  destruct (str_in _ _); [auto | ].
  destruct (negb _); auto.
Qed.

Lemma direct_fold_claims names items : forall acc,
  already_mapped (fst (fold_left (direct_step names) items acc))
    = already_mapped (fst acc) /\
  county_labels (fst (fold_left (direct_step names) items acc))
    = county_labels (fst acc).
Proof.
  induction items as [ | item items IH]; intros acc; cbn [fold_left]; [auto | ].
  destruct (IH (direct_step names acc item)) as [-> ->].
  apply direct_step_claims.
Qed.

Lemma direct_step_warned names st w item :
  snd (direct_step names (st, w) item)
  = w ++ (if direct_warns st names item then [fst item] else []).
Proof.
  destruct item as [n r]. unfold direct_step, direct_warns. simpl.
  destruct (bool_decide _); simpl; [now rewrite app_nil_r | ].
  destruct (str_in _ _); simpl; [now rewrite app_nil_r | ].
  destruct (in_omitted n); simpl; [now rewrite app_nil_r | reflexivity].
Qed.

(** The regions warned about are, in the order of [region_agg], those that
    no table claims and whose (renamed) name is not a boundary name. *)
Lemma direct_fold_warned names items : forall st w,
  snd (fold_left (direct_step names) items (st, w))
  = w ++ map fst (List.filter (direct_warns st names) items).
Proof.
  induction items as [ | item items IH]; intros st w; cbn [fold_left].
  - simpl. now rewrite app_nil_r.
  - pose proof (direct_step_claims names (st, w) item) as [Hc _].
    pose proof (direct_step_warned names st w item) as Hw.
    destruct (direct_step names (st, w) item) as [st' w']. simpl in Hc, Hw.
    rewrite IH, Hw. simpl.
    assert (Hf : List.filter (direct_warns st' names) items
                 = List.filter (direct_warns st names) items).
    { apply filter_ext. intros x. unfold direct_warns. now rewrite Hc. }
    rewrite Hf. destruct (direct_warns st names item); simpl.
    + now rewrite <- app_assoc.
    + now rewrite app_nil_r.
Qed.

Lemma direct_step_entry names st w n r k :
  county_entry (fst (direct_step names (st, w) (n, r))) k
  = if negb (bool_decide (n ∈ already_mapped st))
       && str_in (rename_target n) names && String.eqb k (rename_target n)
    then (Some (r_pacts r), Some (r_pupils r), Some (r_school_count r),
          county_labels st !! k)
    else county_entry st k.
Proof.
  unfold direct_step. destruct (bool_decide _); simpl; [reflexivity | ].
  destruct (str_in _ _); simpl.
  - unfold county_entry. simpl.
    destruct (String.eqb_spec k (rename_target n)) as [-> | Hne].
    + now rewrite !lookup_insert_eq.
    + now rewrite !lookup_insert_ne by congruence.
  - destruct (negb _); reflexivity.
Qed.

Lemma direct_fold_frame names items : forall st w k,
  (forall n r, In (n, r) items -> n ∉ already_mapped st -> rename_target n <> k) ->
  county_entry (fst (fold_left (direct_step names) items (st, w))) k
  = county_entry st k.
Proof.
  induction items as [ | [n r] items IH]; intros st w k H; cbn [fold_left];
    [reflexivity | ].
  pose proof (direct_step_claims names (st, w) (n, r)) as [Hc _].
  pose proof (direct_step_entry names st w n r k) as He.
  destruct (direct_step names (st, w) (n, r)) as [st' w']. simpl in Hc, He.
  rewrite IH.
  - rewrite He. destruct (bool_decide (n ∈ already_mapped st)) eqn:B; simpl;
      [reflexivity | ].
    apply bool_decide_eq_false in B.
    destruct (String.eqb_spec k (rename_target n)) as [-> | Hne].
    + exfalso. apply (H n r); auto. now left.
    + now rewrite andb_false_r.
  - intros n' r' Hin Hn'. rewrite Hc in Hn'. apply (H n' r'); auto. now right.
Qed.

Lemma direct_fold_hit names items : forall st w n r,
  List.NoDup (map fst items) -> In (n, r) items ->
  n ∉ already_mapped st ->
  str_in (rename_target n) names = true ->
  (forall n' r', In (n', r') items -> n' ∉ already_mapped st -> n' <> n ->
                 rename_target n' <> rename_target n) ->
  let st' := fst (fold_left (direct_step names) items (st, w)) in
  county_pacts st' !! rename_target n = Some (r_pacts r) /\
  county_pupils st' !! rename_target n = Some (r_pupils r) /\
  county_schools st' !! rename_target n = Some (r_school_count r).
Proof.
  induction items as [ | [n0 r0] items IH]; intros st w n r Hnd Hin Hn Hstr Hinj;
    cbn [fold_left]; [destruct Hin | ].
  cbn [map fst] in Hnd. inversion Hnd as [ | ? ? Hnotin Hnd']; subst.
  pose proof (direct_step_claims names (st, w) (n0, r0)) as [Hc _].
  pose proof (direct_step_entry names st w n0 r0 (rename_target n)) as He.
  destruct (direct_step names (st, w) (n0, r0)) as [st1 w1]. simpl in Hc, He.
  destruct Hin as [[= -> ->] | Hin].
  - assert (F : county_entry (fst (fold_left (direct_step names) items (st1, w1)))
                  (rename_target n) = county_entry st1 (rename_target n)).
    { apply direct_fold_frame.
      intros n' r' Hin' Hn'. rewrite Hc in Hn'. apply (Hinj n' r'); auto.
      - now right.
      - intros ->. apply Hnotin. apply in_map_iff. now exists (n, r'). }
    rewrite (bool_decide_eq_false_2 _ Hn), Hstr, String.eqb_refl in He.
    cbn [negb andb] in He. rewrite He in F. unfold county_entry in F.
    cbv zeta. injection F as -> -> -> _. auto.
  - apply IH; auto.
    + now rewrite Hc.
    + intros n' r' Hin' Hn'. rewrite Hc in Hn'. apply (Hinj n' r'); auto.
      now right.
Qed.

(** ** Facts about the mapping tables *)

Lemma merge_keys_NoDup : List.NoDup (map fst MERGE_MAP).
Proof. apply NoDup_ListNoDup. apply (bool_decide_unpack _). vm_compute. exact I. Qed.

Lemma merge_keys_not_national g n cs :
  In g (map fst MERGE_MAP) -> In (n, cs) NATIONAL_REGIONS -> ~ In g cs.
Proof.
  assert (H : Forall (fun g => Forall (fun rule => g ∉ snd rule) NATIONAL_REGIONS)
                     (map fst MERGE_MAP)).
  { apply (bool_decide_unpack _). vm_compute. exact I. }
  intros Hg Hr Hin. rewrite List.Forall_forall in H. specialize (H g Hg).
  rewrite List.Forall_forall in H. apply (H (n, cs) Hr).
  now apply list_elem_of_In.
Qed.

Lemma national_targets_owner n cs n' cs' k :
  In (n, cs) NATIONAL_REGIONS -> In (n', cs') NATIONAL_REGIONS ->
  In k cs -> In k cs' -> n' = n.
Proof.
  assert (H : Forall (fun r => Forall (fun r' =>
                Forall (fun k => (k ∈ snd r') -> fst r' = fst r) (snd r))
                  NATIONAL_REGIONS) NATIONAL_REGIONS).
  { apply (bool_decide_unpack _). vm_compute. exact I. }
  intros Hr Hr' Hk Hk'. rewrite List.Forall_forall in H. specialize (H _ Hr).
  rewrite List.Forall_forall in H. specialize (H _ Hr').
  rewrite List.Forall_forall in H. apply (H k Hk).
  now apply list_elem_of_In.
Qed.

Lemma rename_keys_claimed n t :
  al_lookup n RENAME_MAP = Some t -> In n claimed_names.
Proof.
  assert (H : Forall (fun kv => fst kv ∈ claimed_names) RENAME_MAP).
  { apply (bool_decide_unpack _). vm_compute. exact I. }
  intros L. apply al_lookup_Some_In in L. rewrite List.Forall_forall in H.
  apply list_elem_of_In. apply (H (n, t) L).
Qed.

Lemma rename_target_unclaimed n : ~ In n claimed_names -> rename_target n = n.
Proof.
  intros H. unfold rename_target.
  destruct (al_lookup n RENAME_MAP) as [t | ] eqn:L; [ | reflexivity].
  exfalso. apply H. eapply rename_keys_claimed; eauto.
Qed.

(** No region name is claimed by two of the three tables. *)
Lemma tables_exclusive n :
  (In n merge_sources -> ~ In n national_names /\ ~ In n OMITTED) /\
  (In n national_names -> ~ In n OMITTED).
Proof.
  assert (H1 : Forall (fun n => (n ∉ national_names) /\ (n ∉ OMITTED)) merge_sources).
  { apply (bool_decide_unpack _). vm_compute. exact I. }
  assert (H2 : Forall (fun n => n ∉ OMITTED) national_names).
  { apply (bool_decide_unpack _). vm_compute. exact I. }
  rewrite List.Forall_forall in H1, H2. split.
  - intros Hn. destruct (H1 n Hn) as [A B]. rewrite !list_elem_of_In in *. auto.
  - intros Hn. specialize (H2 n Hn). now rewrite list_elem_of_In in H2.
Qed.

Lemma merge_rules_short g names :
  In (g, names) MERGE_MAP -> (length names <= 8)%nat.
Proof.
  assert (H : Forall (fun rule => (length (snd rule) <= 8)%nat) MERGE_MAP).
  { repeat constructor. }
  intros Hin. rewrite List.Forall_forall in H. apply (H (g, names) Hin).
Qed.

(** ** The three mapping steps together *)

Lemma map_regions_unfold agg names :
  map_regions agg names
  = fold_left (direct_step names) agg (claimed_state agg, []).
Proof. reflexivity. Qed.

Lemma claimed_state_claims agg x :
  x ∈ already_mapped (claimed_state agg) <-> In x claimed_names.
Proof.
  unfold claimed_state, claim_omitted, claimed_names. cbn [already_mapped].
  rewrite elem_of_union, elem_of_list_to_set, list_elem_of_In.
  rewrite national_fold_claims, merge_fold_claims.
  fold merge_sources national_names. rewrite !in_app_iff.
  cbn [empty_state already_mapped]. rewrite elem_of_empty. tauto.
Qed.

Lemma map_regions_claims agg names x :
  x ∈ already_mapped (fst (map_regions agg names)) <-> In x claimed_names.
Proof.
  rewrite map_regions_unfold.
  rewrite (proj1 (direct_fold_claims names agg (claimed_state agg, []))).
  apply claimed_state_claims.
Qed.

Lemma direct_warns_claimed_state agg names item :
  direct_warns (claimed_state agg) names item
  = unclaimed (fst item) && negb (str_in (rename_target (fst item)) names).
Proof.
  unfold direct_warns, unclaimed.
  assert (E : bool_decide (fst item ∈ already_mapped (claimed_state agg))
              = str_mem (fst item) claimed_names).
  { destruct (str_mem (fst item) claimed_names) eqn:M.
    - apply bool_decide_eq_true. apply claimed_state_claims. now apply str_mem_In.
    - apply bool_decide_eq_false. rewrite claimed_state_claims.
      now apply str_mem_false. }
  rewrite E. destruct (str_mem (fst item) claimed_names) eqn:M; [reflexivity | ].
  simpl. destruct (str_in _ _); simpl; [reflexivity | ].
  assert (O : in_omitted (fst item) = false).
  { unfold in_omitted. fold (str_mem (fst item) OMITTED).
    apply str_mem_false. apply str_mem_false in M. intros Hin. apply M.
    unfold claimed_names. rewrite !in_app_iff. tauto. }
  now rewrite O.
Qed.

(** The regions warned about by the mapping. *)
Lemma map_regions_warned agg names :
  snd (map_regions agg names)
  = map fst (List.filter
               (fun item => unclaimed (fst item)
                            && negb (str_in (rename_target (fst item)) names))
               agg).
Proof.
  rewrite map_regions_unfold, direct_fold_warned. simpl. f_equal.
  apply filter_ext. intros item. apply direct_warns_claimed_state.
Qed.

(** The label of a merge target in the final state. *)
Lemma map_regions_merge_label agg names g sfc_names :
  In (g, sfc_names) MERGE_MAP ->
  county_labels (fst (map_regions agg names)) !! g
  = if merge_active agg sfc_names && (1 <? length (merge_parts agg sfc_names))%nat
    then Some (py_join " + " (merge_parts agg sfc_names))
    else None.
Proof.
  intros Hin. rewrite map_regions_unfold.
  rewrite (proj2 (direct_fold_claims names agg (claimed_state agg, []))).
  unfold claimed_state. cbn [fst claim_omitted county_labels].
  assert (Hg : In g (map fst MERGE_MAP)).
  { apply in_map_iff. now exists (g, sfc_names). }
  pose proof (national_fold_frame agg NATIONAL_REGIONS
                (fold_left (merge_step agg) MERGE_MAP empty_state) g
                (fun n cs Hr => merge_keys_not_national g n cs Hg Hr)) as F.
  unfold county_entry in F.
  assert (L : county_labels (fold_left (national_step agg) NATIONAL_REGIONS
                (fold_left (merge_step agg) MERGE_MAP empty_state)) !! g
              = county_labels (fold_left (merge_step agg) MERGE_MAP empty_state) !! g)
    by congruence.
  rewrite L, (merge_fold_label agg MERGE_MAP empty_state g sfc_names
                merge_keys_NoDup Hin).
  cbn [empty_state county_labels]. now rewrite lookup_empty.
Qed.

(** The entry of a broadcast target in the final state, when no unclaimed
    region of the aggregate carries the name of that county. *)
Lemma map_regions_broadcast agg names n cs k :
  In (n, cs) NATIONAL_REGIONS -> In k cs ->
  national_active agg n = true ->
  (forall r, In r (map fst agg) -> r <> k) ->
  county_entry (fst (map_regions agg names)) k
  = (Some (agg_get r_pacts agg n), Some (agg_get r_pupils agg n),
     Some (agg_get r_school_count agg n), Some (national_label n)).
Proof.
  intros Hr Hk Hact Hfree. rewrite map_regions_unfold.
  rewrite direct_fold_frame.
  - unfold claimed_state.
    change (county_entry (claim_omitted ?s) k) with (county_entry s k).
    apply (national_fold_hit agg NATIONAL_REGIONS _ n cs k Hr Hk Hact).
    intros n' cs' Hr' Hk'. eapply national_targets_owner; eauto.
  - intros r rec Hin Hun Heq.
    rewrite claimed_state_claims in Hun.
    rewrite (rename_target_unclaimed r Hun) in Heq.
    apply (Hfree r); [ | exact Heq]. apply in_map_iff. now exists (r, rec).
Qed.

(** The entry of a directly matched region in the final state. *)
Lemma map_regions_direct agg names r rec :
  List.NoDup (map fst agg) -> In (r, rec) agg ->
  ~ In r claimed_names -> str_in r names = true ->
  let st := fst (map_regions agg names) in
  county_pacts st !! r = Some (r_pacts rec) /\
  county_pupils st !! r = Some (r_pupils rec) /\
  county_schools st !! r = Some (r_school_count rec).
Proof.
  intros Hnd Hin Hun Hstr. rewrite map_regions_unfold.
  pose proof (direct_fold_hit names agg (claimed_state agg) [] r rec Hnd Hin) as H.
  rewrite (rename_target_unclaimed r Hun) in H. apply H; auto.
  - now rewrite claimed_state_claims.
  - intros n' r' _ Hn' Hne. rewrite claimed_state_claims in Hn'.
    now rewrite (rename_target_unclaimed n' Hn').
Qed.

Lemma national_fold_inactive agg rules : forall st k,
  (forall n cs, In (n, cs) rules -> In k cs -> national_active agg n = false) ->
  county_entry (fold_left (national_step agg) rules st) k = county_entry st k.
Proof.
  induction rules as [ | [n cs] rules IH]; intros st k H; cbn [fold_left];
    [reflexivity | ].
  rewrite IH by (intros a b Ha; apply (H a b (in_cons _ _ _ Ha))).
  rewrite national_step_entry.
  destruct (str_mem k cs) eqn:M; [ | now rewrite andb_false_r].
  apply str_mem_In in M. now rewrite (H n cs (or_introl eq_refl) M).
Qed.

Lemma national_targets_named n cs k :
  In (n, cs) NATIONAL_REGIONS -> In k cs -> pyval_truthy (VStr k) = true.
Proof.
  assert (H : Forall (fun rule => Forall (fun k => pyval_truthy (VStr k) = true)
                                         (snd rule)) NATIONAL_REGIONS).
  { repeat constructor. }
  intros Hr Hk. rewrite List.Forall_forall in H. specialize (H _ Hr).
  rewrite List.Forall_forall in H. apply (H k Hk).
Qed.

(** The entry of a broadcast target when the region has no data. *)
Lemma map_regions_no_broadcast agg names n cs k :
  In (n, cs) NATIONAL_REGIONS -> In k cs ->
  national_active agg n = false ->
  (forall r, In r (map fst agg) -> r <> k) ->
  county_entry (fst (map_regions agg names)) k = (None, None, None, None).
Proof.
  intros Hr Hk Hact Hfree. rewrite map_regions_unfold.
  rewrite direct_fold_frame.
  - unfold claimed_state.
    change (county_entry (claim_omitted ?s) k) with (county_entry s k).
    rewrite national_fold_inactive.
    + rewrite merge_fold_frame.
      * unfold county_entry. simpl. now rewrite !lookup_empty.
      * intros Hg. exact (merge_keys_not_national k n cs Hg Hr Hk).
    + intros n' cs' Hr' Hk'.
      now rewrite (national_targets_owner n cs n' cs' k Hr Hr' Hk Hk').
  - intros r rec Hin Hun Heq.
    rewrite claimed_state_claims in Hun.
    rewrite (rename_target_unclaimed r Hun) in Heq.
    apply (Hfree r); [ | exact Heq]. apply in_map_iff. now exists (r, rec).
Qed.

(** ** Non-negative counts *)

Lemma zsum_filter_bounds (g : school -> Z) (p : school -> bool) schools :
  Forall (fun s => 0 <= g s) schools ->
  0 <= zsum (map g (List.filter p schools)) <= zsum (map g schools).
Proof.
  induction 1 as [ | s schools Hs _ IH]; simpl; [lia | ].
  destruct (p s); simpl; lia.
Qed.

Lemma region_sums_bounds schools r :
  counts_nonneg schools ->
  0 <= region_pacts schools r <= zsum (map s_pacts schools) /\
  0 <= region_pupils schools r /\
  0 <= region_count schools r.
Proof.
  intros H. unfold region_pacts, region_pupils, region_count. repeat apply conj.
  - apply zsum_filter_bounds. eapply Forall_impl; [exact H | ]. simpl. tauto.
  - apply zsum_filter_bounds. eapply Forall_impl; [exact H | ]. simpl. tauto.
  - apply (zsum_filter_bounds s_pupils).
    eapply Forall_impl; [exact H | ]. simpl. tauto.
  - lia.
Qed.

Lemma agg_ok_get B agg n :
  0 <= B -> agg_ok B agg ->
  0 <= agg_get r_pacts agg n <= B /\
  0 <= agg_get r_pupils agg n /\
  0 <= agg_get r_school_count agg n.
Proof.
  intros HB H. unfold agg_get.
  destruct (al_lookup n agg) as [r | ] eqn:L; [ | lia].
  apply al_lookup_Some_In in L. unfold agg_ok in H.
  rewrite List.Forall_forall in H. apply (H (n, r) L).
Qed.

Lemma aggregate_regions_ok schools :
  counts_nonneg schools ->
  agg_ok (zsum (map s_pacts schools)) (aggregate_regions schools).
Proof.
  intros H. unfold agg_ok. apply List.Forall_forall. intros [n r] Hin. simpl.
  pose proof (al_lookup_In n r _ (aggregate_regions_NoDup schools) Hin) as L.
  destruct (aggregate_regions_sums schools n) as (E1 & E2 & E3).
  unfold agg_get in E1, E2, E3. rewrite L in E1, E2, E3.
  rewrite E1, E2, E3. apply region_sums_bounds. exact H.
Qed.

Lemma same_counts_ok B agg agg' :
  same_counts agg agg' -> agg_ok B agg -> agg_ok B agg'.
Proof.
  unfold agg_ok. induction 1 as [ | x y l l' (_ & E1 & E2 & E3) _ IH];
    intros H; [constructor | ].
  inversion H as [ | ? ? Hx Hl]; subst. constructor; [ | auto].
  rewrite E1, E2, E3. exact Hx.
Qed.

Lemma region_metrics_defined B agg :
  B < 2 ^ 1023 -> agg_ok B agg -> exists agg', for_each region_metric agg = Ok agg'.
Proof.
  intros HB H. apply for_each_defined. unfold agg_ok in H.
  eapply Forall_impl; [exact H | ]. intros [n r] (Hp & _). simpl in Hp.
  rewrite region_metric_spec.
  destruct (engagement_pct_defined (r_pacts r) (r_pupils r) ltac:(lia)) as [p ->].
  eexists. reflexivity.
Qed.

Lemma zsum_map_bounds {A : Type} (f : A -> Z) B (l : list A) :
  (forall x, 0 <= f x <= B) ->
  0 <= zsum (map f l) <= Z.of_nat (length l) * B.
Proof.
  intros H. induction l as [ | x l IH]; simpl zsum; [simpl; lia | ].
  specialize (H x). rewrite length_cons. nia.
Qed.

Lemma zsum_map_nonneg {A : Type} (f : A -> Z) (l : list A) :
  (forall x, 0 <= f x) -> 0 <= zsum (map f l).
Proof. intros H. induction l as [ | x l IH]; simpl; [lia | specialize (H x); lia]. Qed.

Lemma zsum_map_nonneg_list {A : Type} (f : A -> Z) (l : list A) :
  Forall (fun x => 0 <= f x) l -> 0 <= zsum (map f l).
Proof. induction 1; simpl; lia. Qed.

Lemma merge_fold_ok B agg rules : forall st,
  0 <= B -> agg_ok B agg ->
  (forall g names, In (g, names) rules -> (length names <= 8)%nat) ->
  state_ok (8 * B) st ->
  state_ok (8 * B) (fold_left (merge_step agg) rules st).
Proof.
  induction rules as [ | [g names] rules IH]; intros st HB Hagg Hlen Hst;
    cbn [fold_left]; [exact Hst | ].
  apply IH; auto.
  - intros g' names' Hin. apply (Hlen g' names'). now right.
  - intros k. rewrite merge_step_entry.
    destruct (String.eqb k g && merge_active agg names); [ | apply Hst].
    pose proof (Hlen g names (or_introl eq_refl)) as Hl.
    pose proof (zsum_map_bounds (agg_get r_pacts agg) B names
                  (fun n => proj1 (agg_ok_get B agg n HB Hagg))) as Hp.
    pose proof (zsum_map_nonneg (agg_get r_pupils agg) names
                  (fun n => proj1 (proj2 (agg_ok_get B agg n HB Hagg)))) as Hu.
    pose proof (zsum_map_nonneg (agg_get r_school_count agg) names
                  (fun n => proj2 (proj2 (agg_ok_get B agg n HB Hagg)))) as Hc.
    simpl. repeat apply conj; intros v [= <-]; nia.
Qed.

Lemma national_fold_ok B agg rules : forall st,
  0 <= B -> agg_ok B agg ->
  state_ok (8 * B) st ->
  state_ok (8 * B) (fold_left (national_step agg) rules st).
Proof.
  induction rules as [ | [n cs] rules IH]; intros st HB Hagg Hst;
    cbn [fold_left]; [exact Hst | ].
  apply IH; auto. intros k. rewrite national_step_entry.
  destruct (national_active agg n && str_mem k cs); [ | apply Hst].
  destruct (agg_ok_get B agg n HB Hagg) as (Hp & Hu & Hc).
  simpl. repeat apply conj; intros v [= <-]; lia.
Qed.

Lemma direct_fold_ok B names items : forall st w,
  0 <= B -> agg_ok B items ->
  state_ok (8 * B) st ->
  state_ok (8 * B) (fst (fold_left (direct_step names) items (st, w))).
Proof.
  induction items as [ | [n r] items IH]; intros st w HB Hagg Hst;
    cbn [fold_left]; [exact Hst | ].
  inversion Hagg as [ | ? ? (Hp & Hu & Hc) Hrest]; subst. simpl in Hp, Hu, Hc.
  pose proof (direct_step_entry names st w n r) as He.
  destruct (direct_step names (st, w) (n, r)) as [st' w']. simpl in He.
  apply IH; [exact HB | exact Hrest | ]. intros k. rewrite He.
  destruct (negb _ && _ && _); [ | apply Hst].
  simpl. repeat apply conj; intros v [= <-]; lia.
Qed.

Lemma map_regions_ok B agg names :
  0 <= B -> agg_ok B agg -> state_ok (8 * B) (fst (map_regions agg names)).
Proof.
  intros HB Hagg. rewrite map_regions_unfold. apply direct_fold_ok; auto.
  unfold claimed_state. intros k.
  change (county_entry (claim_omitted ?s) k) with (county_entry s k).
  revert k. apply national_fold_ok; auto.
  apply merge_fold_ok; auto.
  - apply merge_rules_short.
  - intros k. unfold county_entry. simpl. rewrite !lookup_empty.
    repeat apply conj; intros v; discriminate.
Qed.

(** ** [build_county_data] *)

(** What [assign_counties] returns: the mapping applied to an aggregate
    that carries, for each region of the schools given, the sums over those
    schools. *)
Lemma assign_counties_inv schools geojson st warned :
  assign_counties schools geojson = Ok (st, warned) ->
  exists agg,
    (st, warned) = map_regions agg (geo_names geojson) /\
    same_counts (aggregate_regions schools) agg /\
    List.NoDup (map fst agg) /\
    (forall r, In r (map fst agg) <-> exists s, In s schools /\ s_region s = r) /\
    (forall n, agg_get r_pacts agg n = region_pacts schools n /\
               agg_get r_pupils agg n = region_pupils schools n /\
               agg_get r_school_count agg n = region_count schools n).
Proof.
  unfold assign_counties.
  destruct (for_each region_metric (aggregate_regions schools)) as [agg | e] eqn:E;
    simpl; [ | discriminate].
  destruct (labels_printable agg); [ | discriminate].
  intros [= H]. exists agg.
  pose proof (region_metrics_same_counts _ _ E) as S.
  pose proof (same_counts_keys _ _ S) as K.
  repeat apply conj.
  - now rewrite H.
  - exact S.
  - rewrite K. apply aggregate_regions_NoDup.
  - intros r. rewrite K. unfold aggregate_regions.
    rewrite aggregate_regions_keys. simpl. tauto.
  - intros n. destruct (same_counts_agg_get _ _ n S) as (-> & -> & ->).
    apply aggregate_regions_sums.
Qed.

Lemma pow2_1020_printable : 2 ^ 1020 < 10 ^ Z.of_nat int_max_str_digits.
Proof. vm_compute. reflexivity. Qed.

Lemma agg_get_pacts_ok B agg n : agg_ok B agg -> 0 <= B -> 0 <= agg_get r_pacts agg n <= B.
Proof.
  intros H HB. unfold agg_get.
  destruct (al_lookup n agg) as [r | ] eqn:L; [ | lia].
  apply al_lookup_Some_In in L. unfold agg_ok in H.
  rewrite List.Forall_forall in H. specialize (H _ L). simpl in H. lia.
Qed.

(** No label fails on an aggregate whose pact counts have at most 4300
    digits. *)
Lemma labels_printable_ok B agg :
  agg_ok B agg -> 0 <= B -> B < 10 ^ Z.of_nat int_max_str_digits ->
  labels_printable agg = true.
Proof.
  intros H HB Hlt. unfold labels_printable. apply forallb_forall.
  intros [geo_name sfc_names] _. cbn [snd].
  destruct (_ || _); [ | reflexivity].
  apply forallb_forall. intros n _. unfold int_printable.
  pose proof (agg_get_pacts_ok B agg n H HB). apply Z.ltb_lt. lia.
Qed.

Lemma assign_counties_defined schools geojson :
  counts_nonneg schools -> zsum (map s_pacts schools) < 2 ^ 1020 ->
  exists st warned,
    assign_counties schools geojson = Ok (st, warned) /\
    state_ok (8 * zsum (map s_pacts schools)) st.
Proof.
  intros Hnn Hlt. unfold assign_counties.
  pose proof (aggregate_regions_ok schools Hnn) as Hok.
  assert (HB : 0 <= zsum (map s_pacts schools)).
  { apply zsum_map_nonneg_list. eapply Forall_impl; [exact Hnn | ]. simpl. tauto. }
  assert (Hpow : 2 ^ 1020 < 2 ^ 1023) by (apply Z.pow_lt_mono_r; lia).
  destruct (region_metrics_defined (zsum (map s_pacts schools)) _
              ltac:(lia) Hok) as [agg E].
  rewrite E. simpl.
  pose proof (same_counts_ok _ _ _ (region_metrics_same_counts _ _ E) Hok) as Hok'.
  rewrite (labels_printable_ok _ agg Hok' HB)
    by (pose proof pow2_1020_printable; lia).
  pose proof (map_regions_ok _ agg (geo_names geojson) HB Hok') as Hst.
  destruct (map_regions agg (geo_names geojson)) as [st warned].
  exists st, warned. split; [reflexivity | exact Hst].
Qed.

Lemma build_county_data_inv schools rd geojson features warned :
  build_county_data schools rd geojson = Ok (features, warned) ->
  exists st,
    assign_counties schools geojson = Ok (st, warned) /\
    Forall2 (fun f f' => annotate st f = Ok f') geojson features.
Proof.
  unfold build_county_data.
  destruct (assign_counties schools geojson) as [[st w] | e]; simpl;
    [ | discriminate].
  destruct (for_each (annotate st) geojson) as [fs | e] eqn:E; simpl;
    [ | discriminate].
  intros [= <- <-]. exists st. split; [reflexivity | ].
  now apply for_each_Forall2.
Qed.

Lemma get_county_entry_ok B st county :
  state_ok B st ->
  0 <= default 0 (get_county (county_pacts st) county) <= Z.max 0 B /\
  0 <= default 0 (get_county (county_pupils st) county) /\
  0 <= default 0 (get_county (county_schools st) county).
Proof.
  intros H. destruct county as [ | b | x | k]; simpl; try lia.
  specialize (H k). unfold county_entry, entry_ok in H.
  destruct H as (Hp & Hu & Hc).
  destruct (county_pacts st !! k) as [p | ]; simpl;
    [specialize (Hp p eq_refl) | ];
  destruct (county_pupils st !! k) as [u | ]; simpl;
    [specialize (Hu u eq_refl) | | specialize (Hu u eq_refl) | ];
  destruct (county_schools st !! k) as [c | ]; simpl;
    try specialize (Hc c eq_refl); lia.
Qed.

(** What the annotation loop does to one feature when the counts in the
    dicts are in range. *)
Lemma annotate_ok B st f :
  B < 2 ^ 1023 -> state_ok B st ->
  exists f',
    annotate st f = Ok f' /\
    if pyval_truthy (feature_county f) then
      exists pacts pupils sc pct label,
        f' = set_aggregates f pacts pupils pct sc label /\
        pacts = default 0 (get_county (county_pacts st) (feature_county f)) /\
        pupils = default 0 (get_county (county_pupils st) (feature_county f)) /\
        sc = default 0 (get_county (county_schools st) (feature_county f)) /\
        label = default "" (get_county (county_labels st) (feature_county f)) /\
        engagement_pct pacts pupils = Ok pct /\
        0 <= pacts /\ 0 <= pupils /\ 0 <= sc /\ in_percent_range pct
    else f' = f.
Proof.
  intros HB Hst.
  destruct (pyval_truthy (feature_county f)) eqn:Ht.
  - rewrite (annotate_spec st f Ht). cbv zeta.
    destruct (get_county_entry_ok B st (feature_county f) Hst) as (Hp & Hu & Hc).
    destruct (engagement_pct_defined
                (default 0 (get_county (county_pacts st) (feature_county f)))
                (default 0 (get_county (county_pupils st) (feature_county f)))
                ltac:(lia)) as [pct Hpct].
    rewrite Hpct. simpl. eexists. split; [reflexivity | ].
    eexists _, _, _, pct, _. repeat apply conj; try reflexivity; try lia.
    + exact Hpct.
    + eapply engagement_pct_range; [ | exact Hpct]. lia.
  - unfold annotate. rewrite Ht. simpl. eexists. split; reflexivity.
Qed.

Lemma for_each_Forall2_defined {A B : Type} (f : A -> res B) (P : A -> B -> Prop) l :
  (forall x, exists y, f x = Ok y /\ P x y) ->
  exists l', for_each f l = Ok l' /\ Forall2 P l l'.
Proof.
  intros H. induction l as [ | x l (ys & E & F)]; simpl.
  - exists []. split; [reflexivity | constructor].
  - destruct (H x) as (y & Hy & Py). rewrite Hy, E.
    exists (y :: ys). split; [reflexivity | now constructor].
Qed.

(** ** The annotated boundary features *)

Lemma set_aggregates_fields f pacts pupils pct sc label :
  properties (set_aggregates f pacts pupils pct sc label) !! "pacts"
    = Some (VNum (PyInt pacts)) /\
  properties (set_aggregates f pacts pupils pct sc label) !! "pupils"
    = Some (VNum (PyInt pupils)) /\
  properties (set_aggregates f pacts pupils pct sc label) !! "pact_pct"
    = Some (VNum pct) /\
  properties (set_aggregates f pacts pupils pct sc label) !! "school_count"
    = Some (VNum (PyInt sc)) /\
  properties (set_aggregates f pacts pupils pct sc label) !! "label"
    = Some (VStr label).
Proof. unfold set_aggregates. simpl. repeat apply conj; simplify_map_eq; reflexivity. Qed.

(** C4 (as amended). For schools with non-negative counts (at most
    [2 ^ 1020] pacts in all) the aggregation returns, and every boundary
    feature whose county (or name) property is truthy carries the four
    aggregate fields and the label, each the value assigned to its name or
    the default (0, 0, 0, 0 and the empty label), with [pacts >= 0],
    [pupils >= 0], [school_count >= 0] and [0 <= pact_pct <= 100]; a
    feature without such a name is returned as it was. *)
Theorem features_annotated schools rd geojson :
  counts_nonneg schools ->
  zsum (map s_pacts schools) < 2 ^ 1020 ->
  exists st features warned,
    assign_counties schools geojson = Ok (st, warned) /\
    build_county_data schools rd geojson = Ok (features, warned) /\
    Forall2
      (fun f f' =>
         if pyval_truthy (feature_county f) then
           exists pacts pupils sc pct label,
             properties f' !! "pacts" = Some (VNum (PyInt pacts)) /\
             properties f' !! "pupils" = Some (VNum (PyInt pupils)) /\
             properties f' !! "pact_pct" = Some (VNum pct) /\
             properties f' !! "school_count" = Some (VNum (PyInt sc)) /\
             properties f' !! "label" = Some (VStr label) /\
             pacts = default 0 (get_county (county_pacts st) (feature_county f)) /\
             pupils = default 0 (get_county (county_pupils st) (feature_county f)) /\
             sc = default 0 (get_county (county_schools st) (feature_county f)) /\
             label = default "" (get_county (county_labels st) (feature_county f)) /\
             0 <= pacts /\ 0 <= pupils /\ 0 <= sc /\ in_percent_range pct
         else f' = f)
      geojson features.
Proof.
  intros Hnn Hlt.
  destruct (assign_counties_defined schools geojson Hnn Hlt)
    as (st & warned & Ha & Hst).
  assert (HB : 8 * zsum (map s_pacts schools) < 2 ^ 1023).
  { change (2 ^ 1023) with (8 * 2 ^ 1020). lia. }
  destruct (for_each_Forall2_defined (annotate st)
              (fun f f' =>
                 if pyval_truthy (feature_county f) then
                   exists pacts pupils sc pct label,
                     f' = set_aggregates f pacts pupils pct sc label /\
                     pacts = default 0 (get_county (county_pacts st) (feature_county f)) /\
                     pupils = default 0 (get_county (county_pupils st) (feature_county f)) /\
                     sc = default 0 (get_county (county_schools st) (feature_county f)) /\
                     label = default "" (get_county (county_labels st) (feature_county f)) /\
                     engagement_pct pacts pupils = Ok pct /\
                     0 <= pacts /\ 0 <= pupils /\ 0 <= sc /\ in_percent_range pct
                 else f' = f)
              geojson (fun f => annotate_ok _ st f HB Hst))
    as (features & Hfe & HF).
  exists st, features, warned. split; [exact Ha | ]. split.
  - unfold build_county_data. rewrite Ha. simpl. rewrite Hfe. reflexivity.
  - eapply Forall2_impl; [exact HF | ]. intros f f' H. simpl in H.
    destruct (pyval_truthy (feature_county f)); [ | exact H].
    destruct H as (pacts & pupils & sc & pct & label & -> & H).
    exists pacts, pupils, sc, pct, label.
    destruct (set_aggregates_fields f pacts pupils pct sc label)
      as (F1 & F2 & F3 & F4 & F5).
    tauto.
Qed.

Lemma features_annotated_witness :
  counts_nonneg [school_a; school_z] /\
  zsum (map s_pacts [school_a; school_z]) < 2 ^ 1020 /\
  exists st features warned,
    assign_counties [school_a; school_z] [named_feature "Kent"] = Ok (st, warned) /\
    build_county_data [school_a; school_z] ∅ [named_feature "Kent"]
      = Ok (features, warned).
Proof.
  assert (H1 : counts_nonneg [school_a; school_z]).
  { repeat constructor; simpl; lia. }
  assert (H2 : zsum (map s_pacts [school_a; school_z]) < 2 ^ 1020).
  { simpl. apply (Z.lt_trans _ (2 ^ 5)); [lia | apply Z.pow_lt_mono_r; lia]. }
  split; [exact H1 | ]. split; [exact H2 | ].
  destruct (features_annotated [school_a; school_z] ∅ [named_feature "Kent"] H1 H2)
    as (st & features & warned & Ha & Hb & _).
  exists st, features, warned. split; [exact Ha | exact Hb].
Defined.

(** C4 fails as stated: a feature with neither a [county] nor a [name]
    property is skipped by the annotation loop and has no [pacts] field in
    the output. *)
Lemma unnamed_feature_counterexample :
  build_county_data [school_a] ∅ [named_feature "Kent"; unnamed_feature]
    = Ok ([set_aggregates (named_feature "Kent") 10 100 (decimal 100 1) 1 "";
           unnamed_feature], []) /\
  properties unnamed_feature !! "pacts" = None /\
  properties unnamed_feature !! "pact_pct" = None.
Proof. repeat apply conj; vm_compute; reflexivity. Qed.

(** ** Broadcast of a national region *)

(** C3 (as amended). For every broadcast rule, every listed county is
    assigned the same, undivided triple (pacts, pupils, school count)
    and the same label; the triple is the sum over the schools given to
    the aggregator that belong to the region (not the total declared in
    the bundle), it is assigned when that sum or the number of those
    schools is positive, and no county of the rule is assigned anything
    otherwise; this holds as long as no school has a region named like
    one of the target counties. *)
Theorem broadcast_identical schools rd geojson features warned n cs :
  build_county_data schools rd geojson = Ok (features, warned) ->
  In (n, cs) NATIONAL_REGIONS ->
  (forall s, In s schools -> ~ In (s_region s) cs) ->
  let active := (region_pacts schools n >? 0) || (region_count schools n >? 0) in
  exists st,
    assign_counties schools geojson = Ok (st, warned) /\
    (forall k, In k cs ->
       county_entry st k
       = if active
         then (Some (region_pacts schools n), Some (region_pupils schools n),
               Some (region_count schools n), Some (national_label n))
         else (None, None, None, None)) /\
    Forall2
      (fun f f' =>
         forall k, feature_county f = VStr k -> In k cs ->
           properties f' !! "pacts"
             = Some (VNum (PyInt (if active then region_pacts schools n else 0))) /\
           properties f' !! "pupils"
             = Some (VNum (PyInt (if active then region_pupils schools n else 0))) /\
           properties f' !! "school_count"
             = Some (VNum (PyInt (if active then region_count schools n else 0))) /\
           properties f' !! "label"
             = Some (VStr (if active then national_label n else "")))
      geojson features.
Proof.
  intros Hb Hr Hfree active.
  destruct (build_county_data_inv _ _ _ _ _ Hb) as (st & Ha & HF).
  destruct (assign_counties_inv _ _ _ _ Ha) as (agg & Hm & _ & _ & Hkeys & Hsums).
  assert (Hst : st = fst (map_regions agg (geo_names geojson))) by now rewrite <- Hm.
  assert (Hact : national_active agg n = active).
  { unfold national_active, active. destruct (Hsums n) as (-> & _ & ->).
    reflexivity. }
  assert (Hentry : forall k, In k cs ->
            county_entry st k
            = if active
              then (Some (region_pacts schools n), Some (region_pupils schools n),
                    Some (region_count schools n), Some (national_label n))
              else (None, None, None, None)).
  { intros k Hk.
    assert (Hnone : forall r, In r (map fst agg) -> r <> k).
    { intros r Hin ->. apply Hkeys in Hin. destruct Hin as (s & Hs & <-).
      now apply (Hfree s Hs). }
    rewrite Hst. destruct active.
    - rewrite (map_regions_broadcast agg _ n cs k Hr Hk Hact Hnone).
      destruct (Hsums n) as (-> & -> & ->). reflexivity.
    - apply (map_regions_no_broadcast agg _ n cs k Hr Hk Hact Hnone). }
  exists st. split; [exact Ha | ]. split; [exact Hentry | ].
  eapply Forall2_impl; [exact HF | ]. intros f f' Hann k Hc Hk. simpl in Hann.
  assert (Ht : pyval_truthy (feature_county f) = true).
  { rewrite Hc. eapply national_targets_named; eauto. }
  rewrite (annotate_spec st f Ht) in Hann. cbv zeta in Hann.
  destruct (engagement_pct _ _) as [p | e]; simpl in Hann; [ | discriminate].
  injection Hann as <-.
  destruct (set_aggregates_fields f
              (default 0 (get_county (county_pacts st) (feature_county f)))
              (default 0 (get_county (county_pupils st) (feature_county f))) p
              (default 0 (get_county (county_schools st) (feature_county f)))
              (default "" (get_county (county_labels st) (feature_county f))))
    as (F1 & F2 & _ & F4 & F5).
  rewrite F1, F2, F4, F5, Hc. simpl get_county.
  pose proof (Hentry k Hk) as E. unfold county_entry in E.
  destruct active; injection E as -> -> -> ->; auto.
Qed.

Lemma wales_build :
  build_county_data wales_schools ∅ wales_geojson
  = Ok (fst wales_result, snd wales_result).
Proof. vm_compute. reflexivity. Qed.

Lemma broadcast_identical_witness :
  build_county_data wales_schools ∅ wales_geojson
    = Ok (fst wales_result, snd wales_result) /\
  In ("Wales", wales_counties) NATIONAL_REGIONS /\
  (forall s, In s wales_schools -> ~ In (s_region s) wales_counties) /\
  exists st,
    forall k, In k wales_counties ->
      county_entry st k
      = (Some 150, Some 700, Some 2,
         Some "Wales total (not broken down by sub-region)").
Proof.
  assert (Hr : In ("Wales", wales_counties) NATIONAL_REGIONS).
  { right. left. reflexivity. }
  assert (Hfree : forall s, In s wales_schools -> ~ In (s_region s) wales_counties).
  { intros s [<- | [<- | []]]; simpl; intuition discriminate. }
  split; [exact wales_build | ]. split; [exact Hr | ]. split; [exact Hfree | ].
  destruct (broadcast_identical _ _ _ _ _ _ _ wales_build Hr Hfree)
    as (st & _ & He & _).
  exists st. exact He.
Defined.

(** C3 fails as stated: with the total 200 declared for Wales and two
    geocoded schools of 100 and 50 pacts, each of the eight counties shows
    150, the sum over the schools, not the declared 200. *)
Lemma declared_total_counterexample :
  (out ← main sample_json_load (encode_as wales_cache_text) answer_all_api
            wales_spans None wales_geojson;
   mret (ri_pacts <$> out_region_data out !! "Wales",
         map shown_pacts (out_features out),
         map shown_label (out_features out)))
  = Ok (Some 200,
        repeat (Some (VNum (PyInt 150))) 8,
        repeat (Some (VStr "Wales total (not broken down by sub-region)")) 8).
Proof. vm_compute. reflexivity. Qed.

(** ** Labels of merged regions *)

Lemma zsum_pos_of_member (f : string -> Z) l x :
  (forall y, 0 <= f y) -> In x l -> 0 < f x -> 0 < zsum (map f l).
Proof.
  intros Hnn. induction l as [ | y l IH]; simpl; [tauto | ].
  intros [-> | Hin] Hx.
  - pose proof (zsum_map_nonneg f l Hnn). lia.
  - specialize (IH Hin Hx). specialize (Hnn y). lia.
Qed.

Lemma merge_parts_derived agg schools names :
  (forall n, agg_get r_pacts agg n = region_pacts schools n) ->
  merge_parts agg names
  = map (fun n => n +:+ ": " +:+ format_thousands (region_pacts schools n))
        (contributors schools names).
Proof.
  intros H. unfold merge_parts, contributors.
  rewrite (filter_ext (fun n => agg_get r_pacts agg n >? 0)
                      (fun n => region_pacts schools n >? 0))
    by (intros n; now rewrite H).
  apply map_ext. intros n. now rewrite H.
Qed.

(** C5 (as amended). For every merge rule, the target county gets a label
    if and only if more than one listed region has a positive pact count;
    the label joins, with " + ", the name of each such region and the pact
    sum over its schools as given to the aggregator (not the total
    declared in the bundle), written with thousands separators; and every
    listed region is marked as claimed, whether or not it has data. *)
Theorem merge_labels schools geojson st warned g names :
  assign_counties schools geojson = Ok (st, warned) ->
  counts_nonneg schools ->
  In (g, names) MERGE_MAP ->
  county_labels st !! g
  = (if (1 <? length (contributors schools names))%nat
     then Some (derived_label schools names) else None) /\
  (is_Some (county_labels st !! g)
   <-> (1 < length (contributors schools names))%nat) /\
  (forall n, In n names -> n ∈ already_mapped st).
Proof.
  intros Ha Hnn Hin.
  destruct (assign_counties_inv _ _ _ _ Ha) as (agg & Hm & _ & _ & _ & Hsums).
  assert (Hst : st = fst (map_regions agg (geo_names geojson))) by now rewrite <- Hm.
  assert (Hp : forall n, agg_get r_pacts agg n = region_pacts schools n)
    by (intros n; apply Hsums).
  assert (Hlabel : county_labels st !! g
                   = if (1 <? length (contributors schools names))%nat
                     then Some (derived_label schools names) else None).
  { rewrite Hst, (map_regions_merge_label agg _ g names Hin).
    rewrite (merge_parts_derived agg schools names Hp), length_map.
    fold (derived_label schools names).
    destruct (1 <? length (contributors schools names))%nat eqn:L;
      [ | now rewrite andb_false_r].
    rewrite andb_true_r.
    assert (Hact : merge_active agg names = true).
    { apply Nat.ltb_lt in L.
      destruct (contributors schools names) as [ | x l] eqn:C; [simpl in L; lia | ].
      assert (Hx : In x (contributors schools names)) by (rewrite C; now left).
      unfold contributors in Hx. apply filter_In in Hx. destruct Hx as [Hx1 Hx2].
      apply Z.gtb_lt in Hx2. unfold merge_active. apply orb_true_iff. left.
      apply Z.gtb_lt.
      apply (zsum_pos_of_member (agg_get r_pacts agg) names x).
      - intros y. rewrite Hp. apply region_sums_bounds. exact Hnn.
      - exact Hx1.
      - now rewrite Hp. }
    now rewrite Hact. }
  split; [exact Hlabel | split].
  - rewrite Hlabel. destruct (1 <? length (contributors schools names))%nat eqn:L.
    + apply Nat.ltb_lt in L. split; [auto | eauto].
    + apply Nat.ltb_ge in L. split; [intros [x Hx]; discriminate | lia].
  - intros n Hn. rewrite Hst. apply map_regions_claims.
    unfold claimed_names, merge_sources. apply in_or_app. left.
    apply in_concat. exists names. split; [ | exact Hn].
    apply in_map_iff. now exists (g, names).
Qed.

Lemma somerset_assignment :
  assign_counties somerset_schools [named_feature "Somerset"]
  = Ok (fst somerset_result, snd somerset_result).
Proof. vm_compute. reflexivity. Qed.

Lemma merge_labels_witness :
  assign_counties somerset_schools [named_feature "Somerset"]
    = Ok (fst somerset_result, snd somerset_result) /\
  counts_nonneg somerset_schools /\
  In ("Somerset", ["Somerset"; "Somerset, Bath"]) MERGE_MAP /\
  county_labels (fst somerset_result) !! "Somerset"
    = Some "Somerset: 15 + Somerset, Bath: 5".
Proof.
  assert (Hnn : counts_nonneg somerset_schools).
  { repeat constructor; simpl; lia. }
  assert (Hin : In ("Somerset", ["Somerset"; "Somerset, Bath"]) MERGE_MAP).
  { right. right. left. reflexivity. }
  split; [exact somerset_assignment | ]. split; [exact Hnn | ].
  split; [exact Hin | ].
  exact (proj1 (merge_labels _ _ _ _ _ _ somerset_assignment Hnn Hin)).
Defined.

(** C5 fails as stated: Somerset and Somerset, Bath are declared with 500
    and 300 pacts and have schools with 15 and 5; the label of the county
    Somerset carries 15 and 5, not the declared totals. *)
Lemma declared_label_counterexample :
  (out ← main sample_json_load (encode_as somerset_cache_text) answer_all_api
            somerset_spans None [named_feature "Somerset"];
   mret (map shown_label (out_features out),
         declared_label (out_region_data out) (out_schools out)
           ["Somerset"; "Somerset, Bath"]))
  = Ok ([Some (VStr "Somerset: 15 + Somerset, Bath: 5")],
        "Somerset: 500 + Somerset, Bath: 300").
Proof. vm_compute. reflexivity. Qed.

(** ** What happens to each region *)

Lemma NoDup_map_filter {A B : Type} (f : A -> B) (p : A -> bool) l :
  List.NoDup (map f l) -> List.NoDup (map f (List.filter p l)).
Proof.
  induction l as [ | x l IH]; simpl; intros H; [constructor | ].
  inversion H as [ | ? ? Hnotin Hnd]; subst.
  destruct (p x); simpl; [ | auto].
  constructor; [ | auto].
  intros Hin. apply Hnotin. apply in_map_iff in Hin.
  destruct Hin as (y & Hy & Hf). apply filter_In in Hf.
  apply in_map_iff. exists y. tauto.
Qed.

Lemma warned_iff agg names r :
  In r (snd (map_regions agg names))
  <-> In r (map fst agg) /\ ~ In r claimed_names /\
      str_in (rename_target r) names = false.
Proof.
  rewrite map_regions_warned, in_map_iff. split.
  - intros ([n rec] & <- & Hf). apply filter_In in Hf. destruct Hf as [Hin Hc].
    cbn [fst snd] in *. apply andb_true_iff in Hc. destruct Hc as [Hu Hs].
    unfold unclaimed in Hu. apply negb_true_iff in Hu, Hs.
    apply str_mem_false in Hu. repeat split; auto.
    apply in_map_iff. now exists (n, rec).
  - intros (Hin & Hu & Hs). apply in_map_iff in Hin.
    destruct Hin as ([n rec] & <- & Hin). exists (n, rec). split; [reflexivity | ].
    apply filter_In. split; [exact Hin | ]. cbn [fst snd] in *.
    unfold unclaimed. apply str_mem_false in Hu. now rewrite Hu, Hs.
Qed.

(** C8 (as amended). Every region that has at least one school in the
    list given to the aggregator is handled in exactly one way: it is
    claimed by one (and only one) of the merge, broadcast and omit tables
    and then never warned about; or it is unclaimed and its name is a
    boundary name, and then its counts are assigned to that county without
    a warning; or it is unclaimed and unmatched, and then it is warned
    about, once.  The warnings do not stop the run.  (A region of the
    bundle none of whose schools reached the aggregator is not looked at
    by the direct-match loop.) *)
Theorem region_dispositions schools rd geojson st warned :
  assign_counties schools geojson = Ok (st, warned) ->
  List.NoDup warned /\
  (counts_nonneg schools -> zsum (map s_pacts schools) < 2 ^ 1020 ->
   exists features,
     build_county_data schools rd geojson = Ok (features, warned)) /\
  forall r,
    (exists s, In s schools /\ s_region s = r) ->
    (In r claimed_names <-> r ∈ already_mapped st) /\
    (In r merge_sources -> ~ In r national_names /\ ~ In r OMITTED) /\
    (In r national_names -> ~ In r OMITTED) /\
    (In r claimed_names -> ~ In r warned) /\
    (~ In r claimed_names -> str_in r (geo_names geojson) = true ->
       ~ In r warned /\
       county_pacts st !! r = Some (region_pacts schools r) /\
       county_pupils st !! r = Some (region_pupils schools r) /\
       county_schools st !! r = Some (region_count schools r)) /\
    (~ In r claimed_names -> str_in r (geo_names geojson) = false ->
       In r warned).
Proof.
  intros Ha.
  destruct (assign_counties_inv _ _ _ _ Ha) as (agg & Hm & _ & Hnd & Hkeys & Hsums).
  assert (Hst : st = fst (map_regions agg (geo_names geojson))) by now rewrite <- Hm.
  assert (Hw : warned = snd (map_regions agg (geo_names geojson))) by now rewrite <- Hm.
  split; [ | split].
  - rewrite Hw, map_regions_warned. now apply NoDup_map_filter.
  - intros Hnn Hlt.
    destruct (assign_counties_defined schools geojson Hnn Hlt)
      as (st' & warned' & Ha' & Hok).
    assert (E : (st', warned') = (st, warned)) by congruence.
    injection E as -> ->.
    assert (HB : 8 * zsum (map s_pacts schools) < 2 ^ 1023).
    { change (2 ^ 1023) with (8 * 2 ^ 1020). lia. }
    destruct (for_each_Forall2_defined (annotate st) (fun _ _ => True) geojson)
      as (features & Hfe & _).
    { intros f. destruct (annotate_ok _ st f HB Hok) as (f' & Hf & _). eauto. }
    exists features. unfold build_county_data. rewrite Ha. simpl.
    now rewrite Hfe.
  - intros r Hr. apply Hkeys in Hr.
    destruct (tables_exclusive r) as [X1 X2].
    repeat apply conj.
    + intros Hc. rewrite Hst. now apply map_regions_claims.
    + intros Hc. rewrite Hst in Hc. now apply map_regions_claims in Hc.
    + exact X1.
    + exact X2.
    + intros Hc Hin. rewrite Hw in Hin. apply warned_iff in Hin. tauto.
    + intros Hu Hs. apply in_map_iff in Hr. destruct Hr as ([n rec] & <- & Hin).
      cbn [fst snd] in *.
      pose proof (al_lookup_In n rec agg Hnd Hin) as L.
      destruct (map_regions_direct agg (geo_names geojson) n rec Hnd Hin Hu Hs)
        as (D1 & D2 & D3).
      destruct (Hsums n) as (S1 & S2 & S3). unfold agg_get in S1, S2, S3.
      rewrite L in S1, S2, S3. rewrite <- Hst in D1, D2, D3.
      rewrite D1, D2, D3, S1, S2, S3. repeat split.
      intros Hwarn. rewrite Hw in Hwarn. apply warned_iff in Hwarn.
      rewrite (rename_target_unclaimed n Hu) in Hwarn.
      destruct Hwarn as (_ & _ & Hwarn). congruence.
    + intros Hu Hs. rewrite Hw. apply warned_iff.
      rewrite (rename_target_unclaimed r Hu). auto.
Qed.

Lemma atlantis_assignment :
  assign_counties atlantis_schools [named_feature "Kent"]
  = Ok (fst atlantis_result, snd atlantis_result).
Proof. vm_compute. reflexivity. Qed.

Lemma atlantis_unclaimed : ~ In "Atlantis" claimed_names.
Proof. intros Hin. apply str_mem_In in Hin. vm_compute in Hin. discriminate. Qed.

Lemma region_dispositions_witness :
  assign_counties atlantis_schools [named_feature "Kent"]
    = Ok (fst atlantis_result, snd atlantis_result) /\
  In "Atlantis" (snd atlantis_result).
Proof.
  split; [exact atlantis_assignment | ].
  destruct (region_dispositions _ ∅ _ _ _ atlantis_assignment) as (_ & _ & H).
  destruct (H "Atlantis") as (_ & _ & _ & _ & _ & Hwarn).
  - exists (sample_school "england/9" "Atlantis" "ZZ9 9ZZ" 5 50).
    split; [now left | reflexivity].
  - apply Hwarn; [exact atlantis_unclaimed | reflexivity].
Defined.

(** C8 fails as stated: the region Atlantis is in the parsed data, its
    only school does not geocode, and it matches no table and no boundary
    name; the run ends without a warning about it. *)
Lemma silent_region_counterexample :
  (out ← main sample_json_load (encode_as "{}") null_api atlantis_spans
            None [named_feature "Kent"];
   mret (ri_school_count <$> out_region_data out !! "Atlantis",
         out_schools out, out_warned out,
         str_mem "Atlantis" claimed_names,
         str_in (rename_target "Atlantis") (geo_names [named_feature "Kent"])))
  = Ok (Some 1, [], [], false, false).
Proof. vm_compute. reflexivity. Qed.

(** ** The extraction loop and the pipeline *)

Lemma region_data_fold_lookup spans : forall (rd : gmap string region_info) sp,
  List.NoDup (map rs_name spans) -> In sp spans ->
  fold_left (fun d sp => <[rs_name sp := span_info sp]> d) spans rd !! rs_name sp
  = Some (span_info sp).
Proof.
  assert (Frame : forall spans (rd : gmap string region_info) k,
            ~ In k (map rs_name spans) ->
            fold_left (fun d sp => <[rs_name sp := span_info sp]> d) spans rd !! k
            = rd !! k).
  { induction spans0 as [ | sp0 spans0 IH0]; intros rd k Hk; cbn [fold_left];
      [reflexivity | ].
    cbn [map In] in Hk. rewrite IH0 by tauto.
    apply lookup_insert_ne. intros E. apply Hk. now left. }
  induction spans as [ | sp0 spans IH]; intros rd sp Hnd Hin; [destruct Hin | ].
  cbn [map] in Hnd. inversion Hnd as [ | ? ? Hnotin Hnd']; subst.
  cbn [fold_left]. destruct Hin as [-> | Hin].
  - rewrite Frame by exact Hnotin. apply lookup_insert_eq.
  - now apply IH.
Qed.

Lemma filter_span_schools r sp :
  List.filter (in_region r) (span_schools sp)
  = if String.eqb r (rs_name sp) then span_schools sp else [].
Proof.
  unfold span_schools. induction (rs_matches sp) as [ | m ms IH]; simpl.
  - now destruct (String.eqb r (rs_name sp)).
  - unfold in_region at 1. simpl. rewrite IH.
    now destruct (String.eqb r (rs_name sp)).
Qed.

Lemma filter_parsed_schools spans sp :
  List.NoDup (map rs_name spans) -> In sp spans ->
  List.filter (in_region (rs_name sp)) (parsed_schools spans) = span_schools sp.
Proof.
  assert (Miss : forall spans r, ~ In r (map rs_name spans) ->
                   List.filter (in_region r) (parsed_schools spans) = []).
  { induction spans0 as [ | sp0 spans0 IH0]; intros r Hr; [reflexivity | ].
    unfold parsed_schools. cbn [map concat]. rewrite List.filter_app.
    cbn [map In] in Hr. fold (parsed_schools spans0). rewrite IH0 by tauto.
    rewrite filter_span_schools.
    destruct (String.eqb_spec r (rs_name sp0)) as [-> | Hne]; [tauto | reflexivity]. }
  induction spans as [ | sp0 spans IH]; intros Hnd Hin; [destruct Hin | ].
  cbn [map] in Hnd. inversion Hnd as [ | ? ? Hnotin Hnd']; subst.
  unfold parsed_schools. cbn [map concat]. rewrite List.filter_app.
  fold (parsed_schools spans). rewrite filter_span_schools.
  destruct Hin as [-> | Hin].
  - rewrite String.eqb_refl, (Miss spans _ Hnotin). apply app_nil_r.
  - rewrite (IH Hnd' Hin).
    destruct (String.eqb_spec (rs_name sp) (rs_name sp0)) as [E | Hne];
      [ | reflexivity].
    exfalso. apply Hnotin. rewrite <- E. now apply in_map.
Qed.

(** The derived aggregate of [region_data] is taken over every parsed
    school of the region. *)
Lemma region_data_sums spans schools rd sp :
  extract_school_data spans = Ok (schools, rd) ->
  List.NoDup (map rs_name spans) -> In sp spans ->
  exists info,
    rd !! rs_name sp = Some info /\
    ri_pacts info = int_value (rs_pacts sp) /\
    ri_school_pacts info = region_pacts schools (rs_name sp) /\
    ri_pupils info = region_pupils schools (rs_name sp) /\
    ri_school_count info = region_count schools (rs_name sp).
Proof.
  intros Hex Hnd Hin. apply extract_school_data_spec in Hex.
  destruct Hex as [-> ->]. exists (span_info sp).
  split; [now apply region_data_fold_lookup | ].
  unfold region_pacts, region_pupils, region_count.
  rewrite (filter_parsed_schools spans sp Hnd Hin).
  unfold span_info, span_schools. simpl. rewrite length_map. auto.
Qed.

Lemma calculate_metrics_inv schools schools' :
  calculate_metrics schools = Ok schools' ->
  Forall2 (fun s s' => exists p, s' = with_pct s p) schools schools'.
Proof.
  intros H. apply for_each_Forall2 in H.
  eapply Forall2_impl; [exact H | ]. intros s s' Hs. simpl in Hs.
  rewrite school_metric_spec in Hs.
  destruct (engagement_pct _ _) as [p | e]; simpl in Hs; [ | discriminate].
  injection Hs as <-. now exists p.
Qed.

(** What [main] returns, step by step. *)
Lemma main_inv json_load json_encode api spans disk geojson out :
  main json_load json_encode api spans disk geojson = Ok out ->
  exists schools cached,
    extract_school_data spans = Ok (schools, out_region_data out) /\
    load_cache json_load disk = Ok cached /\
    calculate_metrics (omap (geocoded (cache_after api cached schools)) schools)
      = Ok (out_schools out) /\
    build_county_data (out_schools out) (out_region_data out) geojson
      = Ok (out_features out, out_warned out).
Proof.
  unfold main.
  destruct (extract_school_data spans) as [[schools rd] | e] eqn:Hex; simpl;
    [ | discriminate].
  unfold geocode_postcodes.
  destruct (load_cache json_load disk) as [cached | e] eqn:Hload; simpl;
    [ | discriminate].
  rewrite (filter_map_geocoded _ schools (extract_lat_zero _ _ _ Hex)).
  destruct (calculate_metrics _) as [ms | e] eqn:Hm; simpl; [ | discriminate].
  destruct (build_county_data ms rd geojson) as [[fs ws] | e] eqn:Hb; simpl;
    [ | discriminate].
  intros [= <-]. simpl. exists schools, cached. auto.
Qed.

Lemma assign_counties_direct schools geojson st warned r :
  assign_counties schools geojson = Ok (st, warned) ->
  (exists s, In s schools /\ s_region s = r) ->
  ~ In r claimed_names -> str_in r (geo_names geojson) = true ->
  county_pacts st !! r = Some (region_pacts schools r) /\
  county_pupils st !! r = Some (region_pupils schools r) /\
  county_schools st !! r = Some (region_count schools r).
Proof.
  intros Ha Hr Hu Hs.
  destruct (assign_counties_inv _ _ _ _ Ha) as (agg & Hm & _ & Hnd & Hkeys & Hsums).
  assert (Hst : st = fst (map_regions agg (geo_names geojson))) by now rewrite <- Hm.
  apply Hkeys in Hr. apply in_map_iff in Hr. destruct Hr as ([n rec] & <- & Hin).
  cbn [fst] in *.
  pose proof (al_lookup_In n rec agg Hnd Hin) as L.
  destruct (map_regions_direct agg (geo_names geojson) n rec Hnd Hin Hu Hs)
    as (D1 & D2 & D3).
  destruct (Hsums n) as (S1 & S2 & S3). unfold agg_get in S1, S2, S3.
  rewrite L in S1, S2, S3. rewrite <- Hst in D1, D2, D3.
  now rewrite D1, D2, D3, S1, S2, S3.
Qed.

(** C1 (as amended). The derived aggregate that the parser returns for a
    region in [region_data] (pact sum, pupil sum, school count) is taken
    over every parsed school of the region, whether or not it geocodes.
    The aggregator never reads [region_data]: the region and county
    aggregates it builds are sums over the schools it is given, which in
    [main] are the parsed schools that kept coordinates, so a school that
    fails to geocode contributes to the first and not to the second. *)
Theorem aggregates_and_filtering json_load json_encode api spans disk geojson out :
  main json_load json_encode api spans disk geojson = Ok out ->
  List.NoDup (map rs_name spans) ->
  (forall sp, In sp spans ->
     exists info,
       out_region_data out !! rs_name sp = Some info /\
       ri_school_pacts info = region_pacts (parsed_schools spans) (rs_name sp) /\
       ri_pupils info = region_pupils (parsed_schools spans) (rs_name sp) /\
       ri_school_count info = region_count (parsed_schools spans) (rs_name sp)) /\
  (exists cached,
     load_cache json_load disk = Ok cached /\
     Forall2 (fun s s' => exists p, s' = with_pct s p)
       (omap (geocoded (cache_after api cached (parsed_schools spans)))
             (parsed_schools spans))
       (out_schools out)) /\
  (forall rd',
     build_county_data (out_schools out) rd' geojson
     = Ok (out_features out, out_warned out)) /\
  (exists st,
     assign_counties (out_schools out) geojson = Ok (st, out_warned out) /\
     forall r,
       (exists s, In s (out_schools out) /\ s_region s = r) ->
       ~ In r claimed_names -> str_in r (geo_names geojson) = true ->
       county_pacts st !! r = Some (region_pacts (out_schools out) r) /\
       county_pupils st !! r = Some (region_pupils (out_schools out) r) /\
       county_schools st !! r = Some (region_count (out_schools out) r)).
Proof.
  intros Hmain Hnd.
  destruct (main_inv _ _ _ _ _ _ _ Hmain) as (schools & cached & Hex & Hload & Hm & Hb).
  pose proof (extract_school_data_spec _ _ _ Hex) as [Hs _].
  repeat apply conj.
  - intros sp Hin.
    destruct (region_data_sums _ _ _ sp Hex Hnd Hin) as (info & H1 & _ & H2 & H3 & H4).
    exists info. rewrite <- Hs. auto.
  - exists cached. split; [exact Hload | ]. rewrite <- Hs.
    now apply calculate_metrics_inv.
  - intros rd'. exact Hb.
  - destruct (build_county_data_inv _ _ _ _ _ Hb) as (st & Ha & _).
    exists st. split; [exact Ha | ].
    intros r Hr Hu Hstr. now apply (assign_counties_direct _ geojson st (out_warned out)).
Qed.

Lemma kent_run_returns : kent_run = Ok kent_output.
Proof. vm_compute. reflexivity. Qed.

Lemma aggregates_and_filtering_witness :
  kent_run = Ok kent_output /\
  List.NoDup (map rs_name kent_spans) /\
  exists info,
    out_region_data kent_output !! rs_name kent_span = Some info /\
    ri_school_pacts info
    = region_pacts (parsed_schools kent_spans) (rs_name kent_span).
Proof.
  assert (Hnd : List.NoDup (map rs_name kent_spans)).
  { repeat constructor. simpl. tauto. }
  split; [exact kent_run_returns | ]. split; [exact Hnd | ].
  destruct (aggregates_and_filtering _ _ _ _ _ _ _ kent_run_returns Hnd) as (H & _).
  destruct (H kent_span (or_introl eq_refl)) as (info & H1 & H2 & _).
  exists info. split; [exact H1 | exact H2].
Defined.

(** C1 fails as stated: the school with 15 pacts and 200 pupils does not
    geocode; [region_data] counts it (25 pacts, 300 pupils for Kent), the
    county Kent does not (10 pacts, 100 pupils). *)
Lemma dropped_school_counterexample :
  (out ← kent_run;
   mret (map s_id (out_schools out),
         (fun i => (ri_school_pacts i, ri_pupils i)) <$> out_region_data out !! "Kent",
         map shown_pacts (out_features out),
         map shown_pupils (out_features out)))
  = Ok (["england/1"], Some (25, 300),
        [Some (VNum (PyInt 10))], [Some (VNum (PyInt 100))]).
Proof. vm_compute. reflexivity. Qed.

(* ===================================================================== *)
(** * Part III. Further properties of the pipeline                        *)
(* ===================================================================== *)

(** ** The extraction loop *)

Lemma region_data_fold_dom spans : forall (rd : gmap string region_info) name,
  is_Some (fold_left (fun d sp => <[rs_name sp := span_info sp]> d) spans rd !! name)
  <-> is_Some (rd !! name) \/ In name (map rs_name spans).
Proof.
  induction spans as [ | sp spans IH]; intros rd name; cbn [fold_left map In].
  - tauto.
  - rewrite IH. destruct (decide (rs_name sp = name)) as [E | NE].
    + rewrite <- E, lookup_insert_eq. split; [intros _; right; now left | ].
      intros _. left. eauto.
    + rewrite lookup_insert_ne by exact NE. tauto.
Qed.

Lemma region_data_fold_frame spans : forall (rd : gmap string region_info) k,
  ~ In k (map rs_name spans) ->
  fold_left (fun d sp => <[rs_name sp := span_info sp]> d) spans rd !! k = rd !! k.
Proof.
  induction spans as [ | sp spans IH]; intros rd k Hk; cbn [fold_left];
    [reflexivity | ].
  cbn [map In] in Hk. rewrite IH by tauto.
  apply lookup_insert_ne. intros E. apply Hk. now left.
Qed.

Lemma length_parsed_schools spans :
  Z.of_nat (length (parsed_schools spans))
  = zsum (map (fun sp => Z.of_nat (length (rs_matches sp))) spans).
Proof.
  unfold parsed_schools.
  induction spans as [ | sp spans IH]; cbn [map concat zsum]; [reflexivity | ].
  rewrite length_app, Nat2Z.inj_add, IH. unfold span_schools.
  now rewrite length_map.
Qed.

(** *** When the conversions return *)

Lemma py_int_convertible s :
  py_int s = if convertible s then Ok (int_value s) else Raise ValueError.
Proof.
  unfold py_int, convertible, int_value. destruct s as [ | c s]; [reflexivity | ].
  cbn [String.eqb negb andb]. reflexivity.
Qed.

Lemma school_of_match_convertible name m :
  school_of_match name m
  = if match_convertible m then Ok (match_school name m) else Raise ValueError.
Proof.
  unfold school_of_match, match_convertible, match_school.
  rewrite !py_int_convertible.
  destruct (String.eqb (g_pupils m) "") eqn:E; cbn [orb andb].
  - destruct (convertible (g_pacts m)); cbn; [ | reflexivity].
    destruct (convertible (g_high_age m)); cbn; [ | reflexivity].
    destruct (convertible (g_low_age m)); reflexivity.
  - destruct (convertible (g_pupils m)); cbn; [ | reflexivity].
    destruct (convertible (g_pacts m)); cbn; [ | reflexivity].
    destruct (convertible (g_high_age m)); cbn; [ | reflexivity].
    destruct (convertible (g_low_age m)); reflexivity.
Qed.

Lemma span_loop_convertible name ms : forall schools c p u,
  span_loop name ms (schools, (c, p, u))
  = if forallb match_convertible ms
    then Ok (schools ++ map (match_school name) ms,
             (c + Z.of_nat (length ms),
              p + zsum (map s_pacts (map (match_school name) ms)),
              u + zsum (map s_pupils (map (match_school name) ms))))
    else Raise ValueError.
Proof.
  induction ms as [ | m ms IH]; intros schools c p u;
    cbn [span_loop forallb map length zsum].
  - rewrite app_nil_r. do 2 f_equal. f_equal; [f_equal | ]; lia.
  - rewrite school_of_match_convertible.
    destruct (match_convertible m); cbn [andb]; [ | reflexivity].
    rewrite IH. destruct (forallb match_convertible ms); [ | reflexivity].
    rewrite <- app_assoc. cbn [app]. do 2 f_equal. f_equal; [f_equal | ]; lia.
Qed.

Lemma region_spans_convertible spans :
  for_each region_span_of spans
  = if forallb (fun sp => convertible (rs_pacts sp)) spans
    then Ok (map (fun sp => (rs_name sp, int_value (rs_pacts sp), rs_matches sp))
                 spans)
    else Raise ValueError.
Proof.
  induction spans as [ | sp spans IH]; cbn [for_each forallb map]; [reflexivity | ].
  unfold region_span_of at 1. rewrite py_int_convertible.
  destruct (convertible (rs_pacts sp)); cbn; [ | reflexivity].
  rewrite IH. destruct (forallb _ spans); reflexivity.
Qed.

Lemma extract_fold_convertible spans : forall schools rd,
  fold_res extract_step
    (map (fun sp => (rs_name sp, int_value (rs_pacts sp), rs_matches sp)) spans)
    (schools, rd)
  = if forallb (fun sp => forallb match_convertible (rs_matches sp)) spans
    then Ok (schools ++ parsed_schools spans,
             fold_left (fun d sp => <[rs_name sp := span_info sp]> d) spans rd)
    else Raise ValueError.
Proof.
  induction spans as [ | sp spans IH]; intros schools rd;
    cbn [map fold_res forallb fold_left].
  - unfold parsed_schools. cbn [map concat]. now rewrite app_nil_r.
  - unfold extract_step at 1. rewrite span_loop_convertible.
    destruct (forallb match_convertible (rs_matches sp)); cbn; [ | reflexivity].
    rewrite IH. destruct (forallb _ spans); [ | reflexivity].
    unfold parsed_schools. cbn [map concat]. rewrite app_assoc.
    unfold span_info, span_schools. rewrite Z.add_0_l. reflexivity.
Qed.

Lemma bundle_convertible_split spans :
  bundle_convertible spans
  = forallb (fun sp => convertible (rs_pacts sp)) spans
    && forallb (fun sp => forallb match_convertible (rs_matches sp)) spans.
Proof.
  unfold bundle_convertible.
  induction spans as [ | sp spans IH]; cbn [forallb]; [reflexivity | ].
  rewrite IH. unfold span_convertible.
  destruct (convertible (rs_pacts sp)), (forallb match_convertible (rs_matches sp)),
    (forallb (fun sp => convertible (rs_pacts sp)) spans); reflexivity.
Qed.

(** The extraction as one equation: what it returns and when it fails. *)
Lemma extract_school_data_eq sp spans :
  extract_school_data (sp :: spans)
  = if bundle_convertible (sp :: spans)
       && int_printable (zsum (map s_pacts (parsed_schools (sp :: spans))))
       && int_printable (total_region_pacts (region_data_of (sp :: spans)))
    then Ok (parsed_schools (sp :: spans), region_data_of (sp :: spans))
    else Raise ValueError.
Proof.
  unfold extract_school_data. rewrite region_spans_convertible.
  rewrite bundle_convertible_split.
  destruct (forallb (fun sp => convertible (rs_pacts sp)) (sp :: spans));
    cbn [andb mbind res_bind]; [ | reflexivity].
  rewrite extract_fold_convertible.
  destruct (forallb (fun sp => forallb match_convertible (rs_matches sp))
                    (sp :: spans));
    cbn [andb mbind res_bind app]; [ | reflexivity].
  unfold region_data_of.
  destruct (int_printable (zsum (map s_pacts (parsed_schools (sp :: spans))))
            && int_printable _); reflexivity.
Qed.

(** X1.  The extraction fails with [RuntimeError] exactly when no region
    header was found, and otherwise, on numeric groups of ASCII digits,
    with [ValueError] exactly when a group is not one that [int] converts
    (more than 4300 digits) or one of the two printed totals has more than
    4300 digits.  When it
    returns, the schools come out in bundle order, region after region,
    each carrying the name of the header of its span; their number is the
    number of school matches, and [region_data] has an entry for every
    header, with or without schools, and for nothing else. *)
Theorem extract_schools_in_bundle_order spans :
  (extract_school_data spans = Raise RuntimeError <-> spans = []) /\
  (forall schools rd,
     extract_school_data spans = Ok (schools, rd) ->
     schools
     = concat (map (fun sp => map (match_school (rs_name sp)) (rs_matches sp))
                   spans) /\
     Z.of_nat (length schools)
     = zsum (map (fun sp => Z.of_nat (length (rs_matches sp))) spans) /\
     (forall name, is_Some (rd !! name) <-> In name (map rs_name spans))) /\
  (spans <> [] -> bundle_digits spans = true ->
   extract_school_data spans
   = if bundle_convertible spans
        && int_printable (zsum (map s_pacts (parsed_schools spans)))
        && int_printable (total_region_pacts (region_data_of spans))
     then Ok (parsed_schools spans, region_data_of spans)
     else Raise ValueError).
Proof.
  split; [ | split].
  - destruct spans as [ | sp spans]; [split; reflexivity | ].
    rewrite extract_school_data_eq.
    destruct (_ && _); split; congruence.
  - intros schools rd H. apply extract_school_data_spec in H as [-> ->].
    split; [reflexivity | ]. split; [apply length_parsed_schools | ].
    intros name. rewrite region_data_fold_dom, lookup_empty.
    split; [intros [[x Hx] | H]; [discriminate | exact H] | now right].
  - intros Hne _. destruct spans as [ | sp spans]; [now destruct Hne | ].
    apply extract_school_data_eq.
Qed.

(** X2.  When a region name occurs in several headers, the entry of
    [region_data] is the one of the last header with that name: its
    declared total, and the sums over the schools of that span alone.  The
    schools of every span, also of the earlier ones of the same name, stay
    in the list of schools. *)
Theorem region_data_last_header_wins before sp after schools rd :
  extract_school_data (before ++ sp :: after) = Ok (schools, rd) ->
  ~ In (rs_name sp) (map rs_name after) ->
  (exists total,
     py_int (rs_pacts sp) = Ok total /\
     rd !! rs_name sp
     = Some {| ri_pacts := total;
               ri_school_pacts :=
                 zsum (map (fun m => s_pacts (match_school (rs_name sp) m))
                           (rs_matches sp));
               ri_pupils :=
                 zsum (map (fun m => s_pupils (match_school (rs_name sp) m))
                           (rs_matches sp));
               ri_school_count := Z.of_nat (length (rs_matches sp)) |}) /\
  (forall sp' m,
     In sp' (before ++ sp :: after) -> In m (rs_matches sp') ->
     school_of_match (rs_name sp') m = Ok (match_school (rs_name sp') m) /\
     In (match_school (rs_name sp') m) schools).
Proof.
  intros H Hlast.
  assert (Hc : bundle_convertible (before ++ sp :: after) = true).
  { destruct (before ++ sp :: after) as [ | sp0 l] eqn:E; [discriminate H | ].
    rewrite extract_school_data_eq in H.
    destruct (bundle_convertible (sp0 :: l)); [reflexivity | discriminate H]. }
  unfold bundle_convertible in Hc. rewrite forallb_forall in Hc.
  apply extract_school_data_spec in H as [-> ->]. split.
  - exists (int_value (rs_pacts sp)). split.
    + rewrite py_int_convertible.
      assert (Hsp : span_convertible sp = true)
        by (apply Hc, in_or_app; right; now left).
      unfold span_convertible in Hsp. apply andb_true_iff in Hsp as [-> _].
      reflexivity.
    + rewrite fold_left_app. cbn [fold_left].
      rewrite region_data_fold_frame by exact Hlast.
      rewrite lookup_insert_eq. unfold span_info, span_schools.
      now rewrite !map_map.
  - intros sp' m Hsp Hm. split.
    + rewrite school_of_match_convertible.
      pose proof (Hc sp' Hsp) as Hsp'. unfold span_convertible in Hsp'.
      apply andb_true_iff in Hsp' as [_ Hms]. rewrite forallb_forall in Hms.
      now rewrite (Hms m Hm).
    + unfold parsed_schools. apply in_concat. exists (span_schools sp'). split.
      * now apply in_map.
      * unfold span_schools. now apply in_map.
Qed.

Lemma twice_kent_extracts :
  extract_school_data twice_kent_spans
  = Ok (parsed_schools twice_kent_spans, region_data_of twice_kent_spans).
Proof. vm_compute. reflexivity. Qed.

Lemma region_data_last_header_wins_witness :
  extract_school_data twice_kent_spans
    = Ok (parsed_schools twice_kent_spans, region_data_of twice_kent_spans) /\
  region_data_of twice_kent_spans !! "Kent" = Some (mkInfo 7 0 0 0) /\
  map s_region (parsed_schools twice_kent_spans) = ["Kent"; "Kent"].
Proof.
  split; [exact twice_kent_extracts | ]. split; [ | reflexivity].
  destruct (proj1 (region_data_last_header_wins [kent_span]
                     (mkSpan "Kent" "7" []) [] _ _ twice_kent_extracts
                     (fun H => H)))
    as (total & Ht & Hrd).
  injection Ht as <-. exact Hrd.
Defined.

Lemma digit_val_bounds c : is_digit c = true -> 0 <= digit_val c <= 9.
Proof.
  unfold is_digit, digit_val. intros H.
  apply andb_true_iff in H as [H1 H2].
  apply Nat.leb_le in H1. apply Nat.leb_le in H2. lia.
Qed.

Lemma int_of_digits_bounds s : forall acc,
  all_digits s = true -> 0 <= acc ->
  acc * 10 ^ Z.of_nat (String.length s) <= int_of_digits acc s
  < (acc + 1) * 10 ^ Z.of_nat (String.length s).
Proof.
  induction s as [ | c s IH]; intros acc Hd Hacc.
  - simpl. lia.
  - cbn [all_digits] in Hd. apply andb_true_iff in Hd as [Hc Hs].
    pose proof (digit_val_bounds c Hc) as Hv.
    cbn [int_of_digits String.length]. rewrite Nat2Z.inj_succ, Z.pow_succ_r by lia.
    specialize (IH (10 * acc + digit_val c) Hs ltac:(lia)).
    assert (0 < 10 ^ Z.of_nat (String.length s)) by (apply Z.pow_pos_nonneg; lia).
    nia.
Qed.

Lemma int_value_bounds s :
  all_digits s = true -> 0 <= int_value s < 10 ^ Z.of_nat (String.length s).
Proof.
  intros H. pose proof (int_of_digits_bounds s 0 H ltac:(lia)) as B.
  unfold int_value. lia.
Qed.

Lemma py_int_bounds s n :
  py_int s = Ok n -> 0 <= n < 10 ^ Z.of_nat (String.length s).
Proof.
  intros H. pose proof (py_int_Ok s n H) as (D & _ & _).
  rewrite (py_int_value s n H). now apply int_value_bounds.
Qed.

Lemma match_school_nonneg name m :
  match_digits m = true ->
  0 <= s_pacts (match_school name m) /\
  0 <= s_pupils (match_school name m) /\
  0 <= s_high_age (match_school name m) /\
  0 <= s_low_age (match_school name m).
Proof.
  unfold match_digits. intros H.
  apply andb_true_iff in H as [H Hlow]. apply andb_true_iff in H as [H Hhigh].
  apply andb_true_iff in H as [Hpacts Hpupils].
  pose proof (int_value_bounds _ Hpacts). pose proof (int_value_bounds _ Hpupils).
  pose proof (int_value_bounds _ Hhigh). pose proof (int_value_bounds _ Hlow).
  cbn [match_school s_pacts s_pupils s_high_age s_low_age].
  destruct (String.eqb (g_pupils m) ""); lia.
Qed.


(** X3.  On a bundle whose numeric groups are digit strings, as the
    patterns capture them, [int] never gives a negative number: when the
    extraction returns, every count and age of every school is
    non-negative, a pupil group that is empty counts as 0, and so are the
    declared totals and all the sums of [region_data]; [int] returns for
    every digit string of 1 to 4300 characters, and what it returns for a
    string of [n] characters is below [10 ^ n]. *)
Theorem parsed_numbers_nonneg spans schools rd :
  bundle_digits spans = true ->
  extract_school_data spans = Ok (schools, rd) ->
  Forall (fun s => 0 <= s_pacts s /\ 0 <= s_pupils s /\
                   0 <= s_high_age s /\ 0 <= s_low_age s) schools /\
  (forall name m s,
     g_pupils m = "" -> school_of_match name m = Ok s -> s_pupils s = 0) /\
  (forall name info, rd !! name = Some info ->
     0 <= ri_pacts info /\ 0 <= ri_school_pacts info /\
     0 <= ri_pupils info /\ 0 <= ri_school_count info) /\
  (forall s, all_digits s = true ->
     0 <= int_value s < 10 ^ Z.of_nat (String.length s) /\
     (s <> "" -> (String.length s <= int_max_str_digits)%nat ->
      py_int s = Ok (int_value s))) /\
  (forall s n, py_int s = Ok n ->
     0 <= n < 10 ^ Z.of_nat (String.length s)).
Proof.
  intros Hd H. apply extract_school_data_spec in H as [-> ->].
  split; [ | split; [ | split; [ | split]]].
  - unfold parsed_schools, bundle_digits in *.
    induction spans as [ | sp spans IH]; cbn [map concat]; [constructor | ].
    cbn [forallb] in Hd. apply andb_true_iff in Hd as [Hsp Hd].
    apply Forall_app. split; [ | now apply IH].
    unfold span_digits in Hsp. apply andb_true_iff in Hsp as [_ Hms].
    unfold span_schools. apply Forall_map.
    rewrite forallb_forall in Hms. apply List.Forall_forall. intros m Hm.
    exact (match_school_nonneg (rs_name sp) m (Hms m Hm)).
  - intros name m s E Hs. apply school_of_match_value in Hs. subst s.
    cbn [match_school s_pupils]. now rewrite E.
  - assert (G : forall spans (d : gmap string region_info),
              bundle_digits spans = true ->
              (forall name info, d !! name = Some info ->
                 0 <= ri_pacts info /\ 0 <= ri_school_pacts info /\
                 0 <= ri_pupils info /\ 0 <= ri_school_count info) ->
              forall name info,
                fold_left (fun d sp => <[rs_name sp := span_info sp]> d) spans d
                  !! name = Some info ->
                0 <= ri_pacts info /\ 0 <= ri_school_pacts info /\
                0 <= ri_pupils info /\ 0 <= ri_school_count info).
    { clear. induction spans as [ | sp spans IH]; intros d Hd Hinv name info;
        cbn [fold_left]; [apply Hinv | ].
      unfold bundle_digits in Hd. cbn [forallb] in Hd.
      apply andb_true_iff in Hd as [Hsp Hd]. apply IH; [exact Hd | ].
      intros k i Hk. destruct (decide (rs_name sp = k)) as [E | NE].
      - rewrite <- E, lookup_insert_eq in Hk. injection Hk as <-.
        unfold span_digits in Hsp. apply andb_true_iff in Hsp as [Hp Hms].
        pose proof (int_value_bounds _ Hp).
        rewrite forallb_forall in Hms.
        cbn [span_info ri_pacts ri_school_pacts ri_pupils ri_school_count].
        unfold span_schools. rewrite !map_map.
        repeat apply conj; try lia.
        + apply zsum_map_nonneg_list. apply List.Forall_forall. intros m Hm.
          pose proof (match_school_nonneg (rs_name sp) m (Hms m Hm)). tauto.
        + apply zsum_map_nonneg_list. apply List.Forall_forall. intros m Hm.
          pose proof (match_school_nonneg (rs_name sp) m (Hms m Hm)). tauto.
      - rewrite lookup_insert_ne in Hk by exact NE. eapply Hinv; eauto. }
    apply G; [exact Hd | ]. intros name info Hk.
    rewrite lookup_empty in Hk. discriminate.
  - intros s Hs. split; [now apply int_value_bounds | ].
    intros Hne Hlen. rewrite py_int_convertible. unfold convertible.
    rewrite Hs. apply Nat.leb_le in Hlen. rewrite Hlen.
    destruct s; [now destruct Hne | reflexivity].
  - exact py_int_bounds.
Qed.

Lemma kent_spans_digits : bundle_digits kent_spans = true.
Proof. reflexivity. Qed.

Lemma kent_extracts :
  extract_school_data kent_spans
  = Ok (parsed_schools kent_spans, region_data_of kent_spans).
Proof. vm_compute. reflexivity. Qed.

Lemma parsed_numbers_nonneg_witness :
  bundle_digits kent_spans = true /\
  extract_school_data kent_spans
    = Ok (parsed_schools kent_spans, region_data_of kent_spans) /\
  Forall (fun s => 0 <= s_pacts s /\ 0 <= s_pupils s /\
                   0 <= s_high_age s /\ 0 <= s_low_age s)
         (parsed_schools kent_spans).
Proof.
  split; [exact kent_spans_digits | ]. split; [exact kent_extracts | ].
  exact (proj1 (parsed_numbers_nonneg kent_spans _ _ kent_spans_digits
                  kent_extracts)).
Defined.

(** ** Escaped apostrophes *)

Lemma append_empty_l s : "" +:+ s = s.
Proof. reflexivity. Qed.

Lemma replace_from_skip old new u : forall t,
  replace_from old new (String.length u) (u +:+ t) = replace_from old new 0 t.
Proof.
  induction u as [ | c u IH]; intros t; [reflexivity | ].
  rewrite append_cons. cbn [String.length replace_from]. apply IH.
Qed.

Lemma prefix_append old t : String.prefix old (old +:+ t) = true.
Proof.
  induction old as [ | c old IH]; [now destruct t | ].
  rewrite append_cons. cbn [String.prefix].
  destruct (ascii_dec c c) as [_ | NE]; [exact IH | now destruct NE].
Qed.

Lemma replace_from_hit c old new t :
  replace_from (String c old) new 0 (String c old +:+ t)
  = new +:+ replace_from (String c old) new 0 t.
Proof.
  pose proof (prefix_append (String c old) t) as P.
  rewrite append_cons in *. cbn [replace_from]. rewrite P.
  cbn [String.length]. rewrite Nat.sub_1_r. cbn [Nat.pred].
  now rewrite replace_from_skip.
Qed.

Lemma replace_from_clean old new a : forall t,
  no_backslash a = true ->
  replace_from (String "\" old) new 0 (a +:+ t)
  = a +:+ replace_from (String "\" old) new 0 t.
Proof.
  induction a as [ | c a IH]; intros t H; [reflexivity | ].
  cbn [no_backslash] in H. apply andb_true_iff in H as [Hc Ha].
  rewrite !append_cons. cbn [replace_from String.prefix].
  destruct (ascii_dec "\" c) as [E | _].
  - subst c. discriminate Hc.
  - now rewrite IH.
Qed.

(** X4.  [unescape] leaves a text without a backslash as it is, and turns
    each of the two escaped forms of the apostrophe that follows such a
    text into one apostrophe, going on with the rest. *)
Theorem unescape_apostrophes a b :
  no_backslash a = true ->
  unescape a = a /\
  unescape (a +:+ "\'" +:+ b) = a +:+ "'" +:+ unescape b /\
  unescape (a +:+ "\u0027" +:+ b) = a +:+ "'" +:+ unescape b.
Proof.
  intros Ha. unfold unescape, py_replace. split; [ | split].
  - rewrite <- (append_empty_r a) at 1.
    rewrite replace_from_clean by exact Ha. cbn [replace_from].
    rewrite append_empty_r. rewrite <- (append_empty_r a) at 1.
    rewrite replace_from_clean by exact Ha. cbn [replace_from].
    apply append_empty_r.
  - rewrite replace_from_clean by exact Ha.
    rewrite !append_cons, append_empty_l. cbn [replace_from String.prefix].
    destruct (ascii_dec "\" "\") as [_ | NE]; [ | now destruct NE].
    destruct (ascii_dec "u" "'") as [E | _]; [discriminate E | ].
    destruct (ascii_dec "\" "'") as [E | _]; [discriminate E | ].
    rewrite replace_from_clean by exact Ha.
    pose proof (replace_from_hit "\" "'" "'" (replace_from "\u0027" "'" 0 b)) as Hh.
    rewrite !append_cons, !append_empty_l in Hh. now rewrite Hh.
  - rewrite replace_from_clean by exact Ha.
    rewrite replace_from_hit. rewrite replace_from_clean by exact Ha.
    rewrite !append_cons, append_empty_l. cbn [replace_from String.prefix].
    destruct (ascii_dec "\" "'") as [E | _]; [discriminate E | ].
    reflexivity.
Qed.

Lemma unescape_apostrophes_witness :
  no_backslash "St Mary" = true /\
  unescape ("St Mary" +:+ "\'" +:+ "s") = "St Mary's" /\
  unescape ("St Mary" +:+ "\u0027" +:+ "s") = "St Mary's".
Proof.
  split; [reflexivity | ].
  exact (proj2 (unescape_apostrophes "St Mary" "s" eq_refl)).
Defined.

(** ** The normal form of a postcode *)

Lemma is_space_blank c : Ascii.eqb c " " = true -> is_space c = true.
Proof. intros H. apply Ascii.eqb_eq in H. now subst c. Qed.

Lemma lstrip_remove_spaces s :
  lstrip (remove_spaces s) = remove_spaces (lstrip s).
Proof.
  induction s as [ | c s IH]; [reflexivity | ].
  cbn [remove_spaces lstrip].
  destruct (Ascii.eqb c " ") eqn:Ec.
  - now rewrite (is_space_blank c Ec).
  - cbn [lstrip]. destruct (is_space c); [exact IH | ].
    cbn [remove_spaces]. now rewrite Ec.
Qed.

Lemma remove_spaces_rstrip_empty s :
  remove_spaces (rstrip s) = "" -> rstrip s = "".
Proof.
  induction s as [ | c s IH]; [reflexivity | ].
  cbn [rstrip]. destruct (rstrip s) as [ | d t] eqn:E.
  - destruct (is_space c) eqn:Sc; [reflexivity | ].
    cbn [remove_spaces]. destruct (Ascii.eqb c " ") eqn:Ec; [ | discriminate].
    now rewrite (is_space_blank c Ec) in Sc.
  - intros H. cbn [remove_spaces] in H.
    destruct (Ascii.eqb c " "); [ | discriminate H].
    specialize (IH H). discriminate IH.
Qed.

Lemma rstrip_remove_spaces s :
  rstrip (remove_spaces s) = remove_spaces (rstrip s).
Proof.
  induction s as [ | c s IH]; [reflexivity | ].
  cbn [remove_spaces rstrip].
  destruct (Ascii.eqb c " ") eqn:Ec.
  - rewrite IH. destruct (rstrip s) as [ | d t] eqn:E.
    + now rewrite (is_space_blank c Ec).
    + cbn [remove_spaces]. now rewrite Ec.
  - cbn [rstrip]. rewrite IH. destruct (rstrip s) as [ | d t] eqn:E.
    + cbn [remove_spaces]. destruct (is_space c); [reflexivity | ].
      cbn [remove_spaces]. now rewrite Ec.
    + pose proof (remove_spaces_rstrip_empty s) as N. rewrite E in N.
      destruct (remove_spaces (String d t)) as [ | d' t'] eqn:R.
      * specialize (N eq_refl). discriminate N.
      * rewrite <- R. cbn [remove_spaces]. now rewrite Ec.
Qed.

Lemma lstrip_head s :
  lstrip s = "" \/ exists c t, lstrip s = String c t /\ is_space c = false.
Proof.
  induction s as [ | c s IH]; [now left | ].
  cbn [lstrip]. destruct (is_space c) eqn:Sc; [exact IH | ].
  right. now exists c, s.
Qed.

Lemma rstrip_idem s : rstrip (rstrip s) = rstrip s.
Proof.
  induction s as [ | c s IH]; [reflexivity | ].
  cbn [rstrip]. destruct (rstrip s) as [ | d t] eqn:E.
  - destruct (is_space c) eqn:Sc; [reflexivity | ].
    cbn [rstrip]. now rewrite Sc.
  - cbn [rstrip] in *. now rewrite IH.
Qed.

Lemma lstrip_rstrip_lstrip s : lstrip (rstrip (lstrip s)) = rstrip (lstrip s).
Proof.
  destruct (lstrip_head s) as [E | (c & t & E & Sc)]; rewrite E; [reflexivity | ].
  cbn [rstrip]. destruct (rstrip t) as [ | d u].
  - rewrite Sc. cbn [lstrip]. now rewrite Sc.
  - cbn [lstrip]. now rewrite Sc.
Qed.

Lemma py_strip_idem s : py_strip (py_strip s) = py_strip s.
Proof.
  unfold py_strip. rewrite lstrip_rstrip_lstrip. apply rstrip_idem.
Qed.

Lemma py_strip_remove_spaces s :
  py_strip (remove_spaces s) = remove_spaces (py_strip s).
Proof.
  unfold py_strip. now rewrite lstrip_remove_spaces, rstrip_remove_spaces.
Qed.

Lemma py_upper_app s t : py_upper (s +:+ t) = py_upper s +:+ py_upper t.
Proof.
  induction s as [ | c s IH]; [reflexivity | ].
  rewrite append_cons. cbn [py_upper]. now rewrite append_cons, IH.
Qed.

Lemma remove_spaces_app s t :
  remove_spaces (s +:+ t) = remove_spaces s +:+ remove_spaces t.
Proof.
  induction s as [ | c s IH]; [reflexivity | ].
  rewrite append_cons. cbn [remove_spaces].
  destruct (Ascii.eqb c " "); [exact IH | ]. now rewrite append_cons, IH.
Qed.

Lemma normalize_postcode_fixed pc :
  let n := normalize_postcode pc in
  py_upper n = n /\ py_strip n = n /\ remove_spaces n = n.
Proof.
  unfold normalize_postcode. cbv zeta. split; [ | split].
  - unfold py_strip.
    now rewrite py_upper_remove_spaces, py_upper_rstrip, py_upper_lstrip,
      py_upper_idem.
  - now rewrite py_strip_remove_spaces, py_strip_idem.
  - apply remove_spaces_idem.
Qed.

Lemma ascii_upper_below c :
  (nat_of_ascii c <? 128)%nat = true ->
  (nat_of_ascii (ascii_upper c) <? 128)%nat = true.
Proof.
  intros H. unfold ascii_upper.
  destruct ((97 <=? nat_of_ascii c) && (nat_of_ascii c <=? 122))%nat eqn:E;
    [ | exact H].
  apply Nat.ltb_lt in H. apply Nat.ltb_lt.
  rewrite nat_ascii_embedding by lia. lia.
Qed.

Lemma is_ascii_upper s : is_ascii s = true -> is_ascii (py_upper s) = true.
Proof.
  induction s as [ | c s IH]; [reflexivity | ].
  cbn [is_ascii py_upper]. intros H. apply andb_true_iff in H as [Hc Hs].
  now rewrite (ascii_upper_below c Hc), IH.
Qed.

Lemma is_ascii_lstrip s : is_ascii s = true -> is_ascii (lstrip s) = true.
Proof.
  induction s as [ | c s IH]; [reflexivity | ].
  cbn [lstrip]. destruct (is_space c); [ | tauto].
  cbn [is_ascii]. intros H. apply andb_true_iff in H as [_ Hs]. now apply IH.
Qed.

Lemma is_ascii_rstrip s : is_ascii s = true -> is_ascii (rstrip s) = true.
Proof.
  induction s as [ | c s IH]; [reflexivity | ].
  cbn [is_ascii rstrip]. intros H. apply andb_true_iff in H as [Hc Hs].
  specialize (IH Hs). destruct (rstrip s) as [ | d t].
  - destruct (is_space c); [reflexivity | ]. cbn [is_ascii]. now rewrite Hc.
  - change (is_ascii (String c (String d t)))
      with ((nat_of_ascii c <? 128)%nat && is_ascii (String d t)).
    now rewrite Hc, IH.
Qed.

Lemma is_ascii_remove_spaces s :
  is_ascii s = true -> is_ascii (remove_spaces s) = true.
Proof.
  induction s as [ | c s IH]; [reflexivity | ].
  cbn [is_ascii remove_spaces]. intros H. apply andb_true_iff in H as [Hc Hs].
  destruct (Ascii.eqb c " "); [now apply IH | ].
  cbn [is_ascii]. now rewrite Hc, IH.
Qed.

Lemma is_ascii_normalize pc :
  is_ascii pc = true -> is_ascii (normalize_postcode pc) = true.
Proof.
  intros H. unfold normalize_postcode, py_strip.
  now apply is_ascii_remove_spaces, is_ascii_rstrip, is_ascii_lstrip,
    is_ascii_upper.
Qed.

(** X5.  For ASCII postcodes, on which [py_upper] and [py_strip] are
    [str.upper] and [str.strip], the cache key is a normal form: it is
    ASCII again, has no lower case letter, no white space at either end and
    no space, and normalising it again changes nothing.  Two ASCII
    spellings that differ only in case or in a space have the same key. *)
Theorem normalize_postcode_canonical pc a b :
  is_ascii pc = true -> is_ascii a = true -> is_ascii b = true ->
  is_ascii (normalize_postcode pc) = true /\
  py_upper (normalize_postcode pc) = normalize_postcode pc /\
  py_strip (normalize_postcode pc) = normalize_postcode pc /\
  remove_spaces (normalize_postcode pc) = normalize_postcode pc /\
  normalize_postcode (normalize_postcode pc) = normalize_postcode pc /\
  normalize_postcode (py_upper pc) = normalize_postcode pc /\
  normalize_postcode (a +:+ " " +:+ b) = normalize_postcode (a +:+ b).
Proof.
  intros Hpc _ _. split; [now apply is_ascii_normalize | ].
  destruct (normalize_postcode_fixed pc) as (U & S & R).
  repeat apply conj; try assumption.
  - unfold normalize_postcode at 1. now rewrite U, S, R.
  - unfold normalize_postcode. now rewrite py_upper_idem.
  - unfold normalize_postcode.
    rewrite <- !py_strip_remove_spaces. f_equal.
    rewrite !py_upper_app, !remove_spaces_app. reflexivity.
Qed.

Lemma normalize_postcode_canonical_witness :
  is_ascii " me1 1aa " = true /\
  normalize_postcode " me1 1aa " = "ME11AA" /\
  normalize_postcode "ME11AA" = "ME11AA" /\
  normalize_postcode ("me1" +:+ " " +:+ "1aa") = normalize_postcode ("me1" +:+ "1aa").
Proof.
  split; [reflexivity | ]. split; [reflexivity | ].
  destruct (normalize_postcode_canonical " me1 1aa " "me1" "1aa"
              eq_refl eq_refl eq_refl)
    as (_ & _ & _ & _ & Hn & _ & Hab).
  split; [exact Hn | exact Hab].
Defined.

(** ** The nation of a school *)

Lemma before_slash_clean s : has_slash (before_slash s) = false.
Proof.
  induction s as [ | c s IH]; [reflexivity | ].
  cbn [before_slash]. destruct (Ascii.eqb c "/") eqn:E; [reflexivity | ].
  cbn [has_slash]. now rewrite E.
Qed.

Lemma before_slash_split s :
  has_slash s = true -> exists rest, s = before_slash s +:+ "/" +:+ rest.
Proof.
  induction s as [ | c s IH]; [discriminate | ].
  cbn [has_slash before_slash]. destruct (Ascii.eqb c "/") eqn:E.
  - intros _. apply Ascii.eqb_eq in E. subst c. now exists s.
  - cbn [orb]. intros H. destruct (IH H) as [rest Hr].
    exists rest. rewrite append_cons. now rewrite <- Hr.
Qed.

Lemma slash_after p rest :
  has_slash p = false ->
  has_slash (p +:+ "/" +:+ rest) = true /\ before_slash (p +:+ "/" +:+ rest) = p.
Proof.
  induction p as [ | c p IH]; [now split | ].
  cbn [has_slash]. intros H. apply orb_false_iff in H as [Hc Hp].
  destruct (IH Hp) as [H1 H2].
  rewrite append_cons. cbn [has_slash before_slash]. rewrite Hc, H1, H2.
  now split.
Qed.

Lemma nation_counts_lookup schools : forall (nations : gmap string Z) p,
  default 0 (fold_left count_nation schools nations !! p)
  = default 0 (nations !! p)
    + Z.of_nat (length (List.filter
                          (fun s => String.eqb (id_prefix (s_id s)) p) schools)).
Proof.
  induction schools as [ | s schools IH]; intros nations p;
    cbn [fold_left List.filter length]; [lia | ].
  rewrite IH. unfold count_nation.
  destruct (String.eqb (id_prefix (s_id s)) p) eqn:E.
  - apply String.eqb_eq in E. rewrite E, lookup_insert_eq.
    cbn [length from_option id]. lia.
  - apply String.eqb_neq in E. rewrite lookup_insert_ne by exact E. lia.
Qed.

Lemma nation_counts_present schools : forall (nations : gmap string Z) p,
  is_Some (fold_left count_nation schools nations !! p)
  <-> is_Some (nations !! p) \/ exists s, In s schools /\ id_prefix (s_id s) = p.
Proof.
  induction schools as [ | s schools IH]; intros nations p; cbn [fold_left In].
  - split; [now left | ]. intros [H | (s & [] & _)]. exact H.
  - rewrite IH. unfold count_nation.
    destruct (decide (id_prefix (s_id s) = p)) as [E | NE].
    + rewrite E, lookup_insert_eq. split.
      * intros _. right. exists s. split; [now left | exact E].
      * intros _. left. eauto.
    + rewrite lookup_insert_ne by exact NE. split.
      * intros [H | (s' & Hs' & E')]; [now left | ].
        right. exists s'. split; [now right | exact E'].
      * intros [H | (s' & [<- | Hs'] & E')]; [now left | now destruct NE | ].
        right. now exists s'.
Qed.

(** X6.  The nation prefix of a school id is the text before its first
    slash, and ["unknown"] for an id without a slash; the prefix itself
    has no slash and the id is the prefix, a slash and a rest.  The
    [Counter] of [extract_school_data] holds, for each prefix, the number
    of schools that have it, and no key that no school has. *)
Theorem nation_prefix_counts schools sid p rest :
  (has_slash sid = false -> id_prefix sid = "unknown") /\
  (has_slash sid = true ->
     has_slash (id_prefix sid) = false /\
     exists rest', sid = id_prefix sid +:+ "/" +:+ rest') /\
  (has_slash p = false -> id_prefix (p +:+ "/" +:+ rest) = p) /\
  default 0 (nation_counts schools !! p)
  = Z.of_nat (length (List.filter
                        (fun s => String.eqb (id_prefix (s_id s)) p) schools)) /\
  (is_Some (nation_counts schools !! p)
   <-> exists s, In s schools /\ id_prefix (s_id s) = p).
Proof.
  split; [ | split; [ | split; [ | split]]].
  - unfold id_prefix. now intros ->.
  - unfold id_prefix. intros H. rewrite H. split.
    + apply before_slash_clean.
    + now apply before_slash_split.
  - intros H. unfold id_prefix. now destruct (slash_after p rest H) as [-> ->].
  - unfold nation_counts. rewrite nation_counts_lookup, lookup_empty.
    cbn [from_option id]. lia.
  - unfold nation_counts. rewrite nation_counts_present, lookup_empty.
    split; [intros [[x Hx] | H]; [discriminate | exact H] | now right].
Qed.

(** ** The postcodes sent to the service *)

Lemma ascii_compare_refl c : Ascii.compare c c = Eq.
Proof. unfold Ascii.compare. apply N.compare_refl. Qed.

Lemma string_compare_trans a : forall b c,
  String.compare a b = Lt -> String.compare b c = Lt -> String.compare a c = Lt.
Proof.
  induction a as [ | x a IH]; intros [ | y b] [ | z c]; cbn [String.compare];
    try congruence.
  destruct (Ascii.compare x y) eqn:E1; destruct (Ascii.compare y z) eqn:E2;
    try discriminate.
  - apply Ascii.compare_eq_iff in E1. apply Ascii.compare_eq_iff in E2.
    subst. rewrite ascii_compare_refl. apply IH.
  - apply Ascii.compare_eq_iff in E1. subst. now rewrite E2.
  - apply Ascii.compare_eq_iff in E2. subst. now rewrite E1.
  - unfold Ascii.compare in *. rewrite N.compare_lt_iff in E1, E2.
    assert (E : (N_of_ascii x ?= N_of_ascii z)%N = Lt)
      by (apply N.compare_lt_iff; lia).
    now rewrite E.
Qed.

Lemma string_compare_irrefl a : String.compare a a <> Lt.
Proof.
  intros H. pose proof (String.compare_antisym a a) as A.
  rewrite H in A. discriminate A.
Qed.

Lemma sorted_insert_In_iff x y l : In x (sorted_insert y l) <-> x = y \/ In x l.
Proof.
  split; [apply sorted_insert_In | ].
  induction l as [ | z l IH]; cbn [sorted_insert In]; [intuition congruence | ].
  destruct (String.compare y z) eqn:E; cbn [In].
  - apply String.compare_eq_iff in E. subst z. intuition congruence.
  - intuition congruence.
  - intuition congruence.
Qed.

Lemma sorted_set_In_iff x l : In x (sorted_set l) <-> In x l.
Proof.
  unfold sorted_set. induction l as [ | y l IH]; cbn [fold_right In]; [tauto | ].
  rewrite sorted_insert_In_iff, IH. intuition congruence.
Qed.

Lemma sorted_insert_sorted x l :
  StronglySorted (fun a b => String.compare a b = Lt) l ->
  StronglySorted (fun a b => String.compare a b = Lt) (sorted_insert x l).
Proof.
  induction l as [ | y l IH]; intros Hs; cbn [sorted_insert].
  - repeat constructor.
  - inversion Hs as [ | ? ? Hl Hy]; subst.
    destruct (String.compare x y) eqn:E; [exact Hs | | ].
    + constructor; [exact Hs | ]. constructor; [exact E | ].
      eapply Forall_impl; [exact Hy | ]. intros z Hz.
      now apply (string_compare_trans x y z).
    + constructor; [now apply IH | ].
      apply List.Forall_forall. intros z Hz.
      apply sorted_insert_In in Hz as [-> | Hz].
      * rewrite String.compare_antisym, E. reflexivity.
      * rewrite List.Forall_forall in Hy. now apply Hy.
Qed.

Lemma sorted_set_sorted l :
  StronglySorted (fun a b => String.compare a b = Lt) (sorted_set l).
Proof.
  unfold sorted_set. induction l as [ | x l IH]; cbn [fold_right].
  - constructor.
  - now apply sorted_insert_sorted.
Qed.

Lemma strictly_sorted_NoDup l :
  StronglySorted (fun a b => String.compare a b = Lt) l -> List.NoDup l.
Proof.
  induction 1 as [ | x l Hl IH Hx]; constructor; [ | exact IH].
  intros Hin. rewrite List.Forall_forall in Hx.
  exact (string_compare_irrefl x (Hx x Hin)).
Qed.

Lemma new_postcodes_In (cached : cache) schools pc :
  In pc (new_postcodes cached schools) <->
  pc <> "" /\ cached !! pc = None /\
  exists s, In s schools /\ normalize_postcode (s_postcode s) = pc.
Proof.
  unfold new_postcodes. rewrite sorted_set_In_iff, filter_In, in_map_iff.
  rewrite andb_true_iff, negb_true_iff, bool_decide_eq_true, String.eqb_neq.
  split.
  - intros [(s & E & Hs) [Hne Hc]]. repeat split; try assumption.
    exists s. now split.
  - intros (Hne & Hc & s & Hs & E). split; [ | now split].
    exists s. now split.
Qed.

(** X7.  The postcodes that a run asks the service about are exactly the
    normalised postcodes of the schools that are not empty and not in the
    cache as it was loaded; they are listed once each, in ascending
    order. *)
Theorem new_postcodes_exact (cached : cache) schools :
  (forall pc,
     In pc (new_postcodes cached schools) <->
     pc <> "" /\ cached !! pc = None /\
     exists s, In s schools /\ normalize_postcode (s_postcode s) = pc) /\
  StronglySorted (fun a b => String.compare a b = Lt)
                 (new_postcodes cached schools) /\
  List.NoDup (new_postcodes cached schools).
Proof.
  split; [intros pc; apply new_postcodes_In | ].
  assert (S : StronglySorted (fun a b => String.compare a b = Lt)
                (new_postcodes cached schools))
    by apply sorted_set_sorted.
  split; [exact S | now apply strictly_sorted_NoDup].
Qed.

Lemma batches_take (l : list string) k :
  concat (map (fun j => take batch_size (drop (j * batch_size) l)) (seq 0 k))
  = take (k * batch_size) l.
Proof.
  induction k as [ | k IH]; [reflexivity | ].
  rewrite seq_S, map_app, concat_app, IH. cbn [map concat Nat.add].
  rewrite app_nil_r, take_take_drop. f_equal. lia.
Qed.

(** X8.  The batches are a partition of the list of new postcodes: put
    end to end they give the list back, so every postcode is sent in
    exactly one request; no batch is empty and none has more than 100
    postcodes, and there are [ceil(n / 100)] of them. *)
Theorem batches_partition (l : list string) :
  concat (batches l) = l /\
  Forall (fun b => (0 < length b <= 100)%nat) (batches l) /\
  length (batches l) = ((length l + 99) / 100)%nat.
Proof.
  unfold batches. split; [ | split].
  - rewrite batches_take. apply take_ge. unfold batch_size.
    pose proof (Nat.div_mod_eq (length l + 100 - 1) 100) as D.
    pose proof (Nat.mod_upper_bound (length l + 100 - 1) 100 ltac:(lia)) as M.
    lia.
  - apply Forall_map. apply List.Forall_forall. intros j Hj.
    apply in_seq in Hj. cbn [Nat.add] in Hj.
    rewrite length_take, length_drop. unfold batch_size in *.
    pose proof (Nat.div_mod_eq (length l + 100 - 1) 100) as D.
    pose proof (Nat.mod_upper_bound (length l + 100 - 1) 100 ltac:(lia)) as M.
    cbn [id]. lia.
  - rewrite length_map, length_seq. unfold batch_size. f_equal. lia.
Qed.

(** ** What a run adds to the cache *)

Lemma apply_item_lookup (cached : cache) item k v :
  apply_item cached item !! k = Some v ->
  cached !! k = Some v \/
  exists r la lo,
    k = item_key item /\ result item = Some r /\
    latitude r = Some la /\ longitude r = Some lo /\
    py_truthy la = true /\ py_truthy lo = true /\
    v = (py_round la 5, py_round lo 5).
Proof.
  unfold apply_item. fold (item_key item).
  destruct (result item) as [r | ]; [ | now left].
  destruct (latitude r) as [la | ] eqn:Ela; [ | now left].
  destruct (longitude r) as [lo | ] eqn:Elo; [ | now left].
  destruct (py_truthy la) eqn:Tla; [ | now left].
  destruct (py_truthy lo) eqn:Tlo; [ | now left].
  cbn [andb]. destruct (decide (item_key item = k)) as [E | NE].
  - rewrite <- E, lookup_insert_eq. intros [= <-]. right.
    exists r, la, lo. repeat split; assumption.
  - rewrite lookup_insert_ne by exact NE. now left.
Qed.

Lemma apply_items_lookup items : forall (cached : cache) k v,
  fold_left apply_item items cached !! k = Some v ->
  cached !! k = Some v \/
  exists item r la lo,
    In item items /\
    k = item_key item /\ result item = Some r /\
    latitude r = Some la /\ longitude r = Some lo /\
    py_truthy la = true /\ py_truthy lo = true /\
    v = (py_round la 5, py_round lo 5).
Proof.
  induction items as [ | item items IH]; intros cached k v H; cbn [fold_left] in H;
    [now left | ].
  apply IH in H as [H | (it & r & la & lo & Hin & H)].
  - apply apply_item_lookup in H as [H | (r & la & lo & H)]; [now left | ].
    right. exists item, r, la, lo. split; [now left | exact H].
  - right. exists it, r, la, lo. split; [now right | exact H].
Qed.

(** X9.  Every entry of the cache after a run is either an entry of the
    cache as it was loaded, untouched, or was written for an item of one
    of the answers: an item whose result is not null and whose latitude and
    longitude are both present and not zero, under the normalised query of
    that item, with both coordinates rounded to five places.  Nothing else
    is ever stored. *)
Theorem cache_entries_provenance api (cached : cache) schools k v :
  cache_after api cached schools !! k = Some v ->
  cached !! k = Some v \/
  exists batch item r la lo,
    In batch (batches (new_postcodes cached schools)) /\
    In item (outcome_items (api batch)) /\
    k = item_key item /\ result item = Some r /\
    latitude r = Some la /\ longitude r = Some lo /\
    py_truthy la = true /\ py_truthy lo = true /\
    v = (py_round la 5, py_round lo 5).
Proof.
  unfold cache_after, resolve_batches.
  generalize (batches (new_postcodes cached schools)) as bs. intros bs.
  revert cached.
  induction bs as [ | b bs IH]; intros cached H; cbn [fold_left] in H;
    [now left | ].
  apply IH in H as [H | (b' & it & r & la & lo & Hb & H)].
  - apply apply_items_lookup in H as [H | (it & r & la & lo & Hin & H)];
      [now left | ].
    right. exists b, it, r, la, lo. split; [now left | ]. split; assumption.
  - right. exists b', it, r, la, lo. split; [now right | exact H].
Qed.

Lemma sample_run_entry :
  cache_after sample_api sample_cache [school_a; school_z] !! "ZZ99ZZ"
  = Some (decimal 521 1, decimal (-12) 1).
Proof. vm_compute. reflexivity. Qed.

Lemma cache_entries_provenance_witness :
  cache_after sample_api sample_cache [school_a; school_z] !! "ZZ99ZZ"
  = Some (decimal 521 1, decimal (-12) 1) /\
  (sample_cache !! "ZZ99ZZ" = Some (decimal 521 1, decimal (-12) 1) \/
   exists batch item r la lo,
     In batch (batches (new_postcodes sample_cache [school_a; school_z])) /\
     In item (outcome_items (sample_api batch)) /\
     "ZZ99ZZ" = item_key item /\ result item = Some r /\
     latitude r = Some la /\ longitude r = Some lo /\
     py_truthy la = true /\ py_truthy lo = true /\
     (decimal 521 1, decimal (-12) 1) = (py_round la 5, py_round lo 5)).
Proof.
  split; [exact sample_run_entry | ].
  exact (cache_entries_provenance sample_api sample_cache [school_a; school_z]
           "ZZ99ZZ" (decimal 521 1, decimal (-12) 1) sample_run_entry).
Defined.

(** ** A run on a warm cache *)




(** ** The figures printed by the metrics step *)

Lemma for_each_Raise {A B : Type} (f : A -> res B) l e :
  for_each f l = Raise e -> exists x, In x l /\ f x = Raise e.
Proof.
  induction l as [ | x l IH]; cbn [for_each]; [discriminate | ].
  destruct (f x) as [y | e'] eqn:E.
  - destruct (for_each f l) as [ys | e'']; [discriminate | ].
    intros [= <-]. destruct (IH eq_refl) as (x' & Hin & Hx').
    exists x'. split; [now right | exact Hx'].
  - intros [= <-]. exists x. split; [now left | exact E].
Qed.

Lemma engagement_pct_Raise pc pu e :
  engagement_pct pc pu = Raise e ->
  e = OverflowError /\ 0 < pu /\ int_truediv pc pu = Raise OverflowError.
Proof.
  unfold engagement_pct. destruct (pu >? 0) eqn:G; [ | discriminate].
  apply Z.gtb_lt in G. unfold int_truediv.
  destruct (pu =? 0) eqn:Z0; [apply Z.eqb_eq in Z0; lia | ].
  destruct (SFdiv prec emax (int_exact pc) (int_exact pu)); cbn;
    try discriminate.
  intros [= <-]. repeat split. exact G.
Qed.

(** X11.  The metrics step never divides by zero: the only exception it
    can raise is the [OverflowError] of a quotient of two ints that is too
    large for a float, and then for a school with a positive pupil
    count. *)
Theorem metrics_only_overflow schools e :
  calculate_metrics schools = Raise e ->
  e = OverflowError /\
  exists s, In s schools /\ 0 < s_pupils s /\
            int_truediv (s_pacts s) (s_pupils s) = Raise OverflowError.
Proof.
  intros H. apply for_each_Raise in H as (s & Hin & Hs).
  rewrite school_metric_spec in Hs.
  destruct (engagement_pct (s_pacts s) (s_pupils s)) as [p | e'] eqn:E;
    [discriminate Hs | ].
  cbn in Hs. injection Hs as <-.
  apply engagement_pct_Raise in E as (-> & Hpos & Hdiv).
  split; [reflexivity | ]. now exists s.
Qed.

Lemma huge_school_overflows : calculate_metrics [huge_school] = Raise OverflowError.
Proof. vm_compute. reflexivity. Qed.

Lemma metrics_only_overflow_witness :
  calculate_metrics [huge_school] = Raise OverflowError /\
  exists s, In s [huge_school] /\ 0 < s_pupils s /\
            int_truediv (s_pacts s) (s_pupils s) = Raise OverflowError.
Proof.
  split; [exact huge_school_overflows | ].
  exact (proj2 (metrics_only_overflow [huge_school] OverflowError
                  huge_school_overflows)).
Defined.

Lemma band_of_In p : In (band_of p) band_names.
Proof.
  unfold band_of, band_names.
  destruct (negb (py_ne_zero p)); [now left | ].
  destruct (py_le_int p 10); [right; now left | ].
  destruct (py_le_int p 25); [do 2 right; now left | ].
  destruct (py_le_int p 50); [do 3 right; now left | ].
  destruct (py_le_int p 75); [do 4 right; now left | ].
  do 5 right. now left.
Qed.

Lemma band_of_zero p : String.eqb (band_of p) "0%" = negb (py_ne_zero p).
Proof.
  unfold band_of. destruct (negb (py_ne_zero p)); [reflexivity | ].
  destruct (py_le_int p 10); [reflexivity | ].
  destruct (py_le_int p 25); [reflexivity | ].
  destruct (py_le_int p 50); [reflexivity | ].
  destruct (py_le_int p 75); reflexivity.
Qed.

Lemma band_total_insert (bands : gmap string Z) k n :
  In k band_names -> bands !! k = Some n ->
  band_total (<[k := n + 1]> bands) = band_total bands + 1.
Proof.
  unfold band_total, band_names. cbn [map zsum In].
  intros Hk Hn.
  repeat (destruct Hk as [<- | Hk]; [
    rewrite lookup_insert_eq;
    repeat (rewrite lookup_insert_ne by discriminate);
    rewrite Hn; cbn [from_option id]; lia | ]).
  destruct Hk.
Qed.

(** The schools with a zero and with a positive percentage. *)
Lemma fill_bands_spec schools : forall (bands : gmap string Z),
  (forall k, is_Some (bands !! k) <-> In k band_names) ->
  Forall (fun s => is_Some (s_pact_pct s)) schools ->
  exists bands',
    fill_bands schools bands = Some bands' /\
    (forall k, is_Some (bands' !! k) <-> In k band_names) /\
    band_total bands' = band_total bands + Z.of_nat (length schools) /\
    default 0 (bands' !! "0%")
    = default 0 (bands !! "0%")
      + Z.of_nat (length (List.filter
                            (fun s => match s_pact_pct s with
                                      | Some p => negb (py_ne_zero p)
                                      | None => false
                                      end) schools)).
Proof.
  induction schools as [ | s schools IH]; intros bands Hdom Hall.
  - exists bands. cbn [fill_bands length List.filter].
    repeat split; try apply Hdom; lia.
  - inversion Hall as [ | ? ? [p Hp] Hall']; subst.
    pose proof (band_of_In p) as Hin.
    destruct (proj2 (Hdom (band_of p)) Hin) as [n Hn].
    assert (Hdom' : forall k,
              is_Some (<[band_of p := n + 1]> bands !! k) <-> In k band_names).
    { intros k. destruct (decide (band_of p = k)) as [E | NE].
      - rewrite <- E, lookup_insert_eq. split; [intros _; exact Hin | eauto].
      - rewrite lookup_insert_ne by exact NE. apply Hdom. }
    destruct (IH _ Hdom' Hall') as (bands' & Hfill & Hd & Htot & Hzero).
    exists bands'.
    assert (Hstep : fill_bands (s :: schools) bands = Some bands').
    { cbn [fill_bands]. unfold count_band. rewrite Hp. cbn. rewrite Hn. cbn.
      exact Hfill. }
    split; [exact Hstep | ]. split; [exact Hd | ].
    rewrite Htot, Hzero, (band_total_insert bands _ n Hin Hn).
    cbn [length List.filter]. rewrite Hp, <- band_of_zero.
    split; [lia | ].
    destruct (String.eqb (band_of p) "0%") eqn:E.
    + apply String.eqb_eq in E. rewrite E in *. rewrite lookup_insert_eq, Hn.
      cbn [length from_option id]. lia.
    + apply String.eqb_neq in E. rewrite lookup_insert_ne by exact E. lia.
Qed.

Lemma schools_with_pct_spec schools :
  Forall (fun s => is_Some (s_pact_pct s)) schools ->
  schools_with_pct schools
  = Some (List.filter (fun s => match s_pact_pct s with
                                | Some p => py_lt (PyInt 0) p
                                | None => false
                                end) schools).
Proof.
  induction 1 as [ | s schools [p Hp] Hall IH]; [reflexivity | ].
  cbn [schools_with_pct List.filter]. rewrite Hp, IH. reflexivity.
Qed.

Lemma percent_positive_or_zero p :
  in_percent_range p -> py_lt (PyInt 0) p = py_ne_zero p.
Proof.
  intros (r & Hv & Hr & _). destruct p as [z | x].
  - cbn in Hv. injection Hv as <-. unfold Qle in Hr. cbn in Hr.
    cbn [py_lt py_ne_zero].
    destruct (Z.eqb_spec z 0) as [-> | NE]; cbn [negb]; [reflexivity | ].
    apply Z.ltb_lt. lia.
  - destruct x as [s | s | | s m e]; cbn in Hv; try discriminate Hv.
    + now destruct s.
    + injection Hv as <-. destruct s.
      * exfalso. cbn [cond_Zopp] in Hr. destruct (0 <=? e) eqn:Ee.
        -- unfold Qle in Hr. cbn in Hr. apply Z.leb_le in Ee.
           assert (0 < 2 ^ e) by (apply Z.pow_pos_nonneg; lia). nia.
        -- unfold Qle in Hr. cbn in Hr. lia.
      * assert (N : py_ne_zero (PyFloat (S754_finite false m e)) = true)
          by reflexivity.
        rewrite N. clear Hr N. cbn [py_lt int_lt_float cond_Zopp].
        destruct (0 <=? e) eqn:Ee.
        -- apply Z.leb_le in Ee.
           assert (0 < 2 ^ e) by (apply Z.pow_pos_nonneg; lia).
           apply Z.ltb_lt. nia.
        -- reflexivity.
Qed.

Lemma filter_complement {A : Type} (f g : A -> bool) (l : list A) :
  Forall (fun x => g x = negb (f x)) l ->
  (length (List.filter f l) + length (List.filter g l) = length l)%nat.
Proof.
  induction 1 as [ | x l Hx Hl IH]; [reflexivity | ].
  cbn [List.filter length]. rewrite Hx.
  destruct (f x); cbn [negb length]; lia.
Qed.

(** X12.  The distribution printed by the metrics step accounts for every
    school exactly once: the six counters, and no other key, are there and
    they add up to the number of schools.  When the counts of the schools
    are not negative, the schools of the band ["0%"] and the schools
    counted as having a calculable percentage are the two halves of the
    list. *)
Theorem distribution_counts_every_school schools schools' :
  calculate_metrics schools = Ok schools' ->
  exists bands calculable,
    pct_bands schools' = Some bands /\
    schools_with_pct schools' = Some calculable /\
    (forall k, is_Some (bands !! k) <-> In k band_names) /\
    band_total bands = Z.of_nat (length schools') /\
    (counts_nonneg schools ->
     default 0 (bands !! "0%") + Z.of_nat (length calculable)
     = Z.of_nat (length schools')).
Proof.
  intros H.
  assert (Hall : Forall (fun s => is_Some (s_pact_pct s)) schools').
  { apply calculate_metrics_inv in H.
    induction H as [ | s s' l l' [p ->] _ IH]; constructor; [ | exact IH].
    cbn. eauto. }
  assert (Hdom0 : forall k, is_Some (empty_bands !! k) <-> In k band_names).
  { intros k. unfold empty_bands, band_names. cbn [In].
    rewrite !lookup_insert_is_Some, lookup_empty.
    assert (N : ~ is_Some (@None Z)) by (intros [x Hx]; discriminate).
    destruct (decide ("76-100%" = k)); [tauto | ].
    destruct (decide ("51-75%" = k)); [tauto | ].
    destruct (decide ("26-50%" = k)); [tauto | ].
    destruct (decide ("11-25%" = k)); [tauto | ].
    destruct (decide ("1-10%" = k)); [tauto | ].
    destruct (decide ("0%" = k)); tauto. }
  destruct (fill_bands_spec schools' empty_bands Hdom0 Hall)
    as (bands & Hfill & Hdom & Htot & Hzero).
  exists bands, (List.filter (fun s => match s_pact_pct s with
                                       | Some p => py_lt (PyInt 0) p
                                       | None => false
                                       end) schools').
  split; [exact Hfill | ]. split; [now apply schools_with_pct_spec | ].
  split; [exact Hdom | ]. split; [rewrite Htot; reflexivity | ].
  intros Hnn. rewrite Hzero. change (default 0 (empty_bands !! "0%")) with 0.
  rewrite Z.add_0_l, <- Nat2Z.inj_add. f_equal.
  apply filter_complement.
  apply for_each_Forall2 in H. clear - H Hnn.
  induction H as [ | s s' l l' Hs _ IH]; [constructor | ].
  inversion Hnn as [ | ? ? [Hp _] Hnn']; subst.
  constructor; [ | now apply IH].
  rewrite school_metric_spec in Hs.
  destruct (engagement_pct (s_pacts s) (s_pupils s)) as [p | e] eqn:E;
    [ | discriminate Hs].
  cbn in Hs. injection Hs as <-. cbn [with_pct s_pact_pct].
  rewrite (percent_positive_or_zero p (engagement_pct_range _ _ _ Hp E)).
  now rewrite negb_involutive.
Qed.

Lemma sample_scored_run : calculate_metrics [school_a; school_z] = Ok sample_scored.
Proof. vm_compute. reflexivity. Qed.

Lemma distribution_counts_every_school_witness :
  calculate_metrics [school_a; school_z] = Ok sample_scored /\
  exists bands calculable,
    pct_bands sample_scored = Some bands /\
    schools_with_pct sample_scored = Some calculable /\
    (forall k, is_Some (bands !! k) <-> In k band_names) /\
    band_total bands = Z.of_nat (length sample_scored) /\
    (counts_nonneg [school_a; school_z] ->
     default 0 (bands !! "0%") + Z.of_nat (length calculable)
     = Z.of_nat (length sample_scored)).
Proof.
  split; [exact sample_scored_run | ].
  exact (distribution_counts_every_school [school_a; school_z] sample_scored
           sample_scored_run).
Defined.

(** ** The rows of the CSV export *)

(** X13.  After the metrics step the export has one row for every school,
    in the order of the schools, with the counts, the percentage and the
    coordinates of the school; the nation of a row is the full name for the
    four prefixes of the table and the prefix itself for any other id with
    a slash.  Before the metrics step the export of a school fails, since
    the school has no percentage yet. *)
Theorem export_rows_after_metrics schools schools' :
  calculate_metrics schools = Ok schools' ->
  (exists rows,
     export_csv schools' = Some rows /\
     Forall2 (fun s row =>
                c_school_id row = s_id s /\ c_region row = s_region s /\
                c_pacts row = s_pacts s /\ c_pupils row = s_pupils s /\
                s_pact_pct s = Some (c_pact_pct row) /\
                c_lat row = s_lat s /\ c_lng row = s_lng s /\
                c_nation row = nation_of (s_id s))
             schools' rows) /\
  (forall s rest, s_pact_pct s = None -> export_csv (s :: rest) = None) /\
  (forall p rest,
     has_slash p = false ->
     nation_of (p +:+ "/" +:+ rest)
     = if String.eqb p "england" then "England"
       else if String.eqb p "scotland" then "Scotland"
       else if String.eqb p "wales" then "Wales"
       else if String.eqb p "ni" then "Northern Ireland"
       else p).
Proof.
  intros H. split; [ | split].
  - apply calculate_metrics_inv in H.
    assert (G : Forall (fun s => is_Some (csv_row_of s)) schools').
    { clear - H. induction H as [ | s s' l l' [p ->] _ IH]; constructor; [ | exact IH].
      unfold csv_row_of. cbn. eauto. }
    apply mapM_is_Some_2 in G as [rows Hrows]. exists rows.
    split; [exact Hrows | ]. apply mapM_Some_1 in Hrows.
    eapply Forall2_impl; [exact Hrows | ]. intros s row Hrow. cbn in Hrow.
    unfold csv_row_of in Hrow. destruct (s_pact_pct s) as [p | ]; [ | discriminate].
    cbn in Hrow. injection Hrow as <-. cbn. repeat split.
  - intros s rest Hs. unfold export_csv. apply mapM_None_2. constructor.
    unfold csv_row_of. now rewrite Hs.
  - intros p rest Hp. unfold nation_of, id_prefix.
    destruct (slash_after p rest Hp) as [-> ->].
    unfold nation_map. cbn [al_lookup].
    destruct (String.eqb p "england"); [reflexivity | ].
    destruct (String.eqb p "scotland"); [reflexivity | ].
    destruct (String.eqb p "wales"); [reflexivity | ].
    destruct (String.eqb p "ni"); reflexivity.
Qed.

Lemma export_rows_after_metrics_witness :
  calculate_metrics [school_a; school_z] = Ok sample_scored /\
  map c_nation (default [] (export_csv sample_scored)) = ["England"; "England"] /\
  export_csv [school_a; school_z] = None.
Proof.
  split; [exact sample_scored_run | ]. split; [reflexivity | ].
  exact (proj1 (proj2 (export_rows_after_metrics [school_a; school_z]
                         sample_scored sample_scored_run))
           school_a [school_z] eq_refl).
Defined.

(** ** The aggregation by region *)

Lemma add_school_total (field : region_rec -> Z) (g : school -> Z) s :
  (forall rec, field {| r_pacts := r_pacts rec + s_pacts s;
                        r_pupils := r_pupils rec + s_pupils s;
                        r_school_count := r_school_count rec + 1;
                        r_pact_pct := r_pact_pct rec |} = field rec + g s) ->
  field region_default = 0 ->
  forall agg,
    zsum (map (fun item => field (snd item)) (add_school agg s))
    = zsum (map (fun item => field (snd item)) agg) + g s.
Proof.
  intros Hf H0. unfold add_school.
  induction agg as [ | [k r] agg IH]; cbn [al_update map zsum snd].
  - rewrite Hf, H0. lia.
  - destruct (String.eqb (s_region s) k); cbn [map zsum snd].
    + rewrite Hf. lia.
    + rewrite IH. lia.
Qed.

Lemma aggregate_regions_total (field : region_rec -> Z) (g : school -> Z) :
  (forall s rec, field {| r_pacts := r_pacts rec + s_pacts s;
                          r_pupils := r_pupils rec + s_pupils s;
                          r_school_count := r_school_count rec + 1;
                          r_pact_pct := r_pact_pct rec |} = field rec + g s) ->
  field region_default = 0 ->
  forall schools agg,
    zsum (map (fun item => field (snd item)) (fold_left add_school schools agg))
    = zsum (map (fun item => field (snd item)) agg) + zsum (map g schools).
Proof.
  intros Hf H0. induction schools as [ | s schools IH]; intros agg;
    cbn [fold_left map zsum]; [lia | ].
  rewrite IH, (add_school_total field g s (Hf s) H0). lia.
Qed.

(** X14.  Grouping the schools by region loses nothing and counts nothing
    twice: the pacts, the pupils and the school counts of the regions add
    up to those of the schools; every region of a school has one entry and
    there is no other entry. *)
Theorem aggregation_conserves_totals schools :
  zsum (map (fun item => r_pacts (snd item)) (aggregate_regions schools))
  = zsum (map s_pacts schools) /\
  zsum (map (fun item => r_pupils (snd item)) (aggregate_regions schools))
  = zsum (map s_pupils schools) /\
  zsum (map (fun item => r_school_count (snd item)) (aggregate_regions schools))
  = Z.of_nat (length schools) /\
  List.NoDup (map fst (aggregate_regions schools)) /\
  (forall r, In r (map fst (aggregate_regions schools))
             <-> exists s, In s schools /\ s_region s = r).
Proof.
  unfold aggregate_regions. repeat apply conj.
  - rewrite (aggregate_regions_total r_pacts s_pacts); [reflexivity | | ];
      reflexivity.
  - rewrite (aggregate_regions_total r_pupils s_pupils); [reflexivity | | ];
      reflexivity.
  - rewrite (aggregate_regions_total r_school_count (fun _ => 1));
      [ | reflexivity | reflexivity].
    now rewrite zsum_ones.
  - apply aggregate_regions_NoDup.
  - intros r. rewrite aggregate_regions_keys. cbn [map In]. tauto.
Qed.

(** ** The totals of a merged county *)

Lemma merge_fold_counts agg rules : forall st g names,
  List.NoDup (map fst rules) -> In (g, names) rules ->
  let st' := fold_left (merge_step agg) rules st in
  (county_pacts st' !! g, county_pupils st' !! g, county_schools st' !! g)
  = if merge_active agg names
    then (Some (zsum (map (agg_get r_pacts agg) names)),
          Some (zsum (map (agg_get r_pupils agg) names)),
          Some (zsum (map (agg_get r_school_count agg) names)))
    else (county_pacts st !! g, county_pupils st !! g, county_schools st !! g).
Proof.
  induction rules as [ | [g0 names0] rules IH]; intros st g names Hnd Hin;
    cbn [fold_left]; [destruct Hin | ].
  cbn [map fst] in Hnd. inversion Hnd as [ | ? ? Hnotin Hnd']; subst.
  cbv zeta. destruct Hin as [[= -> ->] | Hin].
  - pose proof (merge_fold_frame agg rules (merge_step agg st (g, names)) g Hnotin)
      as F.
    rewrite merge_step_entry, String.eqb_refl in F. unfold county_entry in F.
    cbn [andb] in F. destruct (merge_active agg names); congruence.
  - pose proof (IH (merge_step agg st (g0, names0)) g names Hnd' Hin) as R.
    cbv zeta in R. rewrite R.
    assert (Hne : g <> g0).
    { intros ->. apply Hnotin. apply in_map_iff. now exists (g0, names). }
    pose proof (merge_step_entry agg st g0 names0 g) as E.
    apply String.eqb_neq in Hne. rewrite Hne in E. cbn [andb] in E.
    unfold county_entry in E.
    destruct (merge_active agg names); [reflexivity | congruence].
Qed.

Lemma claim_omitted_entry st k : county_entry (claim_omitted st) k = county_entry st k.
Proof. reflexivity. Qed.

Lemma map_regions_merge_counts agg names g sfc_names :
  In (g, sfc_names) MERGE_MAP ->
  (forall n r, In (n, r) agg -> ~ In n claimed_names -> n <> g) ->
  let st := fst (map_regions agg names) in
  (county_pacts st !! g, county_pupils st !! g, county_schools st !! g)
  = if merge_active agg sfc_names
    then (Some (zsum (map (agg_get r_pacts agg) sfc_names)),
          Some (zsum (map (agg_get r_pupils agg) sfc_names)),
          Some (zsum (map (agg_get r_school_count agg) sfc_names)))
    else (None, None, None).
Proof.
  intros Hin Hfree. cbv zeta. rewrite map_regions_unfold.
  assert (Hg : In g (map fst MERGE_MAP)).
  { apply in_map_iff. now exists (g, sfc_names). }
  pose proof (direct_fold_frame names agg (claimed_state agg) [] g) as D.
  assert (Hd : forall n r, In (n, r) agg -> n ∉ already_mapped (claimed_state agg) ->
                           rename_target n <> g).
  { intros n r Hnr Hn. rewrite claimed_state_claims in Hn.
    rewrite (rename_target_unclaimed n Hn). now apply (Hfree n r). }
  specialize (D Hd).
  pose proof (national_fold_frame agg NATIONAL_REGIONS
                (fold_left (merge_step agg) MERGE_MAP empty_state) g
                (fun n cs Hr => merge_keys_not_national g n cs Hg Hr)) as F.
  pose proof (merge_fold_counts agg MERGE_MAP empty_state g sfc_names
                merge_keys_NoDup Hin) as M.
  cbv zeta in M.
  cbn [empty_state county_pacts county_pupils county_schools] in M.
  rewrite !lookup_empty in M.
  unfold claimed_state in D at 2. rewrite claim_omitted_entry, F in D.
  unfold county_entry in D.
  assert (Ep : county_pacts (fold_left (direct_step names) agg (claimed_state agg, [])).1 !! g
               = county_pacts (fold_left (merge_step agg) MERGE_MAP empty_state) !! g)
    by congruence.
  assert (Eu : county_pupils (fold_left (direct_step names) agg (claimed_state agg, [])).1 !! g
               = county_pupils (fold_left (merge_step agg) MERGE_MAP empty_state) !! g)
    by congruence.
  assert (Ec : county_schools (fold_left (direct_step names) agg (claimed_state agg, [])).1 !! g
               = county_schools (fold_left (merge_step agg) MERGE_MAP empty_state) !! g)
    by congruence.
  rewrite Ep, Eu, Ec. exact M.
Qed.

(** X15.  For a rule of the merge table whose county name is not also the
    region of a school outside the tables, the county gets the sums, over
    the regions of the rule, of the pacts, pupils and school counts of the
    schools; when the rule has no pact and no school, the county gets no
    entry. *)
Theorem merged_county_totals schools geojson st warned g names :
  assign_counties schools geojson = Ok (st, warned) ->
  In (g, names) MERGE_MAP ->
  (forall s, In s schools -> s_region s = g -> In g claimed_names) ->
  (county_pacts st !! g, county_pupils st !! g, county_schools st !! g)
  = if (zsum (map (region_pacts schools) names) >? 0)
       || (zsum (map (region_count schools) names) >? 0)
    then (Some (zsum (map (region_pacts schools) names)),
          Some (zsum (map (region_pupils schools) names)),
          Some (zsum (map (region_count schools) names)))
    else (None, None, None).
Proof.
  intros H Hin Hfree.
  apply assign_counties_inv in H as (agg & Hmap & _ & _ & Hkeys & Hsums).
  assert (Hst : st = fst (map_regions agg (geo_names geojson)))
    by (now rewrite <- Hmap).
  assert (Hagg : forall n r, In (n, r) agg -> ~ In n claimed_names -> n <> g).
  { intros n r Hnr Hn ->. apply Hn.
    assert (Hk : In g (map fst agg)) by (apply in_map_iff; now exists (g, r)).
    apply Hkeys in Hk as (s & Hs & Er). now apply (Hfree s). }
  pose proof (map_regions_merge_counts agg (geo_names geojson) g names Hin Hagg)
    as M.
  cbv zeta in M. rewrite <- Hst in M. rewrite M. unfold merge_active.
  rewrite (map_ext (agg_get r_pacts agg) (region_pacts schools))
    by (intros n; apply Hsums).
  rewrite (map_ext (agg_get r_pupils agg) (region_pupils schools))
    by (intros n; apply Hsums).
  rewrite (map_ext (agg_get r_school_count agg) (region_count schools))
    by (intros n; apply Hsums).
  reflexivity.
Qed.

Lemma merged_county_totals_witness :
  assign_counties somerset_schools [named_feature "Somerset"]
    = Ok (fst somerset_result, snd somerset_result) /\
  In ("Somerset", ["Somerset"; "Somerset, Bath"]) MERGE_MAP /\
  (county_pacts (fst somerset_result) !! "Somerset",
   county_pupils (fst somerset_result) !! "Somerset",
   county_schools (fst somerset_result) !! "Somerset")
  = (Some 20, Some 700, Some 2).
Proof.
  assert (Hin : In ("Somerset", ["Somerset"; "Somerset, Bath"]) MERGE_MAP).
  { right. right. left. reflexivity. }
  split; [exact somerset_assignment | ]. split; [exact Hin | ].
  refine (merged_county_totals somerset_schools [named_feature "Somerset"]
            (fst somerset_result) (snd somerset_result)
            "Somerset" ["Somerset"; "Somerset, Bath"]
            somerset_assignment Hin _).
  intros s _ _. right. right. right. right. right. right. right. right.
  right. right. left. reflexivity.
Defined.

(** ** Annotating the boundary features *)

Lemma set_aggregates_county f pacts pupils pct sc label :
  feature_county (set_aggregates f pacts pupils pct sc label) = feature_county f.
Proof.
  unfold feature_county, set_aggregates. cbn [properties].
  now rewrite !lookup_insert_ne by discriminate.
Qed.

Lemma set_aggregates_frame f pacts pupils pct sc label k :
  ~ In k ["pacts"; "pupils"; "pact_pct"; "school_count"; "label"] ->
  properties (set_aggregates f pacts pupils pct sc label) !! k = properties f !! k.
Proof.
  intros Hk. unfold set_aggregates. cbn [properties]. cbn [In] in Hk.
  rewrite !lookup_insert_ne; [reflexivity | | | | | ]; intros <-; tauto.
Qed.

Lemma set_aggregates_idem f pacts pupils pct sc label :
  set_aggregates (set_aggregates f pacts pupils pct sc label)
                 pacts pupils pct sc label
  = set_aggregates f pacts pupils pct sc label.
Proof.
  unfold set_aggregates. cbn [properties]. f_equal.
  apply map_eq. intros k. rewrite !lookup_insert.
  repeat case_decide; try reflexivity; subst; congruence.
Qed.

Lemma annotate_again st f f' :
  annotate st f = Ok f' ->
  annotate st f' = Ok f' /\
  feature_county f' = feature_county f /\
  (forall k, ~ In k ["pacts"; "pupils"; "pact_pct"; "school_count"; "label"] ->
             properties f' !! k = properties f !! k).
Proof.
  unfold annotate.
  destruct (negb (pyval_truthy (feature_county f))) eqn:T.
  - intros [= <-]. rewrite T. repeat split.
  - set (pacts := default 0 (get_county (county_pacts st) (feature_county f))).
    set (pupils := default 0 (get_county (county_pupils st) (feature_county f))).
    set (sc := default 0 (get_county (county_schools st) (feature_county f))).
    set (label := default "" (get_county (county_labels st) (feature_county f))).
    destruct (if pupils >? 0
              then q ← int_truediv pacts pupils;
                   mret (py_round (py_min (PyFloat (float_mul_int q 100))
                                          (PyInt 100)) 1)
              else mret (PyInt 0)) as [pct | e] eqn:E; [ | discriminate].
    cbn. intros [= <-].
    rewrite set_aggregates_county, T.
    fold pacts pupils sc label. rewrite E. cbn.
    rewrite set_aggregates_idem. split; [reflexivity | ].
    split; [reflexivity | ]. intros k Hk. now apply set_aggregates_frame.
Qed.

Lemma for_each_again {A : Type} (f : A -> res A) l l' :
  Forall2 (fun x y => f x = Ok y /\ f y = Ok y) l l' -> for_each f l' = Ok l'.
Proof.
  induction 1 as [ | x y l l' [_ Hy] _ IH]; [reflexivity | ].
  cbn [for_each]. now rewrite Hy, IH.
Qed.

(** X16.  Annotating is idempotent and touches nothing else: run on its
    own output, with the same schools, the aggregation returns that output
    unchanged and the same warnings; every feature keeps its county name
    and every property other than the five written ones, and there are as
    many features after as before. *)
Theorem annotation_is_idempotent schools rd rd' geojson features warned :
  build_county_data schools rd geojson = Ok (features, warned) ->
  build_county_data schools rd' features = Ok (features, warned) /\
  length features = length geojson /\
  Forall2 (fun f f' =>
             feature_county f' = feature_county f /\
             forall k,
               ~ In k ["pacts"; "pupils"; "pact_pct"; "school_count"; "label"] ->
               properties f' !! k = properties f !! k)
          geojson features.
Proof.
  intros H. apply build_county_data_inv in H as (st & Hst & Hann).
  assert (Hall : Forall2 (fun f f' =>
                   (annotate st f = Ok f' /\ annotate st f' = Ok f') /\
                   feature_county f' = feature_county f /\
                   forall k,
                     ~ In k ["pacts"; "pupils"; "pact_pct"; "school_count"; "label"] ->
                     properties f' !! k = properties f !! k) geojson features).
  { eapply Forall2_impl; [exact Hann | ]. intros f f' Hf. cbn in Hf.
    destruct (annotate_again st f f' Hf) as (H1 & H2 & H3). repeat split; assumption. }
  assert (Hnames : geo_names features = geo_names geojson).
  { unfold geo_names. clear - Hall.
    induction Hall as [ | f f' l l' (_ & Hc & _) _ IH]; [reflexivity | ].
    cbn [map]. now rewrite Hc, IH. }
  split; [ | split].
  - unfold build_county_data.
    assert (Hst' : assign_counties schools features = Ok (st, warned)).
    { unfold assign_counties in *. now rewrite Hnames. }
    rewrite Hst'. cbn.
    rewrite (for_each_again (annotate st) geojson features); [reflexivity | ].
    eapply Forall2_impl; [exact Hall | ]. intros f f' Hf. cbn in Hf. tauto.
  - symmetry. eapply Forall2_length. exact Hall.
  - eapply Forall2_impl; [exact Hall | ]. intros f f' Hf. cbn in Hf. tauto.
Qed.

Lemma annotation_is_idempotent_witness :
  build_county_data wales_schools ∅ wales_geojson
    = Ok (fst wales_result, snd wales_result) /\
  build_county_data wales_schools ∅ (fst wales_result)
    = Ok (fst wales_result, snd wales_result).
Proof.
  split; [exact wales_build | ].
  exact (proj1 (annotation_is_idempotent wales_schools ∅ ∅ wales_geojson
                  (fst wales_result) (snd wales_result) wales_build)).
Defined.

(** ** No school at all *)

Lemma for_each_total {A B : Type} (f : A -> res B) (g : A -> B) l :
  (forall x, f x = Ok (g x)) -> for_each f l = Ok (map g l).
Proof.
  intros H. induction l as [ | x l IH]; [reflexivity | ].
  cbn [for_each map]. now rewrite H, IH.
Qed.

Lemma get_county_empty {V : Type} county : get_county (∅ : gmap string V) county = None.
Proof. destruct county; try reflexivity; apply lookup_empty. Qed.

Lemma map_regions_nil names :
  let st := fst (map_regions [] names) in
  county_pacts st = ∅ /\ county_pupils st = ∅ /\ county_schools st = ∅ /\
  county_labels st = ∅ /\ snd (map_regions [] names) = [].
Proof.
  cbv zeta. split; [reflexivity | ]. split; [reflexivity | ].
  split; [reflexivity | ]. split; reflexivity.
Qed.

(** X17.  With no school the aggregation still returns: every feature with
    a county name gets the pacts, pupils, percentage and school count 0
    and the empty label, a feature without a name is left as it is, and no
    region is warned about. *)
Theorem no_school_blank_map rd geojson :
  build_county_data [] rd geojson
  = Ok (map (fun f => if pyval_truthy (feature_county f)
                      then set_aggregates f 0 0 (PyInt 0) 0 ""
                      else f) geojson,
        []).
Proof.
  destruct (map_regions [] (geo_names geojson)) as [st warned] eqn:E.
  assert (A : assign_counties [] geojson = Ok (st, warned)).
  { unfold assign_counties.
    change (aggregate_regions []) with (@nil (string * region_rec)).
    cbn [for_each]. rewrite <- E. reflexivity. }
  unfold build_county_data. rewrite A.
  change (mbind ?f (Ok (st, warned))) with (f (st, warned)). cbv beta iota.
  destruct (map_regions_nil (geo_names geojson)) as (Hp & Hu & Hc & Hl & Hw).
  rewrite E in Hp, Hu, Hc, Hl, Hw. cbn [fst snd] in *. subst warned.
  rewrite (for_each_total (annotate st)
             (fun f => if pyval_truthy (feature_county f)
                       then set_aggregates f 0 0 (PyInt 0) 0 ""
                       else f)); [reflexivity | ].
  intros f. unfold annotate. rewrite Hp, Hu, Hc, Hl, !get_county_empty.
  destruct (pyval_truthy (feature_county f)); reflexivity.
Qed.

(** ** The leaderboards of the page *)

Lemma insert_by_key_Permutation {A K : Type} (lt : K -> K -> bool) (key : A -> K)
    x l :
  Permutation (insert_by_key lt key x l) (x :: l).
Proof.
  induction l as [ | y l IH]; cbn [insert_by_key]; [reflexivity | ].
  destruct (lt (key y) (key x)); [ | reflexivity].
  rewrite IH. apply perm_swap.
Qed.

Lemma py_sorted_Permutation {A K : Type} (lt : K -> K -> bool) (key : A -> K) l :
  Permutation (py_sorted lt key l) l.
Proof.
  unfold py_sorted. induction l as [ | x l IH]; cbn [fold_right]; [reflexivity | ].
  rewrite insert_by_key_Permutation. now constructor.
Qed.

Lemma insert_by_key_sorted {A : Type} (key : A -> Z) x l :
  StronglySorted (fun a b => key a <= key b) l ->
  StronglySorted (fun a b => key a <= key b) (insert_by_key Z.ltb key x l).
Proof.
  induction l as [ | y l IH]; intros Hs; cbn [insert_by_key].
  - repeat constructor.
  - inversion Hs as [ | ? ? Hl Hy]; subst.
    destruct (key y <? key x) eqn:E.
    + apply Z.ltb_lt in E. constructor; [now apply IH | ].
      apply List.Forall_forall. intros z Hz.
      apply (Permutation_in _ (insert_by_key_Permutation Z.ltb key x l)) in Hz.
      destruct Hz as [<- | Hz]; [lia | ].
      rewrite List.Forall_forall in Hy. now apply Hy.
    + apply Z.ltb_ge in E. constructor; [exact Hs | ].
      constructor; [exact E | ].
      eapply Forall_impl; [exact Hy | ]. intros z Hz. cbn in Hz. lia.
Qed.

Lemma py_sorted_sorted {A : Type} (key : A -> Z) l :
  StronglySorted (fun a b => key a <= key b) (py_sorted Z.ltb key l).
Proof.
  unfold py_sorted. induction l as [ | x l IH]; cbn [fold_right].
  - constructor.
  - now apply insert_by_key_sorted.
Qed.

Lemma insert_by_key_stable {A : Type} (key : A -> Z) k x l :
  List.filter (fun a => key a =? k) (insert_by_key Z.ltb key x l)
  = List.filter (fun a => key a =? k) (x :: l).
Proof.
  induction l as [ | y l IH]; cbn [insert_by_key]; [reflexivity | ].
  destruct (key y <? key x) eqn:E; [ | reflexivity].
  apply Z.ltb_lt in E. cbn [List.filter] in *. rewrite IH.
  destruct (key x =? k) eqn:Ex; [ | reflexivity].
  apply Z.eqb_eq in Ex.
  destruct (key y =? k) eqn:Ey; [ | reflexivity].
  apply Z.eqb_eq in Ey. lia.
Qed.

Lemma py_sorted_stable {A : Type} (key : A -> Z) k l :
  List.filter (fun a => key a =? k) (py_sorted Z.ltb key l)
  = List.filter (fun a => key a =? k) l.
Proof.
  unfold py_sorted. induction l as [ | x l IH]; cbn [fold_right]; [reflexivity | ].
  rewrite insert_by_key_stable. cbn [List.filter]. now rewrite IH.
Qed.

(** X18.  The leaderboard by pact count holds the schools with the most
    pacts: it is the first 20 (or all, if there are fewer) of a
    rearrangement of the schools, in descending order of pacts; no school
    left out has more pacts than a school listed, and among all the schools
    with one pact count the order of the input is kept. *)
Theorem top_by_pacts_leaders schools :
  exists rest,
    Permutation (top_by_pacts schools ++ rest) schools /\
    length (top_by_pacts schools) = Nat.min 20 (length schools) /\
    StronglySorted (fun a b => s_pacts b <= s_pacts a) (top_by_pacts schools) /\
    (forall t r, In t (top_by_pacts schools) -> In r rest ->
                 s_pacts r <= s_pacts t) /\
    (forall n, List.filter (fun s => s_pacts s =? n) (top_by_pacts schools ++ rest)
               = List.filter (fun s => s_pacts s =? n) schools).
Proof.
  unfold top_by_pacts.
  set (sorted := py_sorted Z.ltb (fun s => - s_pacts s) schools).
  exists (drop 20 sorted). rewrite take_drop.
  pose proof (py_sorted_Permutation Z.ltb (fun s => - s_pacts s) schools) as P.
  pose proof (py_sorted_sorted (fun s => - s_pacts s) schools) as S.
  fold sorted in P, S.
  assert (S' : StronglySorted (fun a b => s_pacts b <= s_pacts a) sorted).
  { clear - S. induction S as [ | x l Hl IH Hx]; constructor; [exact IH | ].
    eapply Forall_impl; [exact Hx | ]. intros z Hz. cbn in Hz. lia. }
  split; [exact P | ]. split.
  - rewrite length_take. now rewrite (Permutation_length P).
  - split.
    + rewrite <- (take_drop 20 sorted) in S'.
      now apply StronglySorted_app_1_l in S'.
    + split.
      * intros t r Ht Hr. rewrite <- (take_drop 20 sorted) in S'.
        apply (StronglySorted_app_1_elem_of _ _ _ t r S');
          now apply list_elem_of_In.
      * intros n.
        pose proof (py_sorted_stable (fun s => - s_pacts s) (- n) schools) as St.
        fold sorted in St.
        rewrite (filter_ext (fun s => s_pacts s =? n)
                            (fun s => - s_pacts s =? - n)).
        -- rewrite St. apply filter_ext. intros s.
           destruct (Z.eqb_spec (- s_pacts s) (- n)), (Z.eqb_spec (s_pacts s) n);
             try reflexivity; lia.
        -- intros s.
           destruct (Z.eqb_spec (- s_pacts s) (- n)), (Z.eqb_spec (s_pacts s) n);
             try reflexivity; lia.
Qed.

(** X19.  After the metrics step the leaderboard by percentage is defined;
    it lists only schools with at least 10 pupils: the first 20 (or all)
    of a rearrangement of those schools. *)
Theorem top_by_pct_eligible schools schools' :
  calculate_metrics schools = Ok schools' ->
  exists top rest,
    top_by_pct schools' = Some top /\
    Permutation (top ++ rest)
                (List.filter (fun s => 10 <=? s_pupils s) schools') /\
    length top
    = Nat.min 20 (length (List.filter (fun s => 10 <=? s_pupils s) schools')) /\
    Forall (fun s => 10 <= s_pupils s /\ In s schools') top.
Proof.
  intros H. apply calculate_metrics_inv in H.
  assert (Hall : Forall (fun s => is_Some (s_pact_pct s)) schools').
  { clear - H. induction H as [ | s s' l l' [p ->] _ IH]; constructor; [ | exact IH].
    cbn. eauto. }
  set (eligible := List.filter (fun s => 10 <=? s_pupils s) schools').
  assert (He : Forall (fun s => is_Some (s_pact_pct s)) eligible).
  { apply List.Forall_forall. intros s Hs. apply filter_In in Hs as [Hs _].
    rewrite List.Forall_forall in Hall. now apply Hall. }
  assert (Hk : exists keyed,
             mapM (fun s => p ← s_pact_pct s; Some (py_neg p, s)) eligible
             = Some keyed /\ map snd keyed = eligible).
  { clear - He. induction He as [ | s l [p Hp] _ (keyed & Hm & Hs)].
    - exists []. now split.
    - exists ((py_neg p, s) :: keyed). split.
      + apply mapM_Some_2. constructor.
        * rewrite Hp. reflexivity.
        * now apply mapM_Some_1.
      + cbn [map snd]. now rewrite Hs. }
  destruct Hk as (keyed & Hm & Hs).
  set (sorted := map snd (py_sorted py_lt fst keyed)).
  assert (P : Permutation sorted eligible).
  { unfold sorted. rewrite <- Hs. apply Permutation_map.
    apply py_sorted_Permutation. }
  exists (take 20 sorted), (drop 20 sorted).
  split; [ | split; [ | split]].
  - unfold top_by_pct. fold eligible. rewrite Hm. reflexivity.
  - now rewrite take_drop.
  - rewrite length_take. now rewrite (Permutation_length P).
  - apply List.Forall_forall. intros s Hs'.
    assert (Hin : In s eligible).
    { apply (Permutation_in _ P). rewrite <- (take_drop 20 sorted).
      apply in_or_app. now left. }
    apply filter_In in Hin as [Hin Hp]. apply Z.leb_le in Hp. now split.
Qed.

Lemma top_by_pct_eligible_witness :
  calculate_metrics [school_a; school_z] = Ok sample_scored /\
  exists top rest,
    top_by_pct sample_scored = Some top /\
    Permutation (top ++ rest)
                (List.filter (fun s => 10 <=? s_pupils s) sample_scored) /\
    length top
    = Nat.min 20 (length (List.filter (fun s => 10 <=? s_pupils s) sample_scored)) /\
    Forall (fun s => 10 <= s_pupils s /\ In s sample_scored) top.
Proof.
  split; [exact sample_scored_run | ].
  exact (top_by_pct_eligible [school_a; school_z] sample_scored sample_scored_run).
Defined.

(** ** The run as a whole *)
























(** ** The rename table *)

(** X22.  The rename table never takes effect: its keys are claimed by the
    merge table, so a region that reaches the direct-match step is looked
    up on the boundaries under its own name. *)
Theorem rename_table_never_applies agg names n :
  (n ∉ already_mapped (fst (map_regions agg names)) -> rename_target n = n) /\
  (forall t, al_lookup n RENAME_MAP = Some t ->
             n ∈ already_mapped (fst (map_regions agg names))) /\
  (forall st warned r,
     n ∉ already_mapped (claimed_state agg) ->
     already_mapped st = already_mapped (claimed_state agg) ->
     direct_step names (st, warned) (n, r)
     = if str_in n names
       then ({| county_pacts := <[n := r_pacts r]> (county_pacts st);
                county_pupils := <[n := r_pupils r]> (county_pupils st);
                county_schools := <[n := r_school_count r]> (county_schools st);
                county_labels := county_labels st;
                already_mapped := already_mapped st |}, warned)
       else (st, warned ++ [n])).
Proof.
  split; [ | split].
  - rewrite map_regions_claims. apply rename_target_unclaimed.
  - intros t Ht. rewrite map_regions_claims. now apply (rename_keys_claimed n t).
  - intros st warned r Hn Hst. rewrite claimed_state_claims in Hn.
    unfold direct_step. rewrite Hst.
    rewrite bool_decide_eq_false_2 by (now rewrite claimed_state_claims).
    rewrite (rename_target_unclaimed n Hn).
    destruct (str_in n names); [reflexivity | ].
    assert (O : in_omitted n = false).
    { unfold in_omitted. apply not_true_is_false. intros H.
      apply existsb_exists in H as (x & Hx & E). apply String.eqb_eq in E.
      subst x. apply Hn. unfold claimed_names.
      apply in_or_app. right. apply in_or_app. now right. }
    now rewrite O.
Qed.
